(** * The workout-video job pipeline

    A shallow embedding of the job processor of the video-processing server
    (the multi-video processor with push notifications, and the earlier
    single-video processor that lives next to the first server), together
    with the properties of the pipeline that its specification states.

    Conventions of the embedding.
    - A JavaScript string is a [string] that holds its UTF-8 encoding, one
      byte per unit.  Equality, concatenation, emptiness and the search for
      an ASCII text ('429', 'tiktok.com', '.png', a brace) read the same on
      the encoding as on the string; [trim] strips the white space and the
      line terminators of the language, in their encoding; the order of
      [sort()], which compares UTF-16 code units, is given on the encoding
      in [nameLe].
    - A JavaScript value whose shape the code inspects (truthiness, array
      test, property access) is a [JsValue].  A number inside such a value
      is given by the text that JavaScript renders it as: all that the
      sources do to such a number is test it for truth, compare it with 0
      and convert it to a string.
    - A JavaScript number that is a progress value is computed exactly, as
      a rational.
    - A JavaScript object used as a dictionary (the [updates] argument, the
      [updateData] sent to the store, the entries of an archive, a stored
      row) is a [gmap] with string keys.
    - Console logging is left out: it has no effect on control flow or on
      any collaborator.
    - Every collaborator (download host, frame-extraction service, model
      provider, store, file system, clock) answers through a [World]; what
      the processor does to them is recorded, in order, in a trace of
      [Event]s. *)

From Stdlib Require Import ZArith QArith Lia List Ascii String DecimalString Strings.Byte.
From stdpp Require Import gmap strings list fin_maps sorting.

Local Open Scope string_scope.
Local Open Scope list_scope.

(** ** Strings *)

Module Str.

(** [s.includes(needle)] *)
Fixpoint includes (needle s : string) : bool :=
  String.prefix needle s ||
  match s with
  | EmptyString => false
  | String _ rest => includes needle rest
  end.

(** [s.endsWith(suffix)] *)
Definition endsWith (suffix s : string) : bool :=
  let n := String.length s in
  let k := String.length suffix in
  (k <=? n)%nat && String.eqb (String.substring (n - k) k s) suffix.

(** What [trim] strips is the white space and the line terminators of
    the language.  In UTF-8 they take one unit (U+0009 to U+000D, U+0020),
    two (U+00A0) or three (U+1680, U+2000 to U+200A, U+2028, U+2029,
    U+202F, U+205F, U+3000, U+FEFF). *)
Definition isSpace (c : ascii) : bool :=
  let n := nat_of_ascii c in
  ((9 <=? n)%nat && (n <=? 13)%nat) || (n =? 32)%nat.

Definition isSpace2 (a b : ascii) : bool :=
  (nat_of_ascii a =? 194)%nat && (nat_of_ascii b =? 160)%nat.

Definition isSpace3 (a b c : ascii) : bool :=
  let x := nat_of_ascii a in
  let y := nat_of_ascii b in
  let z := nat_of_ascii c in
  ((x =? 225) && (y =? 154) && (z =? 128))%nat
  || ((x =? 226)%nat && (y =? 128)%nat
      && (((128 <=? z) && (z <=? 138))%nat
          || (z =? 168)%nat || (z =? 169)%nat || (z =? 175)%nat))
  || ((x =? 226) && (y =? 129) && (z =? 159))%nat
  || ((x =? 227) && (y =? 128) && (z =? 128))%nat
  || ((x =? 239) && (y =? 187) && (z =? 191))%nat.

(** What is left of [s] after the space it starts with, when it starts
    with one. *)
Definition afterSpace (s : string) : option string :=
  match s with
  | String a rest1 =>
      if isSpace a then Some rest1
      else
        match rest1 with
        | String b rest2 =>
            if isSpace2 a b then Some rest2
            else
              match rest2 with
              | String c rest3 =>
                  if isSpace3 a b c then Some rest3 else None
              | EmptyString => None
              end
        | EmptyString => None
        end
  | EmptyString => None
  end.

Fixpoint trimStart (s : string) : string :=
  match s with
  | EmptyString => EmptyString
  | String a rest1 =>
      if isSpace a then trimStart rest1
      else
        match rest1 with
        | String b rest2 =>
            if isSpace2 a b then trimStart rest2
            else
              match rest2 with
              | String c rest3 =>
                  if isSpace3 a b c then trimStart rest3 else s
              | EmptyString => s
              end
        | EmptyString => s
        end
  end.

(** [s] is made of spaces only. *)
Fixpoint allSpace (s : string) : bool :=
  match s with
  | EmptyString => true
  | String a rest1 =>
      if isSpace a then allSpace rest1
      else
        match rest1 with
        | String b rest2 =>
            if isSpace2 a b then allSpace rest2
            else
              match rest2 with
              | String c rest3 => isSpace3 a b c && allSpace rest3
              | EmptyString => false
              end
        | EmptyString => false
        end
  end.

(** [trimEnd] cuts where the rest is made of spaces only. *)
Fixpoint trimEnd (s : string) : string :=
  match s with
  | EmptyString => EmptyString
  | String c rest => if allSpace s then EmptyString else String c (trimEnd rest)
  end.

(** [s.trim()] *)
Definition trim (s : string) : string := trimEnd (trimStart s).

(** [arr.join(sep)] on an array of strings *)
Fixpoint join (sep : string) (l : list string) : string :=
  match l with
  | [] => ""
  | [x] => x
  | x :: rest => x ++ sep ++ join sep rest
  end.

(** Decimal rendering of a non-negative number, as a template literal
    renders an HTTP status or a timestamp. *)
Definition ofN (n : N) : string := NilZero.string_of_uint (N.to_uint n).

Definition newline : string := String (ascii_of_nat 10) EmptyString.

End Str.

(** ** JavaScript values *)

#[local] Set Warnings "-register-all".

Inductive JsValue : Type :=
| JUndefined
| JNull
| JBool (b : bool)
| JNum (rendering : string)
| JStr (s : string)
| JArr (items : list JsValue)
| JObj (props : list (string * JsValue)).

Module Js.

(** Truthiness, as [if (v)], [v || w] and [v && w] test it. *)
Definition truthy (v : JsValue) : bool :=
  match v with
  | JUndefined | JNull => false
  | JBool b => b
  | JNum rendering =>
      negb (String.eqb rendering "0") && negb (String.eqb rendering "NaN")
  | JStr s => negb (String.eqb s "")
  | JArr _ | JObj _ => true
  end.

(** [Array.isArray(v)] *)
Definition isArray (v : JsValue) : bool :=
  match v with JArr _ => true | _ => false end.

Fixpoint assoc (k : string) (props : list (string * JsValue)) : JsValue :=
  match props with
  | [] => JUndefined
  | (k', v) :: rest => if String.eqb k k' then v else assoc k rest
  end.

(** [v.k] for a value that is neither [null] nor [undefined], and a key
    that is neither 'length', nor an index, nor a name that the prototypes
    define: a property of an object, and [undefined] on any other value.
    The first entry under a key is the property. *)
Definition get (v : JsValue) (k : string) : JsValue :=
  match v with
  | JObj props => assoc k props
  | _ => JUndefined
  end.

(** [a || b] *)
Definition or (a b : JsValue) : JsValue := if truthy a then a else b.

(** [String(v)], the conversion that string concatenation and template
    literals apply. *)
Fixpoint toString (v : JsValue) : string :=
  match v with
  | JUndefined => "undefined"
  | JNull => "null"
  | JBool true => "true"
  | JBool false => "false"
  | JNum rendering => rendering
  | JStr s => s
  | JArr items =>
      Str.join ","
        (List.map (fun x => match x with
                            | JUndefined | JNull => ""
                            | _ => toString x
                            end) items)
  | JObj _ => "[object Object]"
  end.

(** Whether [String(v)] gives a text.  The conversion of an object calls
    its [toString]; an entry under that name, which in a value read from
    JSON is no function, hides the inherited method, and the conversion
    throws a TypeError.  An array converts its elements. *)
Fixpoint renders (v : JsValue) : bool :=
  match v with
  | JArr items => forallb renders items
  | JObj props => negb (existsb (fun kv => String.eqb (fst kv) "toString") props)
  | _ => true
  end.

(** [arr.length] of a value known to be an array *)
Definition length (v : JsValue) : nat :=
  match v with JArr items => List.length items | _ => 0 end.

End Js.

(** ** Errors and results *)

Record Error : Type := mkError { name : string; message : string }.

(** [new Error(msg)] *)
Definition newError (msg : string) : Error := mkError "Error" msg.

Inductive Res (A : Type) : Type :=
| Ok (a : A)
| Throw (e : Error).
Arguments Ok {A} a.
Arguments Throw {A} e.

(** ** Collaborators

    What the processor asks of the outside, in the order it asks. *)

Record VisionRequest : Type := mkVisionRequest {
  vr_model : string;
  vr_instruction : string;
  vr_url : string;
  vr_detail : string;
  vr_max_tokens : N
}.

Inductive Event : Type :=
| EvProgress (percent : Q)
| EvFetchVideo (url : string) (headers : list (string * string)) (abortAfterMs : N)
| EvWriteFile (path : string)
| EvUnlink (path : string)
| EvExtract (videoPath : string)
| EvVision (authorization : string) (request : VisionRequest)
| EvSynthesize (authorization : string) (prompt : string)
| EvUpdate (workoutId : string) (updateData : gmap string JsValue)
| EvNotify (userId : string) (workoutName : JsValue) (success : bool).

(** The download host.  A request either fails by itself or answers with a
    status line after [ms] milliseconds; the body then takes its own time
    to arrive, or fails. *)
Inductive BodyReply : Type :=
| BodyFails (e : Error)
| BodyArrives (ms : N).

Inductive FetchReply : Type :=
| FetchRejects (ms : N) (e : Error)
| FetchResponds (ms : N) (ok : bool) (status : N) (body : BodyReply).

(** The frame-extraction service: the request fails, or answers with a
    non-success status and a text, or with bytes that are not an archive,
    or with an archive (entry name to entry content). *)
Inductive ExtractReply : Type :=
| ExtractRejects (e : Error)
| ExtractStatus (status : N) (errorText : string)
| ExtractBadArchive (e : Error)
| ExtractArchive (files : gmap string (list Byte.byte)).

(** The vision model, for one frame.  [VisionContent c] is a success
    response for which [data.choices[0]?.message?.content] evaluates to
    [c]; [VisionMalformed] one whose body cannot be read that far. *)
Inductive VisionReply : Type :=
| VisionRejects (e : Error)
| VisionStatus (status : N)
| VisionMalformed (e : Error)
| VisionContent (content : JsValue).

(** The language model.  [errorData] is what [response.json()] gives for
    the body of a non-success answer: a JSON value ([null] is one,
    [undefined] is not), or nothing when the body is not JSON. *)
Inductive SynthReply : Type :=
| SynthRejects (e : Error)
| SynthStatus (status : N) (statusText : string) (errorData : option JsValue)
| SynthMalformed (e : Error)
| SynthContent (content : JsValue).

(** Every answer may depend on all that happened before it.  [jsonParse]
    is [JSON.parse] on a text that starts with an opening brace: it yields
    an object, given by its properties, or throws a [SyntaxError]. *)
Record World : Type := mkWorld {
  fetchVideo : list Event -> string -> FetchReply;
  now : list Event -> N;
  writeFile : list Event -> string -> option Error;
  unlink : list Event -> string -> option Error;
  extractService : list Event -> string -> ExtractReply;
  visionModel : list Event -> VisionRequest -> VisionReply;
  languageModel : list Event -> string -> SynthReply;
  jsonParse : string -> Res (list (string * JsValue));
  supabaseUpdate : list Event -> string -> gmap string JsValue -> option string
}.

(** ** The effect monad: a trace, a store, a clock, and exceptions

    The clock counts, in milliseconds, the waits of the download stage (the
    only stage with a timer); the other collaborators answer in no time. *)

Record State : Type := mkState {
  trace : list Event;
  store : gmap string (gmap string JsValue);
  clock : N
}.

Definition M (A : Type) : Type := State -> State * Res A.

#[global] Instance M_ret : MRet M := fun A a s => (s, Ok a).

#[global] Instance M_bind : MBind M := fun A B f m s =>
  match m s with
  | (s', Ok a) => f a s'
  | (s', Throw e) => (s', Throw e)
  end.

Definition throw {A : Type} (e : Error) : M A := fun s => (s, Throw e).

(** [try { body } catch (error) { handler }] *)
Definition tryCatch {A : Type} (body : M A) (handler : Error -> M A) : M A :=
  fun s =>
    match body s with
    | (s', Ok a) => (s', Ok a)
    | (s', Throw e) => handler e s'
    end.

Definition emit (ev : Event) : M unit :=
  fun s => (mkState (trace s ++ [ev]) (store s) (clock s), Ok tt).

Definition history : M (list Event) := fun s => (s, Ok (trace s)).

Definition modifyStore (f : gmap string (gmap string JsValue) ->
                            gmap string (gmap string JsValue)) : M unit :=
  fun s => (mkState (trace s) (f (store s)) (clock s), Ok tt).

(** Time passing while the processor awaits. *)
Definition wait (ms : N) : M unit :=
  fun s => (mkState (trace s) (store s) (clock s + ms), Ok tt).

(** [job.progress(p)] *)
Definition progress (p : Q) : M unit := emit (EvProgress p).

(** ** The store *)

Definition defined (v : JsValue) : option JsValue :=
  match v with JUndefined => None | _ => Some v end.

(** Modelled from the spec: the persistence collaborator, whose client is
    not part of the sources.  An update by identifier accepts a partial
    field set and leaves the fields it does not name untouched; a key
    whose value is [undefined] does not survive serialisation and names
    nothing. *)
Definition applyUpdate (updateData row : gmap string JsValue)
  : gmap string JsValue :=
  omap defined updateData ∪ row.

(** ** [updateWorkout] *)

(** [updates.k] *)
Definition field (updates : gmap string JsValue) (k : string) : JsValue :=
  default JUndefined (updates !! k).

(** [if (updates.from) updateData.to = updates.from;] *)
Definition copyIfTruthy (updates : gmap string JsValue) (from to : string)
  (updateData : gmap string JsValue) : gmap string JsValue :=
  if Js.truthy (field updates from)
  then <[to := field updates from]> updateData
  else updateData.

Definition buildUpdateData (updates : gmap string JsValue)
  : gmap string JsValue :=
  let updateData := {[ "status" := field updates "status" ]} in
  let updateData := copyIfTruthy updates "exercises" "exercises" updateData in
  let updateData := copyIfTruthy updates "name" "name" updateData in
  let updateData := copyIfTruthy updates "duration" "duration" updateData in
  let updateData := copyIfTruthy updates "difficulty" "difficulty" updateData in
  let updateData := copyIfTruthy updates "notes" "notes" updateData in
  let updateData := copyIfTruthy updates "displayUrl" "display_url" updateData in
  copyIfTruthy updates "processingError" "processing_error" updateData.

(** The fields that [updateWorkout] copies when truthy: name in [updates],
    column in the store. *)
Definition copiedFields : list (string * string) :=
  [ ("exercises", "exercises"); ("name", "name"); ("duration", "duration");
    ("difficulty", "difficulty"); ("notes", "notes");
    ("displayUrl", "display_url"); ("processingError", "processing_error") ].

Definition updateWorkout (w : World) (workoutId : string)
  (updates : gmap string JsValue) : M unit :=
  let updateData := buildUpdateData updates in
  h ← history;
  emit (EvUpdate workoutId updateData);;
  match supabaseUpdate w h workoutId updateData with
  | Some msg => throw (newError ("Supabase error: " ++ msg))
  | None => modifyStore (alter (applyUpdate updateData) workoutId)
  end.


(** ** [extractFrames] *)

Module Base64.

Definition alphabet : string :=
  "ABCDEFGHIJKLMNOPQRSTUVWXYZabcdefghijklmnopqrstuvwxyz0123456789+/".

Definition digit (i : N) : ascii :=
  match String.get (N.to_nat i) alphabet with
  | Some c => c
  | None => "="%char
  end.

Definition pad : ascii := "="%char.

(** The standard alphabet with padding, three bytes to four characters:
    what the archive library returns for [entry.async('base64')]. *)
Fixpoint encode (bytes : list Byte.byte) : string :=
  match bytes with
  | [] => ""
  | [a] =>
      let n := (Byte.to_N a * 65536)%N in
      String (digit (n / 262144)) (String (digit ((n / 4096) mod 64))
        (String pad (String pad "")))
  | [a; b] =>
      let n := (Byte.to_N a * 65536 + Byte.to_N b * 256)%N in
      String (digit (n / 262144)) (String (digit ((n / 4096) mod 64))
        (String (digit ((n / 64) mod 64)) (String pad "")))
  | a :: b :: c :: rest =>
      let n := (Byte.to_N a * 65536 + Byte.to_N b * 256 + Byte.to_N c)%N in
      String (digit (n / 262144)) (String (digit ((n / 4096) mod 64))
        (String (digit ((n / 64) mod 64)) (String (digit (n mod 64))
          (encode rest))))
  end.

End Base64.

(** [`data:image/png;base64,${imageData}`] *)
Definition dataUri (imageData : string) : string :=
  "data:image/png;base64," ++ imageData.

(** The order of [Array.prototype.sort] without a comparator, on strings:
    lexicographic by UTF-16 code unit.  On the UTF-8 encoding this is the
    lexicographic order of the bytes once the lead bytes of the characters
    beyond U+FFFF (240 to 244), which UTF-16 writes with surrogates, are
    put before those of U+E000 to U+FFFF (238 and 239). *)
Definition unitKey (a : ascii) : ascii :=
  let n := nat_of_ascii a in
  if (n =? 238)%nat then ascii_of_nat 243
  else if (n =? 239)%nat then ascii_of_nat 244
  else if ((240 <=? n) && (n <=? 244))%nat then ascii_of_nat (n - 2)
  else a.

Fixpoint sortKey (s : string) : string :=
  match s with
  | EmptyString => EmptyString
  | String a rest => String (unitKey a) (sortKey rest)
  end.

Definition nameLe (a b : string) : Prop :=
  String.leb (sortKey a) (sortKey b) = true.

#[global] Instance nameLe_dec a b : Decision (nameLe a b).
Proof. unfold nameLe. apply _. Defined.

(** [Object.keys(zipContent.files).filter(name => name.endsWith('.png')).sort()].
    The keys are enumerated in the map's own order; sorting distinct names
    makes the enumeration order immaterial. *)
Definition pngNames (zipFiles : gmap string (list Byte.byte)) : list string :=
  merge_sort nameLe
    (filter (λ name, Str.endsWith ".png" name) (map_to_list zipFiles).*1).

(** [await zipContent.files[name].async('base64')] *)
Definition readEntry (zipFiles : gmap string (list Byte.byte)) (name : string)
  : M string :=
  match zipFiles !! name with
  | Some bytes => mret (Base64.encode bytes)
  | None =>
      throw (mkError "TypeError"
               "Cannot read properties of undefined (reading 'async')")
  end.

(** [for (let i = start; i < files.length; i += 3) frames.push(...)];
    [fuel] bounds the number of iterations. *)
Fixpoint sampleLoop (zipFiles : gmap string (list Byte.byte))
  (files : list string) (fuel i : nat) (frames : list string)
  : M (list string) :=
  match fuel with
  | O => mret frames
  | S fuel' =>
      if (i <? List.length files)%nat then
        imageData ← readEntry zipFiles (default "" (files !! i));
        sampleLoop zipFiles files fuel' (i + 3) (frames ++ [dataUri imageData])
      else mret frames
  end.

Definition extractFrames (w : World) (videoPath : string)
  : M (list string * option string) :=
  h ← history;
  emit (EvExtract videoPath);;
  match extractService w h videoPath with
  | ExtractRejects e => throw e
  | ExtractStatus status errorText =>
      throw (newError ("FFmpeg API error: " ++ Str.ofN status ++ " - "
                       ++ errorText))
  | ExtractBadArchive e => throw e
  | ExtractArchive zipFiles =>
      let files := pngNames zipFiles in
      if (List.length files =? 0)%nat
      then throw (newError "No frames found in ZIP")
      else
        firstFrame ←
          (if (0 <? List.length files)%nat then
             imageData ← readEntry zipFiles (default "" (files !! 0%nat));
             mret (Some (dataUri imageData))
           else mret None);
        frames ← sampleLoop zipFiles files (List.length files) 0 [];
        mret (frames, firstFrame)
  end.

(** ** [downloadVideo] *)

Definition userAgent : string :=
  "Mozilla/5.0 (iPhone; CPU iPhone OS 16_0 like Mac OS X) AppleWebKit/605.1.15 (KHTML, like Gecko) Version/16.0 Mobile/15E148 Safari/604.1".

Definition downloadHeaders (videoUrl : string) : list (string * string) :=
  let isTikTok :=
    Str.includes "tiktok.com" videoUrl || Str.includes "tiktokcdn.com" videoUrl in
  let headers := [ ("User-Agent", userAgent) ] in
  if isTikTok then
    headers ++
    [ ("Referer", "https://www.tiktok.com/");
      ("Origin", "https://www.tiktok.com");
      ("Accept", "video/mp4,video/webm,video/*,*/*;q=0.9,application/signed-exchange;v=b3;q=0.7,*/*;q=0.8");
      ("Accept-Language", "en-US,en;q=0.9");
      ("Accept-Encoding", "identity");
      ("Range", "bytes=0-");
      ("Sec-Fetch-Dest", "video");
      ("Sec-Fetch-Mode", "no-cors");
      ("Sec-Fetch-Site", "same-site") ]
  else headers.

(** [setTimeout(() => controller.abort(), 30000)] *)
Definition abortAfterMs : N := 30000.

(** What [fetch] rejects with when its signal aborts. *)
Definition abortError : Error :=
  mkError "AbortError" "The user aborted a request.".

(** [await fetch(videoUrl, { signal, headers })] with the abort timer armed:
    the request settles by itself if it does so before the timer fires, and
    is aborted when the timer fires first. *)
Definition fetchWithTimer (w : World) (headers : list (string * string))
  (videoUrl : string) : M (bool * N * BodyReply) :=
  h ← history;
  emit (EvFetchVideo videoUrl headers abortAfterMs);;
  match fetchVideo w h videoUrl with
  | FetchRejects ms e =>
      if (ms <? abortAfterMs)%N
      then wait ms;; throw e
      else wait abortAfterMs;; throw abortError
  | FetchResponds ms ok status body =>
      if (ms <? abortAfterMs)%N
      then wait ms;; mret (ok, status, body)
      else wait abortAfterMs;; throw abortError
  end.

(** [await response.buffer()]; by now [clearTimeout] has disarmed the timer. *)
Definition readBody (body : BodyReply) : M unit :=
  match body with
  | BodyFails e => throw e
  | BodyArrives ms => wait ms
  end.

Definition downloadWith (headersOf : string -> list (string * string))
  (w : World) (videoUrl : string) : M string :=
  tryCatch
    ('(ok, status, body) ← fetchWithTimer w (headersOf videoUrl) videoUrl;
     if negb ok
     then throw (newError ("Failed to download video: " ++ Str.ofN status))
     else
       readBody body;;
       h ← history;
       let videoPath := ("/tmp/video_" ++ Str.ofN (now w h) ++ ".mp4")%string in
       emit (EvWriteFile videoPath);;
       match writeFile w h videoPath with
       | Some e => throw e
       | None => mret videoPath
       end)
    (fun error =>
       if String.eqb (name error) "AbortError"
       then throw (newError "Video download timeout")
       else throw error).

(** The [source] argument is accepted and never read. *)
Definition downloadVideo (w : World) (videoUrl source : string) : M string :=
  downloadWith downloadHeaders w videoUrl.

(** ** [extractTextFromFrames] *)

Definition visionInstruction : string :=
  "Extract all visible text from this workout video frame. Include exercise names, rep counts, set counts, durations, and any other text visible on screen. Return only the extracted text, nothing else.".

Definition visionRequest (detail frame : string) : VisionRequest :=
  mkVisionRequest "gpt-4o-mini" visionInstruction frame detail 500.

(** The body of the [try] for one frame: [Some text] when a trimmed,
    non-empty text is to be pushed. *)
Definition frameText (detail : string) (w : World) (openAIKey frame : string)
  : M (option string) :=
  h ← history;
  let request := visionRequest detail frame in
  emit (EvVision ("Bearer " ++ openAIKey) request);;
  match visionModel w h request with
  | VisionRejects e => throw e
  | VisionStatus _ => mret None
  | VisionMalformed e => throw e
  | VisionContent content =>
      match Js.or content (JStr "") with
      | JStr text =>
          if (0 <? String.length (Str.trim text))%nat
          then mret (Some (Str.trim text))
          else mret None
      | _ => throw (mkError "TypeError" "text.trim is not a function")
      end
  end.

Fixpoint textLoop (detail : string) (w : World) (openAIKey : string)
  (frames : list string) (allTexts : list string) : M (list string) :=
  match frames with
  | [] => mret allTexts
  | frame :: rest =>
      allTexts' ←
        tryCatch
          (text ← frameText detail w openAIKey frame;
           mret (match text with
                 | Some t => allTexts ++ [t]
                 | None => allTexts
                 end))
          (fun _ => mret allTexts);
      textLoop detail w openAIKey rest allTexts'
  end.

Definition extractTextWith (detail : string) (w : World)
  (frames : list string) (openAIKey : string) : M string :=
  allTexts ← textLoop detail w openAIKey frames [];
  mret (Str.join (Str.newline ++ Str.newline) allTexts).

Definition extractTextFromFrames : World -> list string -> string -> M string :=
  extractTextWith "low".

(** ** [parseWorkoutWithAI] *)

Definition openBrace : ascii := "{"%char.
Definition closeBrace : ascii := "}"%char.

(** The suffix of [s] that starts at its first opening brace. *)
Fixpoint fromFirstOpen (s : string) : option string :=
  match s with
  | EmptyString => None
  | String c rest =>
      if Ascii.eqb c openBrace then Some s else fromFirstOpen rest
  end.

(** The longest prefix of [s] that ends with a closing brace. *)
Fixpoint upToLastClose (s : string) : option string :=
  match s with
  | EmptyString => None
  | String c rest =>
      match upToLastClose rest with
      | Some p => Some (String c p)
      | None => if Ascii.eqb c closeBrace then Some (String c EmptyString) else None
      end
  end.

(** [content.match(/\{[\s\S]*\}/)]: from the first opening brace to the
    last closing brace after it. *)
Definition matchBraces (content : string) : option string :=
  match fromFirstOpen content with
  | Some t => upToLastClose t
  | None => None
  end.

(** [errorData.error?.message || errorData.message || response.statusText],
    for an [errorData] that is not [null]: reading a property of a value
    that is no object gives [undefined]. *)
Definition synthErrorMessage (errorData : JsValue) (statusText : string)
  : JsValue :=
  let error := Js.get errorData "error" in
  let viaError :=
    match error with
    | JUndefined | JNull => JUndefined
    | _ => Js.get error "message"
    end in
  Js.or (Js.or viaError (Js.get errorData "message")) (JStr statusText).

(** What reading [errorData.error] raises when the body is [null]. *)
Definition nullBodyError : Error :=
  mkError "TypeError" "Cannot read properties of null (reading 'error')".

(** What converting a value to a string raises when [Js.renders] fails. *)
Definition primitiveError : Error :=
  mkError "TypeError" "Cannot convert object to primitive value".

(** [`${v}`] and [v + text]: the text of [v], when it has one. *)
Definition stringOf (v : JsValue) : M string :=
  if Js.renders v then mret (Js.toString v) else throw primitiveError.

Definition synthPrompt (caption extractedText : string) : string :=
  caption ++ Str.newline ++ Str.newline
  ++ "=== EXTRACTED FROM VIDEO FRAMES ===" ++ Str.newline ++ extractedText.

(** The part after the model has answered with a success response. *)
Definition parseContent (w : World) (content : JsValue) : M JsValue :=
  match Js.or content (JStr "") with
  | JStr content =>
      match matchBraces content with
      | None =>
          throw (newError "Failed to parse workout data from AI response")
      | Some jsonMatch =>
          match jsonParse w jsonMatch with
          | Throw e => throw e
          | Ok props =>
              let workoutData := JObj props in
              if negb (Js.truthy (Js.get workoutData "exercises"))
                 || negb (Js.isArray (Js.get workoutData "exercises"))
              then throw (newError "Invalid workout structure from AI")
              else mret workoutData
          end
      end
  | _ => throw (mkError "TypeError" "content.match is not a function")
  end.

Definition parseWorkoutWithAI (w : World)
  (caption extractedText openAIKey : string) : M JsValue :=
  let combinedText := synthPrompt caption extractedText in
  h ← history;
  emit (EvSynthesize ("Bearer " ++ openAIKey) combinedText);;
  match languageModel w h combinedText with
  | SynthRejects e => throw e
  | SynthStatus status statusText errorData =>
      match default (JObj []) errorData with
      | JNull => throw nullBodyError
      | errorData =>
          let errorMessage := synthErrorMessage errorData statusText in
          rendered ← stringOf errorMessage;
          throw (newError ("OpenAI API error: " ++ Str.ofN status ++ " - "
                           ++ rendered))
      end
  | SynthMalformed e => throw e
  | SynthContent content => parseContent w content
  end.

(** ** [sendWorkoutProcessingNotification]

    The notifier wraps the token lookup and the push in handlers of its
    own and always resolves to a boolean, which the processor drops.  What
    the processor contributes is the call and its arguments. *)
Definition sendWorkoutProcessingNotification (userId : string)
  (workoutName : JsValue) (success : bool) : M unit :=
  emit (EvNotify userId workoutName success).

(** ** [processVideoJob] *)

Record JobData : Type := mkJobData {
  workoutId : string;
  videoUrl : option string;
  videoUrls : option (list string);
  videoFiles : option (list string);
  userId : string;
  caption : string;
  source : string;
  displayUrl : JsValue;
  openAIKey : string
}.

(** What the processor resolves to: [{ success: true, workoutId, exercises }]
    or [{ success: false, error }]. *)
Inductive JobResult : Type :=
| JobSucceeded (workoutId : string) (exercises : nat)
| JobSoftFailed (error : string).

(** [const files = hasFiles ? videoFiles : []] *)
Definition jobFiles (data : JobData) : list string :=
  match videoFiles data with
  | Some l => if (0 <? List.length l)%nat then l else []
  | None => []
  end.

(** [const urls = hasUrls ? (videoUrls || [videoUrl]) : []] *)
Definition jobUrls (data : JobData) : list string :=
  match videoUrls data with
  | Some l => l
  | None =>
      match videoUrl data with
      | Some u => if String.eqb u "" then [] else [u]
      | None => []
      end
  end.

(** A JavaScript number that is a count. *)
Definition num (n : nat) : Q := inject_Z (Z.of_nat n).

(** Truthiness of a frame that is a string or [null]. *)
Definition frameTruthy (frame : option string) : bool :=
  match frame with
  | Some f => negb (String.eqb f "")
  | None => false
  end.

(** [await unlink(videoPath)] *)
Definition unlinkFile (w : World) (videoPath : string) : M unit :=
  h ← history;
  emit (EvUnlink videoPath);;
  match unlink w h videoPath with
  | Some e => throw e
  | None => mret tt
  end.

(** The loop over uploaded files, from index [i] on; [acc] holds
    [allFrames] and [thumbnailFrame]. *)
Fixpoint filesLoop (w : World) (totalVideos i : nat) (files : list string)
  (acc : list string * option string) : M (list string * option string) :=
  match files with
  | [] => mret acc
  | videoPath :: rest =>
      '(frames, firstFrame) ← extractFrames w videoPath;
      progress (25 + num (i + 1) * 25 / num totalVideos);;
      unlinkFile w videoPath;;
      let thumbnailFrame :=
        if (i =? 0)%nat && frameTruthy firstFrame then firstFrame else acc.2 in
      filesLoop w totalVideos (i + 1) rest (acc.1 ++ frames, thumbnailFrame)
  end.

(** The loop over URL videos, from index [i] on. *)
Fixpoint urlsLoop (w : World) (src : string) (totalVideos filesLength i : nat)
  (urls : list string) (acc : list string * option string)
  : M (list string * option string) :=
  match urls with
  | [] => mret acc
  | url :: rest =>
      let videoIndex := (filesLength + i + 1)%nat in
      videoPath ← downloadVideo w url src;
      progress (10 + num videoIndex * 15 / num totalVideos);;
      '(frames, firstFrame) ← extractFrames w videoPath;
      progress (25 + num videoIndex * 25 / num totalVideos);;
      unlinkFile w videoPath;;
      let thumbnailFrame :=
        if (filesLength =? 0)%nat && (i =? 0)%nat && frameTruthy firstFrame
        then firstFrame else acc.2 in
      urlsLoop w src totalVideos filesLength (i + 1) rest
        (acc.1 ++ frames, thumbnailFrame)
  end.

(** [(source === 'TikTok' && thumbnailFrame) ? thumbnailFrame : displayUrl] *)
Definition finalDisplayUrl (src : string) (thumbnailFrame : option string)
  (display : JsValue) : JsValue :=
  if String.eqb src "TikTok" && frameTruthy thumbnailFrame
  then match thumbnailFrame with Some f => JStr f | None => JNull end
  else display.

Definition enhancedSuffix : string :=
  Str.newline ++ Str.newline ++ "[Enhanced with video frame analysis]".

(** The object literal passed to [updateWorkout] on completion. *)
Definition completedUpdates (workoutData display : JsValue)
  : gmap string JsValue :=
  list_to_map
    [ ("exercises", Js.get workoutData "exercises");
      ("name", Js.get workoutData "name");
      ("duration", Js.get workoutData "duration");
      ("difficulty", Js.get workoutData "difficulty");
      ("notes", JStr (Js.toString (Js.get workoutData "notes") ++ enhancedSuffix));
      ("displayUrl", display);
      ("status", JStr "completed") ].

(** Evaluating that literal converts the notes to a string, and throws
    when they have none. *)
Definition completedUpdatesOf (workoutData display : JsValue)
  : M (gmap string JsValue) :=
  stringOf (Js.get workoutData "notes");;
  mret (completedUpdates workoutData display).

(** The hourglass is U+23F3, here in UTF-8. *)
Definition rateLimitNote : string :=
  "⏳ Hit API rate limit. Please wait 1-2 minutes and check back.".

Definition rateLimitUpdates : gmap string JsValue :=
  list_to_map [ ("status", JStr "processing"); ("notes", JStr rateLimitNote) ].

Definition failedUpdates (error : Error) : gmap string JsValue :=
  list_to_map
    [ ("status", JStr "failed"); ("processingError", JStr (message error)) ].

(** [error.message.includes('429')] *)
Definition isRateLimitError (error : Error) : bool :=
  Str.includes "429" (message error).

(** The first part of the [try]: the two loops, which pool the frames of
    every video and pick the thumbnail. *)
Definition acquireFrames (w : World) (data : JobData)
  : M (list string * option string) :=
  let files := jobFiles data in
  let urls := jobUrls data in
  let totalVideos := (List.length files + List.length urls)%nat in
  acc ← filesLoop w totalVideos 0 files ([], None);
  urlsLoop w (source data) totalVideos (List.length files) 0 urls acc.

(** The rest of the [try], from the check on [allFrames] on. *)
Definition processFrames (w : World) (data : JobData)
  (allFrames : list string) (thumbnailFrame : option string) : M JobResult :=
  if (List.length allFrames =? 0)%nat
  then throw (newError "No frames extracted from any video")
  else
    extractedText ← extractTextFromFrames w allFrames (openAIKey data);
    progress 75;;
    if (String.length extractedText =? 0)%nat
    then throw (newError "No text extracted from video frames")
    else
      workoutData ←
        parseWorkoutWithAI w (caption data) extractedText (openAIKey data);
      progress 90;;
      updates ←
        completedUpdatesOf workoutData
          (finalDisplayUrl (source data) thumbnailFrame (displayUrl data));
      updateWorkout w (workoutId data) updates;;
      progress 100;;
      sendWorkoutProcessingNotification (userId data)
        (Js.or (Js.get workoutData "name") (JStr "Your workout")) true;;
      mret (JobSucceeded (workoutId data)
              (Js.length (Js.get workoutData "exercises"))).

(** The body of the [try]. *)
Definition pipeline (w : World) (data : JobData) : M JobResult :=
  '(allFrames, thumbnailFrame) ← acquireFrames w data;
  processFrames w data allFrames thumbnailFrame.

(** The [catch] clause. *)
Definition onError (w : World) (data : JobData) (error : Error) : M JobResult :=
  if isRateLimitError error then
    updateWorkout w (workoutId data) rateLimitUpdates;;
    mret (JobSoftFailed "Rate limit - no auto retry")
  else
    updateWorkout w (workoutId data) (failedUpdates error);;
    sendWorkoutProcessingNotification (userId data) (JStr "Workout") false;;
    throw error.

Definition processVideoJob (w : World) (data : JobData) : M JobResult :=
  progress 10;;
  tryCatch (pipeline w data) (onError w data).

(** ** The earlier, single-video processor

    It shares [extractFrames] and [updateWorkout] with the processor above,
    word for word, and differs in the stages below. *)

Module Legacy.

Definition userAgent : string :=
  "Mozilla/5.0 (iPhone; CPU iPhone OS 16_0 like Mac OS X) AppleWebKit/605.1.15".

Definition downloadHeaders (videoUrl : string) : list (string * string) :=
  let isTikTok := Str.includes "tiktok.com" videoUrl in
  let headers := [ ("User-Agent", userAgent) ] in
  if isTikTok then
    headers ++
    [ ("Referer", "https://www.tiktok.com/");
      ("Origin", "https://www.tiktok.com");
      ("Accept", "video/mp4,video/*,*/*");
      ("Range", "bytes=0-") ]
  else headers.

Definition downloadVideo (w : World) (videoUrl source : string) : M string :=
  downloadWith downloadHeaders w videoUrl.

(** Same loop; a non-success answer is skipped without a warning. *)
Definition extractTextFromFrames : World -> list string -> string -> M string :=
  extractTextWith "high".

Definition parseWorkoutWithAI (w : World)
  (caption extractedText openAIKey : string) : M JsValue :=
  let combinedText := synthPrompt caption extractedText in
  h ← history;
  emit (EvSynthesize ("Bearer " ++ openAIKey) combinedText);;
  match languageModel w h combinedText with
  | SynthRejects e => throw e
  | SynthStatus status _ _ =>
      throw (newError ("OpenAI API error: " ++ Str.ofN status))
  | SynthMalformed e => throw e
  | SynthContent content => parseContent w content
  end.

(** The first part of the [try]: download, extraction, clean-up. *)
Definition acquireFrames (w : World) (data : JobData)
  : M (list string * option string) :=
  videoPath ←
    match videoUrl data with
    | Some url => downloadVideo w url (source data)
    | None =>
        throw (mkError "TypeError"
                 "Cannot read properties of undefined (reading 'includes')")
    end;
  progress 25;;
  '(frames, firstFrame) ← extractFrames w videoPath;
  progress 50;;
  unlinkFile w videoPath;;
  mret (frames, firstFrame).

(** The rest of the [try], from the check on [frames] on. *)
Definition processFrames (w : World) (data : JobData)
  (frames : list string) (firstFrame : option string) : M JobResult :=
  if (List.length frames =? 0)%nat
  then throw (newError "No frames extracted from video")
  else
    extractedText ← extractTextFromFrames w frames (openAIKey data);
    progress 75;;
    if (String.length extractedText =? 0)%nat
    then throw (newError "No text extracted from video frames")
    else
      workoutData ←
        parseWorkoutWithAI w (caption data) extractedText (openAIKey data);
      progress 90;;
      updates ←
        completedUpdatesOf workoutData
          (finalDisplayUrl (source data) firstFrame (displayUrl data));
      updateWorkout w (workoutId data) updates;;
      progress 100;;
      mret (JobSucceeded (workoutId data)
              (Js.length (Js.get workoutData "exercises"))).

Definition pipeline (w : World) (data : JobData) : M JobResult :=
  '(frames, firstFrame) ← acquireFrames w data;
  processFrames w data frames firstFrame.

Definition onError (w : World) (data : JobData) (error : Error) : M JobResult :=
  if isRateLimitError error then
    throw (newError "RATE_LIMIT: OpenAI API rate limit exceeded")
  else
    updateWorkout w (workoutId data) (failedUpdates error);;
    throw error.

Definition processVideoJob (w : World) (data : JobData) : M JobResult :=
  progress 10;;
  tryCatch (pipeline w data) (onError w data).

End Legacy.

(** ** The two processors side by side *)

Inductive Variant : Type := Current | Earlier.

Definition downloadOf (v : Variant) : World -> string -> string -> M string :=
  match v with
  | Current => downloadVideo
  | Earlier => Legacy.downloadVideo
  end.

Definition headersOf (v : Variant) : string -> list (string * string) :=
  match v with
  | Current => downloadHeaders
  | Earlier => Legacy.downloadHeaders
  end.

Definition acquireOf (v : Variant)
  : World -> JobData -> M (list string * option string) :=
  match v with
  | Current => acquireFrames
  | Earlier => Legacy.acquireFrames
  end.

Definition processorOf (v : Variant) : World -> JobData -> M JobResult :=
  match v with
  | Current => processVideoJob
  | Earlier => Legacy.processVideoJob
  end.

(** ** Vocabulary of the properties *)

(** [appends P m]: from any state, [m] extends the trace, and only by
    events that satisfy [P]. *)
Definition appends {A : Type} (P : Event -> Prop) (m : M A) : Prop :=
  ∀ s, ∃ evs, trace (m s).1 = trace s ++ evs ∧ Forall P evs.

(** The state in which the [try] is entered: [job.progress(10)] is done. *)
Definition entered (s : State) : State := (progress 10 s).1.

(** The progress reports of a trace, in order. *)
Definition progressOf (tr : list Event) : list Q :=
  omap (fun ev => match ev with EvProgress p => Some p | _ => None end) tr.

(** The updates sent to the store, in order. *)
Definition updatesOf (tr : list Event) : list (string * gmap string JsValue) :=
  omap (fun ev => match ev with
                  | EvUpdate id updateData => Some (id, updateData)
                  | _ => None
                  end) tr.

Definition nonDecreasing (l : list Q) : Prop :=
  ∀ i p q, l !! i = Some p -> l !! S i = Some q -> (p <= q)%Q.

Definition isSynthesize (ev : Event) : Prop :=
  match ev with EvSynthesize _ _ => True | _ => False end.

Definition isFailureNotice (ev : Event) : Prop :=
  match ev with EvNotify _ _ false => True | _ => False end.

Definition isUpdate (ev : Event) : Prop :=
  match ev with EvUpdate _ _ => True | _ => False end.

Definition isFetch (ev : Event) : Prop :=
  match ev with EvFetchVideo _ _ _ => True | _ => False end.

(** The events of the acquisition stage. *)
Definition acquisitionEvent (ev : Event) : Prop :=
  match ev with
  | EvProgress _ | EvFetchVideo _ _ _ | EvWriteFile _ | EvUnlink _
  | EvExtract _ => True
  | _ => False
  end.

(** The update the handler sends for an error: the rate-limit note, or the
    failure with its detail (a detail that is the empty string is falsy
    and is not sent). *)
Definition rateLimitUpdate : gmap string JsValue :=
  {[ "status" := JStr "processing"; "notes" := JStr rateLimitNote ]}.

Definition failedUpdate (detail : string) : gmap string JsValue :=
  if String.eqb detail ""
  then {[ "status" := JStr "failed" ]}
  else {[ "status" := JStr "failed"; "processing_error" := JStr detail ]}.

Definition handlerUpdate (e : Error) : gmap string JsValue :=
  if isRateLimitError e then rateLimitUpdate else failedUpdate (message e).

(** A column of the stored workout. *)
Definition stored (s : State) (id column : string) : option JsValue :=
  store s !! id ≫= (fun row => row !! column).

(** The handler read without the store's own failures: for a workout that
    is in the store, an error carrying the marker leaves status
    'processing', no failure notice and a returned value; any other error
    leaves status 'failed' with the message as detail and is rethrown. *)
Definition errorHandlingAsStated : Prop :=
  ∀ w data s s1 e,
    is_Some (store s !! workoutId data) ->
    pipeline w data (entered s) = (s1, Throw e) ->
    let out := processVideoJob w data s in
    if isRateLimitError e
    then stored out.1 (workoutId data) "status" = Some (JStr "processing")
         ∧ (∀ ev, ev ∈ trace out.1 -> isFailureNotice ev -> ev ∈ trace s)
         ∧ ∃ r, out.2 = Ok r
    else stored out.1 (workoutId data) "status" = Some (JStr "failed")
         ∧ stored out.1 (workoutId data) "processing_error"
           = Some (JStr (message e))
         ∧ out.2 = Throw e.

(** The display image read without the filter of [updateWorkout]: a
    completed job whose source is not 'TikTok' sends the caller's display
    URL, whatever it is. *)
Definition displayUrlKeptAsStated : Prop :=
  ∀ w data s s' id n,
    processVideoJob w data s = (s', Ok (JobSucceeded id n)) ->
    source data ≠ "TikTok" ->
    ∃ updateData,
      last (updatesOf (trace s')) = Some (id, updateData)
      ∧ updateData !! "display_url" = Some (displayUrl data).

(** Both processors' second half, over the stages in which they differ:
    the detail asked of the vision model, the synthesizer, and what is
    done after the last progress report. *)
Definition processFramesWith (detail : string)
  (parse : World -> string -> string -> string -> M JsValue)
  (finish : JobData -> JsValue -> M unit) (noFrames : string)
  (w : World) (data : JobData)
  (allFrames : list string) (thumbnailFrame : option string) : M JobResult :=
  if (List.length allFrames =? 0)%nat
  then throw (newError noFrames)
  else
    extractedText ← extractTextWith detail w allFrames (openAIKey data);
    progress 75;;
    if (String.length extractedText =? 0)%nat
    then throw (newError "No text extracted from video frames")
    else
      workoutData ← parse w (caption data) extractedText (openAIKey data);
      progress 90;;
      updates ←
        completedUpdatesOf workoutData
          (finalDisplayUrl (source data) thumbnailFrame (displayUrl data));
      updateWorkout w (workoutId data) updates;;
      progress 100;;
      finish data workoutData;;
      mret (JobSucceeded (workoutId data)
              (Js.length (Js.get workoutData "exercises"))).

Definition processFramesOf (v : Variant)
  : World -> JobData -> list string -> option string -> M JobResult :=
  match v with
  | Current => processFrames
  | Earlier => Legacy.processFrames
  end.

(** The pool of frames starts with the thumbnail, which is truthy. *)
Definition headedByThumbnail (acc : list string * option string) : Prop :=
  ∃ thumb rest,
    acc = (thumb :: rest, Some thumb) ∧ frameTruthy (Some thumb) = true.

(** The entries at [i], [i + 3], [i + 6], ... in at most [fuel] steps. *)
Fixpoint strideFrom {A : Type} (l : list A) (fuel i : nat) : list A :=
  match fuel with
  | O => []
  | S fuel' =>
      match l !! i with
      | Some x => x :: strideFrom l fuel' (i + 3)
      | None => []
      end
  end.

(** The data URI of an entry of the archive. *)
Definition entryUri (z : gmap string (list Byte.byte)) (name : string) : string :=
  dataUri (Base64.encode (default [] (z !! name))).

(** The text that one answer of the vision model contributes. *)
Definition frameYield (reply : VisionReply) : option string :=
  match reply with
  | VisionContent content =>
      match Js.or content (JStr "") with
      | JStr text =>
          if (0 <? String.length (Str.trim text))%nat
          then Some (Str.trim text) else None
      | _ => None
      end
  | _ => None
  end.

(** An answer that is a failure (rejected request, non-success status,
    unreadable body, content that is not text) or whitespace only. *)
Definition fruitless (reply : VisionReply) : Prop :=
  match reply with
  | VisionContent content =>
      match Js.or content (JStr "") with
      | JStr text => Str.allSpace text = true
      | _ => True
      end
  | _ => True
  end.

Definition visionEvent (detail openAIKey frame : string) : Event :=
  EvVision ("Bearer " ++ openAIKey) (visionRequest detail frame).

(** The answers of the vision model to [frames] in one pass of the
    extractor, the first request being made after the events [tr]. *)
Fixpoint answers (detail : string) (w : World) (openAIKey : string)
  (frames : list string) (tr : list Event) : list VisionReply :=
  match frames with
  | [] => []
  | frame :: rest =>
      visionModel w tr (visionRequest detail frame)
      :: answers detail w openAIKey rest
           (tr ++ [visionEvent detail openAIKey frame])
  end.

(** The texts collected from [frames], the first request being made after
    the events [tr]. *)
Fixpoint collected (detail : string) (w : World) (openAIKey : string)
  (frames : list string) (tr : list Event) : list string :=
  match frames with
  | [] => []
  | frame :: rest =>
      option_list (frameYield (visionModel w tr (visionRequest detail frame)))
      ++ collected detail w openAIKey rest
           (tr ++ [visionEvent detail openAIKey frame])
  end.

(** The state in which the processor asks for the synthesis, when the
    acquisition ended in [s1] with [frames]: every frame was shown to the
    vision model and 75 was reported. *)
Definition askedAt (s1 : State) (openAIKey : string) (frames : list string)
  : State :=
  mkState (trace s1 ++ (visionEvent "low" openAIKey <$> frames)
           ++ [EvProgress 75])
    (store s1) (clock s1).

(** The text handed to the synthesizer. *)
Definition extractedTextOf (w : World) (openAIKey : string)
  (frames : list string) (s1 : State) : string :=
  Str.join (Str.newline ++ Str.newline)
    (collected "low" w openAIKey frames (trace s1)).

(** When the download host answers, or gives up by itself. *)
Definition responseTime (reply : FetchReply) : N :=
  match reply with
  | FetchRejects ms _ => ms
  | FetchResponds ms _ _ _ => ms
  end.

(** The download stage read as a cap on the whole download: whenever more
    than the 30 seconds have passed when [download] settles, it has failed
    with the timeout error. *)
Definition capsWholeDownload
  (download : World -> string -> string -> M string) : Prop :=
  ∀ w url src s,
    (abortAfterMs < clock (download w url src s).1 - clock s)%N ->
    (download w url src s).2 = Throw (newError "Video download timeout").

(** The content holds an opening brace with a closing brace after it. *)
Definition hasSpan (content : string) : Prop :=
  ∃ pre mid post : string,
    content = (pre ++ String openBrace mid ++ String closeBrace post)%string.

(** No occurrence of the code unit [c]. *)
Fixpoint lacks (c : ascii) (s : string) : Prop :=
  match s with
  | EmptyString => True
  | String c' rest => c' ≠ c ∧ lacks c rest
  end.

(** The three failures of the synthesizer, by their messages. *)
Inductive SynthesisFailure : Error -> Prop :=
| SynthesisCallFailed (status : N) (msg : string) :
    SynthesisFailure
      (newError ("OpenAI API error: " ++ Str.ofN status ++ " - " ++ msg))
| SynthesisParseFailed :
    SynthesisFailure
      (newError "Failed to parse workout data from AI response")
| InvalidWorkoutShape :
    SynthesisFailure (newError "Invalid workout structure from AI").

(** The synthesizer's failures read as always permanent: none of them, when
    [parseWorkoutWithAI] raises it, is classified as a rate limit. *)
Definition synthesisFailuresPermanent : Prop :=
  ∀ w caption extractedText openAIKey s s' e,
    parseWorkoutWithAI w caption extractedText openAIKey s = (s', Throw e) ->
    SynthesisFailure e -> isRateLimitError e = false.

(** ** Scenarios

    Concrete collaborators and jobs on which the properties below are
    exercised. *)

Module Scenario.

Definition startedAt : N := 1700000000000.

(** A world given by its download host, extraction service, vision model,
    language model, JSON parser and store; the file system never fails. *)
Definition world (fetch : list Event -> string -> FetchReply)
  (extract : list Event -> string -> ExtractReply)
  (vision : list Event -> VisionRequest -> VisionReply)
  (synth : list Event -> string -> SynthReply)
  (parse : string -> Res (list (string * JsValue)))
  (db : list Event -> string -> gmap string JsValue -> option string) : World :=
  mkWorld fetch (fun _ => startedAt) (fun _ _ => None) (fun _ _ => None)
    extract vision synth parse db.

(** Seven one-second frames and a text file; the names arrive unordered. *)
Definition sevenFrames : gmap string (list Byte.byte) :=
  list_to_map
    [ ("frame_004.png", ["d"%byte]); ("frame_001.png", ["M"%byte; "a"%byte; "n"%byte]);
      ("frame_007.png", ["g"%byte]); ("frame_002.png", ["b"%byte]);
      ("notes.txt", ["x"%byte]); ("frame_003.png", ["c"%byte]);
      ("frame_006.png", ["f"%byte]); ("frame_005.png", ["e"%byte]) ].

(** The workout of the specification's completed-job scenario. *)
Definition legDayText : string :=
  "{'name':'Leg Day','exercises':[{'name':'Squat','reps':'10','sets':'3','notes':''}],'duration':'30 min','difficulty':'Intermediate','notes':'great session'}".

Definition legDayProps : list (string * JsValue) :=
  [ ("name", JStr "Leg Day");
    ("exercises",
     JArr [ JObj [ ("name", JStr "Squat"); ("reps", JStr "10");
                   ("sets", JStr "3"); ("notes", JStr "") ] ]);
    ("duration", JStr "30 min");
    ("difficulty", JStr "Intermediate");
    ("notes", JStr "great session") ].

Definition legDay : JsValue := JObj legDayProps.

(** A parser that knows the one text above (written with single quotes
    where the model writes double quotes). *)
Definition parseLegDay (text : string) : Res (list (string * JsValue)) :=
  if String.eqb text legDayText then Ok legDayProps
  else Throw (mkError "SyntaxError" "Unexpected token in JSON").

Definition fetchOk : list Event -> string -> FetchReply :=
  fun _ _ => FetchResponds 1000 true 200 (BodyArrives 2000).
Definition extractSeven : list Event -> string -> ExtractReply :=
  fun _ _ => ExtractArchive sevenFrames.
Definition visionSquat : list Event -> VisionRequest -> VisionReply :=
  fun _ _ => VisionContent (JStr "  Squat 3 x 10 ").
Definition synthLegDay : list Event -> string -> SynthReply :=
  fun _ _ => SynthContent (JStr ("Here you go: " ++ legDayText ++ " enjoy")).
(** The response arrives after one second, its body after a minute more. *)
Definition fetchSlowBody : list Event -> string -> FetchReply :=
  fun _ _ => FetchResponds 1000 true 200 (BodyArrives 60000).
Definition fetchNever : list Event -> string -> FetchReply :=
  fun _ _ => FetchResponds 45000 true 200 (BodyArrives 10).
Definition fetchForbidden : list Event -> string -> FetchReply :=
  fun _ _ => FetchResponds 300 false 403 (BodyArrives 10).
(** The language model is rate limited. *)
Definition synthRateLimited : list Event -> string -> SynthReply :=
  fun _ _ =>
    SynthStatus 429 "Too Many Requests"
      (Some (JObj [ ("error",
                     JObj [ ("message",
                             JStr "Rate limit reached for gpt-4o-mini") ]) ])).
(** The language model is rate limited and answers with the body [null]. *)
Definition synthNullBody : list Event -> string -> SynthReply :=
  fun _ _ => SynthStatus 429 "Too Many Requests" (Some JNull).
(** The extraction service is throttled. *)
Definition extractThrottled : list Event -> string -> ExtractReply :=
  fun _ _ => ExtractStatus 429 "Too Many Requests".
(** A no-break space (U+00A0) and a line separator (U+2028), in UTF-8. *)
Definition noBreakSpace : string :=
  String (ascii_of_nat 194) (String (ascii_of_nat 160) "").
Definition lineSeparator : string :=
  String (ascii_of_nat 226) (String (ascii_of_nat 128)
    (String (ascii_of_nat 168) "")).
Definition blanks : string :=
  " " ++ noBreakSpace ++ Str.newline ++ lineSeparator ++ " ".
(** The vision model sees nothing: a refusal, blanks, or a failed call,
    depending on the frame. *)
Definition visionBlind : list Event -> VisionRequest -> VisionReply :=
  fun h request =>
    if String.eqb (vr_url request) "data:image/png;base64,TWFu"
    then VisionStatus 500
    else if String.eqb (vr_url request) "data:image/png;base64,ZA=="
    then VisionContent (JStr blanks)
    else VisionRejects (mkError "FetchError" "socket hang up").
Definition dbOk : list Event -> string -> gmap string JsValue -> option string :=
  fun _ _ _ => None.
Definition dbDown : list Event -> string -> gmap string JsValue -> option string :=
  fun _ _ _ => Some "connection refused".

(** Every collaborator answers well. *)
Definition happy : World :=
  world fetchOk extractSeven visionSquat synthLegDay parseLegDay dbOk.

Definition slowBody : World :=
  world fetchSlowBody extractSeven visionSquat synthLegDay parseLegDay dbOk.
Definition unresponsive : World :=
  world fetchNever extractSeven visionSquat synthLegDay parseLegDay dbOk.
Definition forbidden : World :=
  world fetchForbidden extractSeven visionSquat synthLegDay parseLegDay dbOk.

Definition rateLimited : World :=
  world fetchOk extractSeven visionSquat synthRateLimited parseLegDay dbOk.
Definition nullBody : World :=
  world fetchOk extractSeven visionSquat synthNullBody parseLegDay dbOk.

Definition throttled : World :=
  world fetchOk extractThrottled visionSquat synthLegDay parseLegDay dbOk.
Definition throttledStoreDown : World :=
  world fetchOk extractThrottled visionSquat synthLegDay parseLegDay dbDown.
Definition blind : World :=
  world fetchOk extractSeven visionBlind synthLegDay parseLegDay dbOk.

(** One stored workout, waiting for its result. *)
Definition initial : State :=
  mkState []
    {[ "w1" := {[ "status" := JStr "processing"; "name" := JStr "Untitled";
                  "display_url" := JStr "https://cdn.example/old.jpg" ]} ]}
    0.

Definition job (urls : option (list string)) (files : option (list string))
  (src : string) (display : JsValue) : JobData :=
  mkJobData "w1" None urls files "u1" "Leg day!" src display "sk-test".

(** An update without a status, with an empty name and no exercises. *)
Definition sparseUpdates : gmap string JsValue :=
  {[ "name" := JStr ""; "exercises" := JArr []; "notes" := JStr "rest day" ]}.

Definition oneUpload : JobData :=
  job None (Some ["/tmp/uploads/a"]) "TikTok" (JStr "https://cdn.example/cover.jpg").

(** A job from another platform, with an empty display URL. *)
Definition noCover : JobData :=
  job (Some ["https://cdn.example/1.mp4"]) None "Instagram" (JStr "").

Definition twoUrls : JobData :=
  job (Some ["https://cdn.example/1.mp4"; "https://cdn.example/2.mp4"]) None
    "Instagram" (JStr "https://cdn.example/cover.jpg").

End Scenario.

(** ** Vocabulary of the further properties *)

(** [lo <= p1 <= p2 <= ... <= pn <= hi] *)
Fixpoint climbs (lo : Q) (ps : list Q) (hi : Q) : Prop :=
  match ps with
  | [] => (lo <= hi)%Q
  | p :: rest => (lo <= p)%Q ∧ climbs p rest hi
  end.

(** What a run shows, event by event. *)
Definition pickProgress (ev : Event) : option Q :=
  match ev with EvProgress p => Some p | _ => None end.

Definition pickFetch (ev : Event) : option string :=
  match ev with EvFetchVideo url _ _ => Some url | _ => None end.

Definition pickWrite (ev : Event) : option string :=
  match ev with EvWriteFile path => Some path | _ => None end.

Definition pickExtract (ev : Event) : option string :=
  match ev with EvExtract path => Some path | _ => None end.

Definition pickUnlink (ev : Event) : option string :=
  match ev with EvUnlink path => Some path | _ => None end.

Definition pickNotice (ev : Event) : option (string * JsValue * bool) :=
  match ev with
  | EvNotify user workoutName success => Some (user, workoutName, success)
  | _ => None
  end.

(** [follows pick l m]: what [m] adds to the trace shows, under [pick],
    the first items of [l], and all of [l] when [m] ends well. *)
Definition follows {A X : Type} (pick : Event -> option X) (l : list X)
  (m : M A) : Prop :=
  ∀ s, ∃ evs, trace (m s).1 = trace s ++ evs
              ∧ omap pick evs `prefix_of` l
              ∧ (∀ a, (m s).2 = Ok a -> omap pick evs = l).

(** The report after the frames of video number [v] of [total]. *)
Definition extractedMark (total v : nat) : Q :=
  (25 + num v * 25 / num total)%Q.

(** The report after the download of video number [v] of [total]. *)
Definition downloadedMark (total v : nat) : Q :=
  (10 + num v * 15 / num total)%Q.

(** The reports of a job that runs to its end: the start, one report per
    uploaded file, two per URL video, and the three of the second half. *)
Definition schedule (data : JobData) : list Q :=
  let files := List.length (jobFiles data) in
  let urls := List.length (jobUrls data) in
  let total := (files + urls)%nat in
  (10 : Q)
  :: (extractedMark total <$> seq 1 files)
  ++ List.flat_map (fun v => [downloadedMark total v; extractedMark total v])
       (seq (files + 1) urls)
  ++ [75; 90; 100]%Q.

(** The URLs requested, the files the downloads asked to write, the videos
    sent to the extraction service and the files asked to be deleted, each
    in order. *)
Definition fetchesOf (tr : list Event) : list string := omap pickFetch tr.
Definition writesOf (tr : list Event) : list string := omap pickWrite tr.
Definition extractsOf (tr : list Event) : list string := omap pickExtract tr.
Definition unlinksOf (tr : list Event) : list string := omap pickUnlink tr.

(** The notifications sent, in order. *)
Definition noticesOf (tr : list Event) : list (string * JsValue * bool) :=
  omap pickNotice tr.

(** [keepsStore m]: [m] leaves the store as it finds it. *)
Definition keepsStore {A : Type} (m : M A) : Prop :=
  ∀ s, store (m s).1 = store s.

(** The videos of a run so far, as the collaborators saw them: the URLs
    requested are the first ones of the job, in order; the videos sent to
    the extraction service are the uploaded files and then the downloaded
    ones, in order; the files asked to be deleted are the first ones of
    those, all of them or all but the last. *)
Definition inOrder (files urls : list string) (evs : list Event) : Prop :=
  fetchesOf evs `prefix_of` urls
  ∧ extractsOf evs `prefix_of` files ++ writesOf evs
  ∧ unlinksOf evs `prefix_of` extractsOf evs
  ∧ (List.length (extractsOf evs) <= S (List.length (unlinksOf evs)))%nat.

(** Every video was acquired: each URL requested, a file written for each,
    every uploaded and every written file sent to the extraction service
    and asked to be deleted. *)
Definition allDone (files urls : list string) (evs : list Event) : Prop :=
  fetchesOf evs = urls
  ∧ List.length (writesOf evs) = List.length urls
  ∧ extractsOf evs = files ++ writesOf evs
  ∧ unlinksOf evs = extractsOf evs.

(** An event that is no request for a video, no file written, no
    extraction and no deletion. *)
Definition besideVideos (ev : Event) : Prop :=
  pickFetch ev = None ∧ pickWrite ev = None
  ∧ pickExtract ev = None ∧ pickUnlink ev = None.

(** The requests for a synthesis and the updates sent to the store. *)
Definition pickSynthesize (ev : Event) : option string :=
  match ev with EvSynthesize _ prompt => Some prompt | _ => None end.

Definition pickUpdate (ev : Event) : option (string * gmap string JsValue) :=
  match ev with
  | EvUpdate id updateData => Some (id, updateData)
  | _ => None
  end.

Definition synthesesOf (tr : list Event) : list string := omap pickSynthesize tr.

(** The run of the job from [s] has asked the synthesizer and got
    [workoutData]: the acquisition pooled frames and picked
    [thumbnailFrame], the text of the frames was not empty, and
    [parseWorkoutWithAI], called right after the report 75, returned
    [workoutData], leaving the state [s3]. *)
Definition synthesized (w : World) (data : JobData) (s : State)
  (thumbnailFrame : option string) (workoutData : JsValue) (s3 : State) : Prop :=
  ∃ s1 frames,
    acquireFrames w data (entered s) = (s1, Ok (frames, thumbnailFrame))
    ∧ frames ≠ []
    ∧ extractedTextOf w (openAIKey data) frames s1 ≠ ""
    ∧ parseWorkoutWithAI w (caption data)
        (extractedTextOf w (openAIKey data) frames s1) (openAIKey data)
        (askedAt s1 (openAIKey data) frames)
      = (s3, Ok workoutData).

(** [atMost pick n m]: what [m] adds to the trace shows, under [pick], at
    most [n] items. *)
Definition atMost {A X : Type} (pick : Event -> option X) (n : nat)
  (m : M A) : Prop :=
  ∀ s, ∃ evs, trace (m s).1 = trace s ++ evs
              ∧ (List.length (omap pick evs) <= n)%nat.

(** ** The notifier

    [sendPushNotification], [getUserPushToken] and
    [sendWorkoutProcessingNotification], over the push service and the
    user table.  The three resolve to a value in every case: each wraps
    its calls in a handler of its own. *)

Module Push.

(** The message handed to the push service. *)
Record Message : Type := mkMessage {
  msg_to : JsValue;
  msg_sound : string;
  msg_title : string;
  msg_body : string;
  msg_data : JsValue
}.

(** A push ticket; only its status is read for control flow. *)
Record Ticket : Type := mkTicket {
  ticket_status : string;
  ticket_message : JsValue
}.

(** [{ title, body, data }] *)
Record Notification : Type := mkNotification {
  title : string;
  body : string;
  data : JsValue
}.

Inductive Event : Type :=
| EvLookup (userId : string)
| EvSend (chunk : list Message).

(** The user table: the query rejects, or resolves to [{ data, error }]. *)
Inductive LookupReply : Type :=
| LookupRejects (e : Error)
| LookupAnswers (data error : JsValue).

(** The user table and the push library.  [isExpoPushToken] and
    [chunkPushNotifications] are functions of their argument;
    [sendPushNotificationsAsync] resolves to tickets or rejects. *)
Record Services : Type := mkServices {
  lookup : list Event -> string -> LookupReply;
  isExpoPushToken : JsValue -> bool;
  chunkPushNotifications : list Message -> Res (list (list Message));
  sendPushNotificationsAsync : list Event -> list Message -> Res (list Ticket)
}.

(** The loop over the chunks: a chunk whose send rejects is logged and
    passed over. *)
Fixpoint sendChunks (sv : Services) (chunks : list (list Message))
  (tickets : list Ticket) (tr : list Event) : list Event * list Ticket :=
  match chunks with
  | [] => (tr, tickets)
  | chunk :: rest =>
      match sendPushNotificationsAsync sv tr chunk with
      | Ok ticketChunk =>
          sendChunks sv rest (tickets ++ ticketChunk) (tr ++ [EvSend chunk])
      | Throw _ => sendChunks sv rest tickets (tr ++ [EvSend chunk])
      end
  end.

(** [ticket.status === 'error'] *)
Definition isError (ticket : Ticket) : bool :=
  String.eqb (ticket_status ticket) "error".

Definition sendPushNotification (sv : Services) (pushToken : JsValue)
  (notification : Notification) (tr : list Event) : list Event * bool :=
  if negb (isExpoPushToken sv pushToken) then (tr, false)
  else
    let message :=
      mkMessage pushToken "default" (title notification) (body notification)
        (Js.or (data notification) (JObj [])) in
    match chunkPushNotifications sv [message] with
    | Throw _ => (tr, false)
    | Ok chunks =>
        let '(tr', tickets) := sendChunks sv chunks [] tr in
        if existsb isError tickets then (tr', false) else (tr', true)
    end.

(** [data?.push_token] *)
Definition pushTokenOf (data : JsValue) : JsValue :=
  match data with
  | JUndefined | JNull => JUndefined
  | _ => Js.get data "push_token"
  end.

Definition getUserPushToken (sv : Services) (userId : string)
  (tr : list Event) : list Event * JsValue :=
  match lookup sv tr userId with
  | LookupRejects _ => (tr ++ [EvLookup userId], JNull)
  | LookupAnswers data error =>
      if Js.truthy error then (tr ++ [EvLookup userId], JNull)
      else (tr ++ [EvLookup userId], Js.or (pushTokenOf data) JNull)
  end.

(** The check mark is U+2705 and the cross U+274C, here in UTF-8. *)
Definition readyNotification (workoutName : JsValue) : Notification :=
  mkNotification "✅ Workout Ready!"
    (Js.toString workoutName ++ " has been processed and is ready to view.")
    (JObj [ ("type", JStr "workout_processed"); ("workoutName", workoutName);
            ("success", JBool true) ]).

Definition failedNotification (workoutName : JsValue) : Notification :=
  mkNotification "❌ Processing Failed"
    ("Unable to process " ++ Js.toString workoutName
     ++ ". You can still view it manually.")
    (JObj [ ("type", JStr "workout_processed"); ("workoutName", workoutName);
            ("success", JBool false) ]).

Definition sendWorkoutProcessingNotification (sv : Services) (userId : string)
  (workoutName : JsValue) (success : bool) (tr : list Event)
  : list Event * bool :=
  let '(tr1, pushToken) := getUserPushToken sv userId tr in
  if negb (Js.truthy pushToken) then (tr1, false)
  else
    let notification :=
      if success then readyNotification workoutName
      else failedNotification workoutName in
    sendPushNotification sv pushToken notification tr1.




End Push.

(** A user with a token on file and a push service that refuses every
    chunk. *)
Module PushScenario.

Definition isExpoPushToken (v : JsValue) : bool :=
  match v with
  | JStr s => String.prefix "ExponentPushToken[" s && Str.endsWith "]" s
  | _ => false
  end.


End PushScenario.

(** ** The submission routes

    The handlers of [POST /api/process-video] and
    [POST /api/process-video-upload], and the handler of
    [POST /api/process-video] of the earlier server.  A request body is an
    object, given by its properties; the uploaded files are what the
    upload middleware leaves in [req.files].  What a handler asks of the
    queue is recorded, in order, in a log of payloads. *)

Module Server.

(** [res.status(code).json(json)]; the code is 200 when none is set. *)
Record Response : Type := mkResponse {
  code : N;
  json : list (string * JsValue)
}.

(** The payload of a job: the object literal given to [videoQueue.add]. *)
Definition Payload : Type := list (string * JsValue).

(** [videoQueue.add] resolves to a job, of which the handlers read the
    id, or rejects. *)
Definition Queue : Type := list Payload -> Payload -> Res JsValue.

(** An entry of [req.files]. *)
Record UploadedFile : Type := mkUploadedFile { path : string }.

(** [v.length === 0], for a value that is neither [null] nor
    [undefined]. *)
Definition lengthIsZero (v : JsValue) : bool :=
  match v with
  | JArr items => (List.length items =? 0)%nat
  | JStr s => (String.length s =? 0)%nat
  | JObj props =>
      match Js.assoc "length" props with
      | JNum rendering => String.eqb rendering "0"
      | _ => false
      end
  | _ => false
  end.

Definition started (jobId : JsValue) : Response :=
  mkResponse 200
    [ ("success", JBool true); ("jobId", jobId);
      ("message", JStr "Video processing started") ].

Definition notSubmitted (error : Error) : Response :=
  mkResponse 500
    [ ("error", JStr "Failed to submit video processing job");
      ("message", JStr (message error)) ].

(** [const job = await videoQueue.add(payload); res.json(...)] inside the
    handler's [try]. *)
Definition enqueue (queue : Queue) (payload : Payload) (log : list Payload)
  : list Payload * Response :=
  match queue log payload with
  | Ok jobId => (log ++ [payload], started jobId)
  | Throw error => (log ++ [payload], notSubmitted error)
  end.

(** [POST /api/process-video] *)
Definition postProcessVideo (queue : Queue) (openAIKey : JsValue)
  (body : list (string * JsValue)) (log : list Payload)
  : list Payload * Response :=
  let workoutId := Js.assoc "workoutId" body in
  let videoUrl := Js.assoc "videoUrl" body in
  let videoUrls := Js.assoc "videoUrls" body in
  let userId := Js.assoc "userId" body in
  let caption := Js.assoc "caption" body in
  let source := Js.assoc "source" body in
  let displayUrl := Js.assoc "displayUrl" body in
  let urls :=
    Js.or videoUrls (if Js.truthy videoUrl then JArr [videoUrl] else JArr []) in
  if negb (Js.truthy workoutId) || lengthIsZero urls || negb (Js.truthy userId)
  then
    (log,
     mkResponse 400
       [ ("error",
          JStr "Missing required fields: workoutId, videoUrl(s), userId") ])
  else
    enqueue queue
      [ ("workoutId", workoutId); ("videoUrls", urls); ("userId", userId);
        ("caption", caption); ("source", source); ("displayUrl", displayUrl);
        ("openAIKey", openAIKey) ]
      log.

(** [POST /api/process-video-upload] *)
Definition postProcessVideoUpload (queue : Queue) (openAIKey : JsValue)
  (body : list (string * JsValue)) (files : option (list UploadedFile))
  (log : list Payload) : list Payload * Response :=
  let workoutId := Js.assoc "workoutId" body in
  let userId := Js.assoc "userId" body in
  let caption := Js.assoc "caption" body in
  let source := Js.assoc "source" body in
  let displayUrl := Js.assoc "displayUrl" body in
  match files with
  | Some uploadedFiles =>
      if negb (Js.truthy workoutId) || (List.length uploadedFiles =? 0)%nat
         || negb (Js.truthy userId)
      then
        (log,
         mkResponse 400
           [ ("error",
              JStr "Missing required fields: workoutId, video file(s), userId") ])
      else
        let videoPaths := List.map path uploadedFiles in
        enqueue queue
          [ ("workoutId", workoutId);
            ("videoFiles", JArr (List.map JStr videoPaths));
            ("userId", userId); ("caption", caption); ("source", source);
            ("displayUrl", displayUrl); ("openAIKey", openAIKey) ]
          log
  | None =>
      (log,
       mkResponse 400
         [ ("error",
            JStr "Missing required fields: workoutId, video file(s), userId") ])
  end.

(** [POST /api/process-video] of the earlier server *)
Definition earlierPostProcessVideo (queue : Queue) (openAIKey : JsValue)
  (body : list (string * JsValue)) (log : list Payload)
  : list Payload * Response :=
  let workoutId := Js.assoc "workoutId" body in
  let videoUrl := Js.assoc "videoUrl" body in
  let userId := Js.assoc "userId" body in
  let caption := Js.assoc "caption" body in
  let source := Js.assoc "source" body in
  let displayUrl := Js.assoc "displayUrl" body in
  if negb (Js.truthy workoutId) || negb (Js.truthy videoUrl)
     || negb (Js.truthy userId)
  then
    (log,
     mkResponse 400
       [ ("error", JStr "Missing required fields: workoutId, videoUrl, userId") ])
  else
    enqueue queue
      [ ("workoutId", workoutId); ("videoUrl", videoUrl); ("userId", userId);
        ("caption", caption); ("source", source); ("displayUrl", displayUrl);
        ("openAIKey", openAIKey) ]
      log.

(** *** From a payload to the job the processor reads

    The processor destructures [job.data].  For a payload whose fields
    have the types the clients send (strings, arrays of strings), this is
    the [JobData] it works on; a field that is absent is [undefined]. *)

Definition asString (v : JsValue) : option string :=
  match v with JStr s => Some s | _ => None end.

Definition asStrings (v : JsValue) : option (list string) :=
  match v with JArr items => mapM asString items | _ => None end.

Definition optional {A : Type} (read : JsValue -> option A) (v : JsValue)
  : option (option A) :=
  match v with
  | JUndefined => Some None
  | _ => Some <$> read v
  end.

Definition jobOf (payload : Payload) : option JobData :=
  workoutId ← asString (Js.assoc "workoutId" payload);
  videoUrl ← optional asString (Js.assoc "videoUrl" payload);
  videoUrls ← optional asStrings (Js.assoc "videoUrls" payload);
  videoFiles ← optional asStrings (Js.assoc "videoFiles" payload);
  userId ← asString (Js.assoc "userId" payload);
  caption ← asString (Js.assoc "caption" payload);
  source ← asString (Js.assoc "source" payload);
  openAIKey ← asString (Js.assoc "openAIKey" payload);
  Some (mkJobData workoutId videoUrl videoUrls videoFiles userId caption source
          (Js.assoc "displayUrl" payload) openAIKey).

End Server.

Module ServerScenario.

(** A queue that numbers its jobs. *)
Definition counting : Server.Queue :=
  fun log _ => Ok (JNum (Str.ofN (N.of_nat (S (List.length log))))).

Definition uploadBody : list (string * JsValue) :=
  [ ("workoutId", JStr "w1"); ("userId", JStr "u1");
    ("caption", JStr "Leg day!"); ("source", JStr "TikTok");
    ("displayUrl", JStr "https://cdn.example/cover.jpg") ].

Definition oneFile : option (list Server.UploadedFile) :=
  Some [ Server.mkUploadedFile "/tmp/uploads/a" ].

Definition twoUrlsBody : list (string * JsValue) :=
  [ ("workoutId", JStr "w1"); ("userId", JStr "u1");
    ("videoUrls",
     JArr [ JStr "https://cdn.example/1.mp4"; JStr "https://cdn.example/2.mp4" ]);
    ("caption", JStr "Leg day!"); ("source", JStr "Instagram");
    ("displayUrl", JStr "https://cdn.example/cover.jpg") ].

Definition oneUrlBody : list (string * JsValue) :=
  [ ("workoutId", JStr "w1"); ("userId", JStr "u1");
    ("videoUrl", JStr "https://cdn.example/1.mp4");
    ("caption", JStr "Leg day!"); ("source", JStr "Instagram");
    ("displayUrl", JStr "https://cdn.example/cover.jpg") ].

Definition oneUrlJob : JobData :=
  mkJobData "w1" (Some "https://cdn.example/1.mp4") None None "u1" "Leg day!"
    "Instagram" (JStr "https://cdn.example/cover.jpg") "sk-test".

End ServerScenario.

(** * Properties *)

(** ** The helpers on small inputs *)

Example includes_marker :
  Str.includes "429" "OpenAI API error: 429 - slow down" = true
  ∧ Str.includes "429" "No text extracted from video frames" = false
  ∧ Str.includes "429" "Failed to download video: 429" = true.
Proof. repeat split. Qed.

Example endsWith_png :
  Str.endsWith ".png" "frame_001.png" = true
  ∧ Str.endsWith ".png" "frame_001.PNG" = false
  ∧ Str.endsWith ".png" "png" = false
  ∧ Str.endsWith ".png" "frames.png/" = false.
Proof. repeat split. Qed.

Example trim_text :
  Str.trim ("  Squat 3 x 10 " ++ Str.newline) = "Squat 3 x 10"
  ∧ Str.trim (" " ++ Str.newline ++ "  ") = ""
  ∧ Str.trim (Scenario.noBreakSpace ++ "Plank 60 s" ++ Scenario.lineSeparator)
    = "Plank 60 s"
  ∧ Str.trim Scenario.blanks = "".
Proof. repeat split. Qed.

Example base64_vectors :
  Base64.encode ["M"%byte; "a"%byte; "n"%byte] = "TWFu"
  ∧ Base64.encode ["M"%byte; "a"%byte] = "TWE="
  ∧ Base64.encode ["M"%byte] = "TQ=="
  ∧ Base64.encode [] = "".
Proof. repeat split. Qed.

Example matchBraces_greedy :
  matchBraces "Sure: {a} and {b} done" = Some "{a} and {b}"
  ∧ matchBraces "} no object {" = None
  ∧ matchBraces "plain text" = None.
Proof. repeat split. Qed.

Example toString_values :
  Js.toString (JArr [JNum "1"; JNull; JArr [JNum "2"; JNum "-3"]]) = "1,,2,-3"
  ∧ Js.toString (JNum "1e+21") = "1e+21"
  ∧ Js.toString JUndefined = "undefined"
  ∧ Js.toString (JObj []) = "[object Object]".
Proof. repeat split. Qed.

Example truthy_values :
  Js.truthy (JStr "") = false ∧ Js.truthy (JArr []) = true
  ∧ Js.truthy (JNum "0") = false ∧ Js.truthy (JNum "NaN") = false
  ∧ Js.truthy (JNum "0.5") = true ∧ Js.truthy (JObj []) = true.
Proof. repeat split. Qed.

Example renders_values :
  Js.renders (JObj [("message", JStr "x")]) = true
  ∧ Js.renders (JObj [("toString", JNum "1")]) = false
  ∧ Js.renders (JArr [JNull; JArr [JObj [("toString", JNull)]]]) = false
  ∧ Js.renders (JObj [("valueOf", JNum "1")]) = true.
Proof. repeat split. Qed.

(** U+1F600, written with surrogates in UTF-16, sorts before U+FF5E, and
    after U+00E9. *)
Example nameLe_beyond_the_basic_plane :
  let grinning := String (ascii_of_nat 240) (String (ascii_of_nat 159)
                    (String (ascii_of_nat 152) (String (ascii_of_nat 128) ""))) in
  let tilde := String (ascii_of_nat 239) (String (ascii_of_nat 189)
                 (String (ascii_of_nat 158) "")) in
  let acute := String (ascii_of_nat 195) (String (ascii_of_nat 169) "") in
  nameLe grinning tilde ∧ ¬ nameLe tilde grinning
  ∧ nameLe acute grinning ∧ ¬ nameLe grinning acute
  ∧ nameLe "frame_001.png" "frame_002.png".
Proof. cbv zeta. repeat split; vm_compute; congruence. Qed.

Example job_videos :
  jobUrls (Scenario.job None None "x" JNull) = []
  ∧ jobUrls (mkJobData "w" (Some "u") None None "u1" "" "x" JNull "k") = ["u"]
  ∧ jobUrls (mkJobData "w" (Some "u") (Some ["a"; "b"]) None "u1" "" "x" JNull "k")
    = ["a"; "b"]
  ∧ jobFiles (Scenario.job None (Some []) "x" JNull) = [].
Proof. repeat split. Qed.

(** The completed-job scenario: one uploaded video, every stage answering
    well. *)
Example completed_scenario :
  let out := processVideoJob Scenario.happy Scenario.oneUpload Scenario.initial in
  out.2 = Ok (JobSucceeded "w1" 1)
  ∧ stored out.1 "w1" "status" = Some (JStr "completed")
  ∧ stored out.1 "w1" "name" = Some (JStr "Leg Day")
  ∧ stored out.1 "w1" "notes"
    = Some (JStr ("great session" ++ Str.newline ++ Str.newline
                  ++ "[Enhanced with video frame analysis]"))
  ∧ progressOf (trace out.1) = [10; 50 # 1; 75; 90; 100]%Q
  ∧ last (trace out.1) = Some (EvNotify "u1" (JStr "Leg Day") true).
Proof. vm_compute. repeat split. Qed.

(** ** Running the monad *)

Ltac run :=
  unfold processVideoJob, onError, sendWorkoutProcessingNotification,
    updateWorkout, unlinkFile, progress, tryCatch, throw, emit, history,
    modifyStore, wait, mbind, M_bind, mret, M_ret in *;
  simpl in *.

Lemma bind_run {A B : Type} (m : M A) (f : A -> M B) (s : State) :
  (m ≫= f) s =
  match m s with
  | (s', Ok a) => f a s'
  | (s', Throw e) => (s', Throw e)
  end.
Proof. reflexivity. Qed.

Lemma bind_ok {A B : Type} (m : M A) (f : A -> M B) s s' a :
  m s = (s', Ok a) -> (m ≫= f) s = f a s'.
Proof. intros H. rewrite bind_run, H. reflexivity. Qed.

Lemma bind_throw {A B : Type} (m : M A) (f : A -> M B) s s' e :
  m s = (s', Throw e) -> (m ≫= f) s = (s', Throw e).
Proof. intros H. rewrite bind_run, H. reflexivity. Qed.

(** A computation that ends well after a bind went through both halves. *)
Lemma bind_inv_ok {A B : Type} (m : M A) (f : A -> M B) s s2 b :
  (m ≫= f) s = (s2, Ok b) ->
  ∃ s1 a, m s = (s1, Ok a) ∧ f a s1 = (s2, Ok b).
Proof.
  rewrite bind_run. destruct (m s) as [s1 [a|e]]; intros H.
  - exists s1, a. split; [reflexivity | exact H].
  - discriminate.
Qed.

Lemma bind_inv_throw {A B : Type} (m : M A) (f : A -> M B) s s2 e :
  (m ≫= f) s = (s2, Throw e) ->
  m s = (s2, Throw e) ∨ ∃ s1 a, m s = (s1, Ok a) ∧ f a s1 = (s2, Throw e).
Proof.
  rewrite bind_run. destruct (m s) as [s1 [a|e']]; intros H.
  - right. exists s1, a. split; [reflexivity | exact H].
  - left. by inversion H.
Qed.

(** ** What a computation adds to the trace *)

Section Appends.

Context (P : Event -> Prop).

Lemma appends_ret {A : Type} (a : A) : appends P (mret a).
Proof. intros s. exists []. split; [symmetry; apply app_nil_r | constructor]. Qed.

Lemma appends_throw {A : Type} e : appends P (@throw A e).
Proof. intros s. exists []. split; [symmetry; apply app_nil_r | constructor]. Qed.

Lemma appends_history : appends P history.
Proof. intros s. exists []. split; [symmetry; apply app_nil_r | constructor]. Qed.

Lemma appends_wait ms : appends P (wait ms).
Proof. intros s. exists []. split; [symmetry; apply app_nil_r | constructor]. Qed.

Lemma appends_modifyStore f : appends P (modifyStore f).
Proof. intros s. exists []. split; [symmetry; apply app_nil_r | constructor]. Qed.

Lemma appends_emit ev : P ev -> appends P (emit ev).
Proof. intros H s. exists [ev]. split; [reflexivity | by constructor]. Qed.

(** Sequencing: what the two halves append is appended, in order. *)
Lemma appends_seq {A B : Type} (m : M A) (f : A -> M B) s :
  (∃ evs, trace (m s).1 = trace s ++ evs ∧ Forall P evs) ->
  (∀ s1 a, m s = (s1, Ok a) ->
     ∃ evs, trace (f a s1).1 = trace s1 ++ evs ∧ Forall P evs) ->
  ∃ evs, trace ((m ≫= f) s).1 = trace s ++ evs ∧ Forall P evs.
Proof.
  intros (evs & Ht & Hp) Hf. rewrite bind_run.
  destruct (m s) as [s1 [a|e]]; simpl in *.
  - destruct (Hf s1 a eq_refl) as (evs' & Ht' & Hp').
    exists (evs ++ evs'). split.
    + rewrite Ht', Ht. symmetry. apply app_assoc.
    + apply Forall_app; auto.
  - exists evs. auto.
Qed.

Lemma appends_bind {A B : Type} (m : M A) (f : A -> M B) :
  appends P m -> (∀ a, appends P (f a)) -> appends P (m ≫= f).
Proof.
  intros Hm Hf s. apply appends_seq; [apply Hm|].
  intros s1 a _. apply Hf.
Qed.

Lemma appends_tryCatch {A : Type} (body : M A) (handler : Error -> M A) :
  appends P body -> (∀ e, appends P (handler e)) ->
  appends P (tryCatch body handler).
Proof.
  intros Hm Hf s. unfold tryCatch.
  destruct (Hm s) as (evs & Ht & Hp).
  destruct (body s) as [s1 [a|e]]; simpl in *.
  - exists evs. auto.
  - destruct (Hf e s1) as (evs' & Ht' & Hp').
    exists (evs ++ evs'). split.
    + rewrite Ht', Ht. symmetry. apply app_assoc.
    + apply Forall_app; auto.
Qed.

Lemma appends_run {A : Type} (m : M A) s s' r :
  appends P m -> m s = (s', r) ->
  ∃ evs, trace s' = trace s ++ evs ∧ Forall P evs.
Proof. intros Hm Hrun. specialize (Hm s). by rewrite Hrun in Hm. Qed.

End Appends.

Lemma appends_weaken {A : Type} (P Q : Event -> Prop) (m : M A) :
  (∀ ev, P ev -> Q ev) -> appends P m -> appends Q m.
Proof.
  intros HPQ Hm s. destruct (Hm s) as (evs & Ht & Hp).
  exists evs. split; [exact Ht|]. eapply Forall_impl; eauto.
Qed.

Create HintDb appends.

#[global] Hint Resolve appends_ret appends_throw appends_history appends_wait
  appends_modifyStore : appends.

(** ** [updateWorkout] *)

Lemma lookup_copyIfTruthy updates from to (m : gmap string JsValue) k :
  copyIfTruthy updates from to m !! k =
  if decide (to = k)
  then (if Js.truthy (field updates from)
        then Some (field updates from) else m !! k)
  else m !! k.
Proof.
  unfold copyIfTruthy.
  destruct (Js.truthy (field updates from)); case_decide; subst;
    simplify_map_eq; done.
Qed.

Lemma buildUpdateData_status updates :
  buildUpdateData updates !! "status" = Some (field updates "status").
Proof.
  unfold buildUpdateData. rewrite !lookup_copyIfTruthy.
  repeat (case_decide; [discriminate|]). apply lookup_singleton_eq.
Qed.

Lemma buildUpdateData_copied updates from to :
  (from, to) ∈ copiedFields ->
  buildUpdateData updates !! to =
  if Js.truthy (field updates from) then Some (field updates from) else None.
Proof.
  unfold copiedFields. rewrite !elem_of_cons, elem_of_nil.
  intros H. unfold buildUpdateData. rewrite !lookup_copyIfTruthy.
  destruct H as [H|[H|[H|[H|[H|[H|[H|[]]]]]]]]; inversion H; subst; clear H;
    repeat (case_decide; try discriminate; try congruence);
    destruct (Js.truthy _); try reflexivity.
Qed.

Lemma buildUpdateData_keys updates k :
  buildUpdateData updates !! k ≠ None ->
  k = "status" ∨ ∃ from, (from, k) ∈ copiedFields.
Proof.
  unfold buildUpdateData. rewrite !lookup_copyIfTruthy.
  unfold copiedFields.
  repeat (case_decide;
          [subst; intros _; right; eexists; rewrite !elem_of_cons;
           repeat (first [left; reflexivity | right]) |]).
  intros Hk. left.
  destruct (decide (k = "status")) as [->|Hne]; [done|].
  rewrite lookup_singleton_ne in Hk by congruence. done.
Qed.

Lemma applyUpdate_absent updateData row k :
  updateData !! k = None -> applyUpdate updateData row !! k = row !! k.
Proof.
  intros H. unfold applyUpdate.
  rewrite lookup_union_r; [done|]. by rewrite lookup_omap, H.
Qed.

Lemma applyUpdate_written updateData row k v :
  updateData !! k = Some v -> v ≠ JUndefined ->
  applyUpdate updateData row !! k = Some v.
Proof.
  intros H Hv. unfold applyUpdate.
  apply lookup_union_Some_l. rewrite lookup_omap, H. simpl.
  destruct v; try reflexivity. congruence.
Qed.


Lemma updateWorkout_run w workoutId updates s :
  updateWorkout w workoutId updates s =
  let updateData := buildUpdateData updates in
  let s1 := mkState (trace s ++ [EvUpdate workoutId updateData]) (store s) (clock s) in
  match supabaseUpdate w (trace s) workoutId updateData with
  | Some msg => (s1, Throw (newError ("Supabase error: " ++ msg)))
  | None =>
      (mkState (trace s1) (alter (applyUpdate updateData) workoutId (store s))
         (clock s), Ok tt)
  end.
Proof.
  unfold updateWorkout. run.
  destruct (supabaseUpdate w (trace s) workoutId (buildUpdateData updates));
    reflexivity.
Qed.

Lemma updateWorkout_appends P w workoutId updates :
  P (EvUpdate workoutId (buildUpdateData updates)) ->
  appends P (updateWorkout w workoutId updates).
Proof.
  intros H s. rewrite updateWorkout_run. simpl.
  exists [EvUpdate workoutId (buildUpdateData updates)].
  split; [|by constructor].
  destruct (supabaseUpdate _ _ _ _); reflexivity.
Qed.

(** C10.  Whatever [updates] holds, the update sent to the store carries
    the key [status] with the supplied value (the value [undefined] when
    none was supplied); each of exercises, name, duration, difficulty,
    notes, displayUrl and processingError is carried, under its column
    name, exactly when its value is truthy, and no other key is sent.  So
    an empty-string name, duration, difficulty or notes is dropped and an
    accepted update leaves that column of the stored row as it was, while
    an empty exercises array is sent and stored. *)
Theorem updateWorkout_sends_status_and_truthy_fields
  (w : World) (id : string) (updates : gmap string JsValue) (s : State) :
  let updateData := buildUpdateData updates in
  let s' := (updateWorkout w id updates s).1 in
  trace s' = trace s ++ [EvUpdate id updateData]
  ∧ updateData !! "status" = Some (field updates "status")
  ∧ (updates !! "status" = None -> updateData !! "status" = Some JUndefined)
  ∧ (∀ from to, (from, to) ∈ copiedFields ->
       updateData !! to =
       if Js.truthy (field updates from) then Some (field updates from) else None)
  ∧ (∀ k, is_Some (updateData !! k) ->
       k = "status" ∨ ∃ from, (from, k) ∈ copiedFields)
  ∧ (∀ k, k ∈ ["name"; "duration"; "difficulty"; "notes"] ->
       field updates k = JStr "" ->
       updateData !! k = None
       ∧ (supabaseUpdate w (trace s) id updateData = None ->
          ∀ row, store s !! id = Some row ->
          ∃ row', store s' !! id = Some row' ∧ row' !! k = row !! k))
  ∧ (field updates "exercises" = JArr [] ->
       updateData !! "exercises" = Some (JArr [])
       ∧ (supabaseUpdate w (trace s) id updateData = None ->
          ∀ row, store s !! id = Some row ->
          ∃ row', store s' !! id = Some row'
                  ∧ row' !! "exercises" = Some (JArr []))).
Proof.
  intros updateData s'.
  assert (Hstore : supabaseUpdate w (trace s) id updateData = None ->
            ∀ row, store s !! id = Some row ->
            store s' !! id = Some (applyUpdate updateData row)).
  { intros Hacc row Hrow. subst s'. rewrite updateWorkout_run. simpl.
    fold updateData. rewrite Hacc. simpl.
    rewrite lookup_alter_eq, Hrow. reflexivity. }
  repeat split.
  - subst s'. rewrite updateWorkout_run. simpl.
    destruct (supabaseUpdate _ _ _ _); reflexivity.
  - apply buildUpdateData_status.
  - intros Hnone. subst updateData. rewrite buildUpdateData_status.
    unfold field. rewrite Hnone. reflexivity.
  - intros from to. apply buildUpdateData_copied.
  - intros k [v Hv]. apply (buildUpdateData_keys updates). fold updateData.
    congruence.
  - assert (Hin : (k, k) ∈ copiedFields).
    { unfold copiedFields. rewrite !elem_of_cons in *.
      destruct H as [->|[->|[->|[->|H]]]]; [tauto..|]. by apply elem_of_nil in H. }
    subst updateData. rewrite (buildUpdateData_copied _ _ _ Hin), H0.
    reflexivity.
  - intros Hacc row Hrow. exists (applyUpdate updateData row).
    split; [by apply Hstore|]. apply applyUpdate_absent.
    assert (Hin : (k, k) ∈ copiedFields).
    { unfold copiedFields. rewrite !elem_of_cons in *.
      destruct H as [->|[->|[->|[->|H]]]]; [tauto..|]. by apply elem_of_nil in H. }
    subst updateData. rewrite (buildUpdateData_copied _ _ _ Hin), H0.
    reflexivity.
  - subst updateData.
    rewrite (buildUpdateData_copied updates "exercises" "exercises"), H.
    + reflexivity.
    + unfold copiedFields. rewrite !elem_of_cons. tauto.
  - intros Hacc row Hrow. exists (applyUpdate updateData row).
    split; [by apply Hstore|]. apply applyUpdate_written; [|discriminate].
    subst updateData.
    rewrite (buildUpdateData_copied updates "exercises" "exercises"), H.
    + reflexivity.
    + unfold copiedFields. rewrite !elem_of_cons. tauto.
Qed.

Lemma updateWorkout_sends_status_and_truthy_fields_witness :
  buildUpdateData Scenario.sparseUpdates !! "status" = Some JUndefined
  ∧ buildUpdateData Scenario.sparseUpdates !! "name" = None
  ∧ buildUpdateData Scenario.sparseUpdates !! "exercises" = Some (JArr [])
  ∧ stored (updateWorkout Scenario.happy "w1" Scenario.sparseUpdates
              Scenario.initial).1 "w1" "name"
    = Some (JStr "Untitled")
  ∧ stored (updateWorkout Scenario.happy "w1" Scenario.sparseUpdates
              Scenario.initial).1 "w1" "exercises"
    = Some (JArr []).
Proof.
  destruct (updateWorkout_sends_status_and_truthy_fields Scenario.happy "w1"
              Scenario.sparseUpdates Scenario.initial)
    as (_ & _ & Hstatus & _ & _ & Hdropped & Hexercises).
  split; [apply Hstatus; reflexivity|].
  destruct (Hdropped "name") as [Hname Hrow];
    [rewrite !elem_of_cons; tauto|reflexivity|].
  split; [exact Hname|].
  destruct Hexercises as [Hex Hrow']; [reflexivity|].
  split; [exact Hex|].
  destruct (Hrow eq_refl _ eq_refl) as (row1 & Hrow1 & Hkept).
  destruct (Hrow' eq_refl _ eq_refl) as (row2 & Hrow2 & Hwritten).
  unfold stored. split.
  - rewrite Hrow1. simpl. rewrite Hkept. reflexivity.
  - rewrite Hrow2. simpl. exact Hwritten.
Defined.

(** ** [extractFrames] *)

Lemma ascii_compare_N a b :
  Ascii.compare a b = N.compare (N_of_ascii a) (N_of_ascii b).
Proof. reflexivity. Qed.

Lemma string_compare_trans_le a : ∀ b c,
  String.compare a b ≠ Gt -> String.compare b c ≠ Gt -> String.compare a c ≠ Gt.
Proof.
  induction a as [|x a IH]; intros [|y b] [|z c]; simpl; try congruence.
  rewrite !ascii_compare_N.
  destruct (N.compare_spec (N_of_ascii x) (N_of_ascii y)) as [Hxy|Hxy|Hxy];
  destruct (N.compare_spec (N_of_ascii y) (N_of_ascii z)) as [Hyz|Hyz|Hyz];
  destruct (N.compare_spec (N_of_ascii x) (N_of_ascii z)) as [Hxz|Hxz|Hxz];
  try congruence; try lia; eauto.
Qed.

Lemma unitKey_inj a b : unitKey a = unitKey b -> a = b.
Proof.
  assert (∃ back, ∀ c, back (unitKey c) = c) as [back Hback].
  { exists (λ k, let n := nat_of_ascii k in
                 if (n =? 243)%nat then ascii_of_nat 238
                 else if (n =? 244)%nat then ascii_of_nat 239
                 else if ((238 <=? n) && (n <=? 242))%nat then ascii_of_nat (n + 2)
                 else k).
    intros [[] [] [] [] [] [] [] []]; reflexivity. }
  intros H. rewrite <- (Hback a), <- (Hback b). by rewrite H.
Qed.

Lemma sortKey_inj a : ∀ b, sortKey a = sortKey b -> a = b.
Proof.
  induction a as [|x a IH]; intros [|y b]; simpl; intros H;
    try discriminate H; [reflexivity|].
  injection H as Hxy Hab. f_equal; [by apply unitKey_inj | by apply IH].
Qed.

#[global] Instance nameLe_trans : Transitive nameLe.
Proof.
  intros a b c. unfold nameLe, String.leb.
  pose proof (string_compare_trans_le (sortKey a) (sortKey b) (sortKey c)).
  destruct (String.compare (sortKey a) (sortKey b)),
    (String.compare (sortKey b) (sortKey c)),
    (String.compare (sortKey a) (sortKey c));
    try congruence; intros; exfalso; apply H; congruence.
Qed.

#[global] Instance nameLe_total : Total nameLe.
Proof. intros a b. apply String.leb_total. Qed.

#[global] Instance nameLe_antisym : AntiSymm (=) nameLe.
Proof.
  intros a b Hab Hba. apply sortKey_inj. by apply String.leb_antisym.
Qed.

Lemma pngNames_sorted z : StronglySorted nameLe (pngNames z).
Proof. apply StronglySorted_merge_sort; apply _. Qed.

Lemma pngNames_elem z name :
  name ∈ pngNames z ↔ is_Some (z !! name) ∧ Str.endsWith ".png" name = true.
Proof.
  unfold pngNames. rewrite merge_sort_Permutation.
  rewrite list_elem_of_filter, list_elem_of_fmap.
  split.
  - intros [Hp [[k v] [-> Hin]]]. apply elem_of_map_to_list in Hin.
    split; [by eexists | by apply Is_true_true].
  - intros [[v Hv] Hp]. split; [by apply Is_true_true|].
    exists (name, v). split; [done|]. by apply elem_of_map_to_list.
Qed.

Lemma pngNames_NoDup z : NoDup (pngNames z).
Proof.
  unfold pngNames. rewrite merge_sort_Permutation.
  apply NoDup_filter, NoDup_fst_map_to_list.
Qed.

(** The list is determined by the archive: any duplicate-free listing of
    the qualifying names that is in order is this one, so the order in
    which the archive enumerates its entries plays no role. *)
Lemma pngNames_unique z (l : list string) :
  StronglySorted nameLe l -> NoDup l ->
  (∀ name, name ∈ l ↔ is_Some (z !! name) ∧ Str.endsWith ".png" name = true) ->
  l = pngNames z.
Proof.
  intros Hs Hn Hel. apply (StronglySorted_unique nameLe); auto.
  - apply pngNames_sorted.
  - apply NoDup_Permutation; auto using pngNames_NoDup.
    intros name. rewrite Hel, pngNames_elem. reflexivity.
Qed.

Lemma strideFrom_lookup {A : Type} (l : list A) fuel : ∀ i k,
  (k < fuel ∨ List.length l <= i + 3 * k)%nat ->
  strideFrom l fuel i !! k = l !! (i + 3 * k)%nat.
Proof.
  induction fuel as [|fuel IH]; intros i k Hk; simpl.
  - destruct Hk as [Hk|Hk]; [lia|].
    symmetry. by apply lookup_ge_None.
  - destruct (l !! i) as [x|] eqn:Hi.
    + destruct k as [|k]; simpl.
      * by rewrite Nat.add_0_r.
      * rewrite IH by lia. f_equal. lia.
    + apply lookup_ge_None in Hi. simpl. symmetry.
      apply lookup_ge_None. lia.
Qed.

Lemma readEntry_present z name s :
  is_Some (z !! name) ->
  readEntry z name s = (s, Ok (Base64.encode (default [] (z !! name)))).
Proof. intros [bytes H]. unfold readEntry. rewrite H. reflexivity. Qed.

Lemma sampleLoop_run z files fuel : ∀ i frames s,
  (∀ name, name ∈ files -> is_Some (z !! name)) ->
  sampleLoop z files fuel i frames s =
  (s, Ok (frames ++ (entryUri z <$> strideFrom files fuel i))).
Proof.
  induction fuel as [|fuel IH]; intros i frames s Hin; simpl.
  - by rewrite app_nil_r.
  - destruct (Nat.ltb_spec i (List.length files)) as [Hlt|Hge].
    + destruct (lookup_lt_is_Some_2 files i Hlt) as [name Hname].
      rewrite Hname. simpl.
      rewrite bind_run, readEntry_present
        by (apply Hin; eapply list_elem_of_lookup_2; eauto).
      rewrite IH by done. rewrite <- app_assoc. reflexivity.
    + rewrite (proj2 (lookup_ge_None files i)) by lia.
      simpl. by rewrite app_nil_r.
Qed.

Lemma extractFrames_run w videoPath s :
  extractFrames w videoPath s =
  let s1 := mkState (trace s ++ [EvExtract videoPath]) (store s) (clock s) in
  match extractService w (trace s) videoPath with
  | ExtractRejects e => (s1, Throw e)
  | ExtractStatus status errorText =>
      (s1, Throw (newError ("FFmpeg API error: " ++ Str.ofN status ++ " - "
                            ++ errorText)))
  | ExtractBadArchive e => (s1, Throw e)
  | ExtractArchive z =>
      match pngNames z with
      | [] => (s1, Throw (newError "No frames found in ZIP"))
      | first :: _ =>
          (s1, Ok (entryUri z <$>
                     strideFrom (pngNames z) (List.length (pngNames z)) 0,
                   Some (entryUri z first)))
      end
  end.
Proof.
  unfold extractFrames. run.
  destruct (extractService w (trace s) videoPath) as [e|st tx|e|z]; try reflexivity.
  destruct (pngNames z) as [|first rest] eqn:Hnames; [reflexivity|].
  cbn [List.length Nat.eqb Nat.ltb Nat.leb lookup list_lookup default].
  assert (Hin : ∀ name, name ∈ first :: rest -> is_Some (z !! name)).
  { intros name Hname. rewrite <- Hnames in Hname.
    by apply pngNames_elem in Hname as [? _]. }
  unfold readEntry at 1.
  destruct (Hin first) as [bytes Hb]; [by left|].
  unfold id. rewrite Hb. cbn [mret M_ret].
  pose proof (sampleLoop_run z (first :: rest) (S (List.length rest)) 0 []
                (mkState (trace s ++ [EvExtract videoPath]) (store s) (clock s)) Hin)
    as Hloop.
  cbn [List.length] in Hloop. unfold mbind, M_bind in Hloop |- *.
  rewrite Hloop. unfold entryUri. rewrite Hb. reflexivity.
Qed.

(** C5.  When the extraction service answers with an archive, the image
    entries considered are exactly the entries whose name ends in [.png],
    each once, in name order (the one such listing there is).  With none
    of them, [extractFrames] fails with 'No frames found in ZIP'.  With
    [n >= 1] of them it returns the frames at positions 0, 3, 6, ... of
    that order and nothing else (the [k]-th frame is the entry at position
    [3 * k], and there are as many frames as there are such positions
    below [n]), each the base64 of the entry's bytes behind
    'data:image/png;base64,'. *)
Theorem extractFrames_samples_every_third
  (w : World) (videoPath : string) (s : State) (z : gmap string (list Byte.byte)) :
  extractService w (trace s) videoPath = ExtractArchive z ->
  let names := pngNames z in
  let result := (extractFrames w videoPath s).2 in
  (StronglySorted nameLe names ∧ NoDup names
   ∧ (∀ name, name ∈ names ↔
        is_Some (z !! name) ∧ Str.endsWith ".png" name = true)
   ∧ ∀ l : list string,
       StronglySorted nameLe l -> NoDup l ->
       (∀ name, name ∈ l ↔
          is_Some (z !! name) ∧ Str.endsWith ".png" name = true) ->
       l = names)
  ∧ (names = [] -> result = Throw (newError "No frames found in ZIP"))
  ∧ (names ≠ [] ->
     ∃ frames firstFrame,
       result = Ok (frames, firstFrame)
       ∧ (∀ k name, names !! (3 * k)%nat = Some name ->
            ∃ bytes, z !! name = Some bytes
              ∧ frames !! k =
                Some ("data:image/png;base64," ++ Base64.encode bytes)%string)
       ∧ (∀ k, names !! (3 * k)%nat = None -> frames !! k = None)
       ∧ (List.length names <= 3 * List.length frames
          < List.length names + 3)%nat).
Proof.
  intros Hreply names result.
  split; [|split].
  - split; [apply pngNames_sorted|]. split; [apply pngNames_NoDup|].
    split; [apply pngNames_elem|]. apply pngNames_unique.
  - intros Hnil. subst result. rewrite extractFrames_run. simpl.
    rewrite Hreply. fold names. rewrite Hnil. reflexivity.
  - intros Hne. subst result names. rewrite extractFrames_run. cbv zeta.
    rewrite Hreply.
    destruct (pngNames z) as [|first rest] eqn:Hnames; [done|]. cbn [snd].
    set (names := first :: rest) in *.
    set (frames := entryUri z <$> strideFrom names (List.length names) 0).
    assert (Hlook : ∀ k, frames !! k = entryUri z <$> names !! (3 * k)%nat).
    { intros k. subst frames. rewrite list_lookup_fmap.
      rewrite strideFrom_lookup; [reflexivity|]. lia. }
    exists frames, (Some (entryUri z first)).
    split; [reflexivity|]. split; [|split].
    + intros k name Hk.
      assert (Hin : name ∈ pngNames z).
      { rewrite Hnames. eapply list_elem_of_lookup_2. exact Hk. }
      apply pngNames_elem in Hin as [[bytes Hb] _].
      exists bytes. split; [exact Hb|].
      rewrite Hlook, Hk. simpl. unfold entryUri, dataUri. rewrite Hb.
      reflexivity.
    + intros k Hk. rewrite Hlook, Hk. reflexivity.
    + pose proof (Hlook (List.length frames)) as Hend.
      rewrite (proj2 (lookup_ge_None frames _)) in Hend by lia.
      symmetry in Hend. apply fmap_None, lookup_ge_None in Hend.
      split; [exact Hend|].
      destruct (List.length frames) as [|m] eqn:Hlen.
      * subst names. simpl in *. lia.
      * pose proof (Hlook m) as Hlast.
        destruct (lookup_lt_is_Some_2 frames m) as [f Hf]; [lia|].
        rewrite Hf in Hlast. symmetry in Hlast.
        apply fmap_Some in Hlast as (name & Hname & _).
        apply lookup_lt_Some in Hname. lia.
Qed.

Lemma extractFrames_samples_every_third_witness :
  extractService Scenario.happy [] "/tmp/uploads/a"
    = ExtractArchive Scenario.sevenFrames
  ∧ pngNames Scenario.sevenFrames
    = [ "frame_001.png"; "frame_002.png"; "frame_003.png"; "frame_004.png";
        "frame_005.png"; "frame_006.png"; "frame_007.png" ]
  ∧ (extractFrames Scenario.happy "/tmp/uploads/a" Scenario.initial).2
    = Ok ([ "data:image/png;base64,TWFu"; "data:image/png;base64,ZA==";
            "data:image/png;base64,Zw==" ],
          Some "data:image/png;base64,TWFu")
  ∧ (List.length (pngNames Scenario.sevenFrames)
     <= 3 * 3 < List.length (pngNames Scenario.sevenFrames) + 3)%nat.
Proof.
  pose proof (extractFrames_samples_every_third Scenario.happy "/tmp/uploads/a"
                Scenario.initial Scenario.sevenFrames eq_refl) as H.
  cbv zeta in H. destruct H as (_ & _ & H).
  split; [reflexivity|]. split; [vm_compute; reflexivity|].
  split; [vm_compute; reflexivity|].
  destruct H as (frames & firstFrame & Hres & _ & _ & Hlen).
  { vm_compute. discriminate. }
  assert (frames = [ "data:image/png;base64,TWFu"; "data:image/png;base64,ZA==";
                     "data:image/png;base64,Zw==" ]) as ->.
  { assert ((extractFrames Scenario.happy "/tmp/uploads/a" Scenario.initial).2
            = Ok ([ "data:image/png;base64,TWFu"; "data:image/png;base64,ZA==";
                    "data:image/png;base64,Zw==" ],
                  Some "data:image/png;base64,TWFu")) as Hc
      by (vm_compute; reflexivity).
    rewrite Hc in Hres. by inversion Hres. }
  exact Hlen.
Defined.

(** C9.  Whenever [extractFrames] succeeds, the sampled frames are not
    empty and their first element is the thumbnail candidate [firstFrame]:
    both are the data URI of the first image of the archive in name
    order. *)
Theorem extractFrames_firstFrame_heads_frames
  (w : World) (videoPath : string) (s s' : State)
  (frames : list string) (firstFrame : option string) :
  extractFrames w videoPath s = (s', Ok (frames, firstFrame)) ->
  ∃ z first bytes rest,
    extractService w (trace s) videoPath = ExtractArchive z
    ∧ head (pngNames z) = Some first
    ∧ z !! first = Some bytes
    ∧ frames = dataUri (Base64.encode bytes) :: rest
    ∧ firstFrame = Some (dataUri (Base64.encode bytes)).
Proof.
  rewrite extractFrames_run. simpl.
  destruct (extractService w (trace s) videoPath) as [e|st tx|e|z];
    try discriminate.
  destruct (pngNames z) as [|first others] eqn:Hnames; [discriminate|].
  intros H. inversion H; subst; clear H.
  assert (Hin : first ∈ pngNames z) by (rewrite Hnames; by left).
  apply pngNames_elem in Hin as [[bytes Hb] _].
  exists z, first, bytes,
    (entryUri z <$> strideFrom (first :: others) (List.length others) 3).
  split; [reflexivity|]. split; [by rewrite Hnames|]. split; [exact Hb|].
  unfold entryUri. rewrite Hb. simpl. split; reflexivity.
Qed.

Lemma extractFrames_firstFrame_heads_frames_witness :
  ∃ s' frames firstFrame,
    extractFrames Scenario.happy "/tmp/uploads/a" Scenario.initial
      = (s', Ok (frames, firstFrame))
    ∧ head frames = firstFrame
    ∧ firstFrame = Some "data:image/png;base64,TWFu".
Proof.
  eexists _, _, _. split; [vm_compute; reflexivity|].
  destruct (extractFrames_firstFrame_heads_frames Scenario.happy
              "/tmp/uploads/a" Scenario.initial _ _ _ eq_refl)
    as (z & first & bytes & rest & _ & _ & _ & Hf & Hff).
  split; reflexivity.
Defined.

(** ** [extractTextFromFrames] *)

Lemma afterSpace_length s r :
  Str.afterSpace s = Some r -> (String.length r < String.length s)%nat.
Proof.
  destruct s as [|a [|b [|c s]]]; simpl; try discriminate;
    repeat (match goal with |- context [if ?x then _ else _] => destruct x end);
    intros [= <-]; simpl; lia.
Qed.

Lemma trimStart_eq s :
  Str.trimStart s =
  match Str.afterSpace s with Some r => Str.trimStart r | None => s end.
Proof.
  destruct s as [|a s]; [reflexivity|]. cbn [Str.trimStart Str.afterSpace].
  destruct (Str.isSpace a); [reflexivity|]. destruct s as [|b s]; [reflexivity|].
  destruct (Str.isSpace2 a b); [reflexivity|]. destruct s as [|c s]; [reflexivity|].
  by destruct (Str.isSpace3 a b c).
Qed.

Lemma allSpace_eq s :
  Str.allSpace s =
  match s with
  | EmptyString => true
  | _ => match Str.afterSpace s with Some r => Str.allSpace r | None => false end
  end.
Proof.
  destruct s as [|a s]; [reflexivity|]. cbn [Str.allSpace Str.afterSpace].
  destruct (Str.isSpace a); [reflexivity|]. destruct s as [|b s]; [reflexivity|].
  destruct (Str.isSpace2 a b); [reflexivity|]. destruct s as [|c s]; [reflexivity|].
  by destruct (Str.isSpace3 a b c).
Qed.

(** Induction on a text, space by space. *)
Lemma space_ind (P : string -> Prop) :
  (∀ s, (∀ r, Str.afterSpace s = Some r -> P r) -> P s) -> ∀ s, P s.
Proof.
  intros Hstep s.
  remember (String.length s) as n eqn:Hn.
  revert s Hn.
  induction n as [n IH] using lt_wf_ind. intros s ->.
  apply Hstep. intros r Hr. apply (IH (String.length r)); [|reflexivity].
  by apply afterSpace_length.
Qed.

Lemma afterSpace_app p w r :
  Str.afterSpace p = Some r -> Str.afterSpace (p ++ w)%string = Some (r ++ w)%string.
Proof.
  destruct p as [|a [|b [|c p]]]; simpl; try discriminate;
    repeat (match goal with |- context [if ?x then _ else _] => destruct x end);
    intros [= <-]; try reflexivity.
Qed.

Lemma trimEnd_allSpace s : Str.allSpace s = true -> Str.trimEnd s = "".
Proof. intros H. destruct s as [|c s]; [done|]. cbn [Str.trimEnd]. by rewrite H. Qed.

Lemma trimStart_allSpace s : Str.allSpace s = true -> Str.trimStart s = "".
Proof.
  induction s as [s IH] using space_ind. rewrite allSpace_eq, trimStart_eq.
  destruct s as [|c s]; [done|].
  destruct (Str.afterSpace (String c s)) as [r|]; [|discriminate]. by apply IH.
Qed.

Lemma trim_allSpace s : Str.allSpace s = true -> Str.trim s = "".
Proof. intros H. unfold Str.trim. by rewrite trimStart_allSpace. Qed.

Lemma trimEnd_empty s : Str.trimEnd s = "" -> Str.allSpace s = true.
Proof.
  destruct s as [|c s]; [done|]. cbn [Str.trimEnd].
  by destruct (Str.allSpace (String c s)).
Qed.

Lemma trimStart_stops s : Str.afterSpace (Str.trimStart s) = None.
Proof.
  induction s as [s IH] using space_ind. rewrite trimStart_eq.
  destruct (Str.afterSpace s) as [r|] eqn:Hr; [by apply IH|done].
Qed.

Lemma trimStart_stopped s : Str.afterSpace s = None -> Str.trimStart s = s.
Proof. intros H. by rewrite trimStart_eq, H. Qed.

Lemma allSpace_trimStart s : Str.allSpace (Str.trimStart s) = Str.allSpace s.
Proof.
  induction s as [s IH] using space_ind. rewrite trimStart_eq, (allSpace_eq s).
  destruct (Str.afterSpace s) as [r|] eqn:Hr.
  - rewrite (IH r eq_refl). by destruct s.
  - rewrite allSpace_eq, Hr. by destruct s.
Qed.

(** [trim] leaves nothing exactly when the text is white space only. *)
Lemma trim_empty_iff s : Str.trim s = "" ↔ Str.allSpace s = true.
Proof.
  split; [|apply trim_allSpace].
  unfold Str.trim. intros H%trimEnd_empty. by rewrite allSpace_trimStart in H.
Qed.

Lemma allSpace_app a w :
  Str.allSpace a = true -> Str.allSpace (a ++ w)%string = Str.allSpace w.
Proof.
  induction a as [a IH] using space_ind. intros Ha.
  destruct a as [|c a]; [reflexivity|].
  rewrite allSpace_eq in Ha.
  destruct (Str.afterSpace (String c a)) as [r|] eqn:Hr; [|discriminate].
  rewrite allSpace_eq, (afterSpace_app _ w _ Hr). simpl. by apply IH.
Qed.

(** What [trimEnd] cuts is made of spaces only. *)
Lemma trimEnd_split s :
  ∃ cut, s = (Str.trimEnd s ++ cut)%string ∧ Str.allSpace cut = true.
Proof.
  induction s as [|c s (cut & Hs & Hcut)]; [by exists ""|].
  cbn [Str.trimEnd]. destruct (Str.allSpace (String c s)) eqn:Hall.
  - by exists (String c s).
  - exists cut. split; [|done].
    change (String c s = String c (Str.trimEnd s ++ cut)%string). by rewrite <- Hs.
Qed.

Lemma trimEnd_idem s : Str.trimEnd (Str.trimEnd s) = Str.trimEnd s.
Proof.
  induction s as [|c s IH]; [reflexivity|].
  cbn [Str.trimEnd]. destruct (Str.allSpace (String c s)) eqn:Hall; [reflexivity|].
  cbn [Str.trimEnd]. rewrite IH.
  destruct (Str.allSpace (String c (Str.trimEnd s))) eqn:Hkept; [|reflexivity].
  destruct (trimEnd_split s) as (cut & Hs & Hcut).
  pose proof (allSpace_app _ cut Hkept) as Happ.
  change (String c (Str.trimEnd s) ++ cut)%string
    with (String c (Str.trimEnd s ++ cut)%string) in Happ.
  rewrite <- Hs, Hall, Hcut in Happ. discriminate.
Qed.

Lemma trimEnd_stopped s :
  Str.afterSpace s = None -> Str.afterSpace (Str.trimEnd s) = None.
Proof.
  intros Hs. destruct (Str.afterSpace (Str.trimEnd s)) as [r|] eqn:Hr; [|done].
  destruct (trimEnd_split s) as (cut & Hcut & _).
  apply (afterSpace_app _ cut) in Hr. rewrite <- Hcut, Hs in Hr. discriminate.
Qed.

(** Trimming what is trimmed changes nothing. *)
Lemma trim_idem s : Str.trim (Str.trim s) = Str.trim s.
Proof.
  unfold Str.trim.
  rewrite (trimStart_stopped (Str.trimEnd _))
    by apply trimEnd_stopped, trimStart_stops.
  apply trimEnd_idem.
Qed.

Lemma fruitless_yield reply : fruitless reply -> frameYield reply = None.
Proof.
  destruct reply as [e|st|e|content]; simpl; try done.
  destruct (Js.or content (JStr "")); try done.
  intros H. by rewrite trim_allSpace.
Qed.

(** One turn of the loop: the request is recorded, nothing is thrown, and
    the answer's yield, if any, is pushed. *)
Lemma textLoop_turn detail w openAIKey frame (allTexts : list string) s :
  tryCatch
    (text ← frameText detail w openAIKey frame;
     mret (match text with
           | Some t => allTexts ++ [t]
           | None => allTexts
           end))
    (fun _ => mret allTexts) s =
  (mkState (trace s ++ [visionEvent detail openAIKey frame]) (store s) (clock s),
   Ok (allTexts ++
       option_list (frameYield
                      (visionModel w (trace s) (visionRequest detail frame))))).
Proof.
  unfold frameText, visionEvent. run.
  destruct (visionModel w (trace s) (visionRequest detail frame))
    as [e|st|e|content]; simpl; rewrite ?app_nil_r; try reflexivity.
  destruct (Js.or content (JStr "")); simpl; rewrite ?app_nil_r;
    try reflexivity.
  destruct (0 <? String.length (Str.trim s0))%nat; simpl;
    rewrite ?app_nil_r; reflexivity.
Qed.

Lemma textLoop_run detail w openAIKey frames : ∀ allTexts s,
  textLoop detail w openAIKey frames allTexts s =
  (mkState (trace s ++ (visionEvent detail openAIKey <$> frames))
     (store s) (clock s),
   Ok (allTexts ++ collected detail w openAIKey frames (trace s))).
Proof.
  induction frames as [|frame rest IH]; intros allTexts s; simpl.
  - rewrite !app_nil_r. by destruct s.
  - rewrite bind_run, textLoop_turn, IH. simpl.
    rewrite <- !app_assoc. reflexivity.
Qed.

Lemma extractTextWith_run detail w frames openAIKey s :
  extractTextWith detail w frames openAIKey s =
  (mkState (trace s ++ (visionEvent detail openAIKey <$> frames))
     (store s) (clock s),
   Ok (Str.join (Str.newline ++ Str.newline)
         (collected detail w openAIKey frames (trace s)))).
Proof.
  unfold extractTextWith. rewrite bind_run, textLoop_run. reflexivity.
Qed.

(** Whatever the vision model answers, text extraction does not raise. *)
Lemma extractTextFromFrames_total w frames openAIKey s :
  ∃ text, (extractTextFromFrames w frames openAIKey s).2 = Ok text.
Proof.
  unfold extractTextFromFrames. rewrite extractTextWith_run. eauto.
Qed.

Lemma extractTextWith_appends P detail w frames openAIKey :
  (∀ frame, P (visionEvent detail openAIKey frame)) ->
  appends P (extractTextWith detail w frames openAIKey).
Proof.
  intros HP s. rewrite extractTextWith_run. simpl.
  eexists. split; [reflexivity|].
  apply Forall_fmap, Forall_forall. intros frame _. apply HP.
Qed.

(** C8, on the two extractors.  Text extraction sends one request per
    frame, in frame order, and nothing else.  In the processor that handles
    several videos every request asks for the image at detail 'low'; in the
    earlier single-video processor every request asks for detail 'high'. *)
Theorem earlier_extractor_requests_high_detail
  (w : World) (frames : list string) (openAIKey : string) (s : State) :
  trace (extractTextFromFrames w frames openAIKey s).1
  = trace s ++
    ((fun frame =>
        EvVision ("Bearer " ++ openAIKey)
          (mkVisionRequest "gpt-4o-mini" visionInstruction frame "low" 500))
     <$> frames)
  ∧ trace (Legacy.extractTextFromFrames w frames openAIKey s).1
  = trace s ++
    ((fun frame =>
        EvVision ("Bearer " ++ openAIKey)
          (mkVisionRequest "gpt-4o-mini" visionInstruction frame "high" 500))
     <$> frames).
Proof.
  unfold extractTextFromFrames, Legacy.extractTextFromFrames.
  rewrite !extractTextWith_run. split; reflexivity.
Qed.

(** The earlier extractor on one frame of the seven-frame archive. *)
Lemma earlier_extractor_one_frame :
  trace (Legacy.extractTextFromFrames Scenario.happy
           ["data:image/png;base64,TWFu"] "sk-test" Scenario.initial).1
  = [ EvVision "Bearer sk-test"
        (mkVisionRequest "gpt-4o-mini" visionInstruction
           "data:image/png;base64,TWFu" "high" 500) ].
Proof. vm_compute. reflexivity. Qed.

(** ** [downloadVideo] *)

Lemma downloadOf_unfold v w url src :
  downloadOf v w url src = downloadWith (headersOf v) w url.
Proof. destruct v; reflexivity. Qed.

(** C6, as stated, does not hold: a download whose response arrives in one
    second and whose body takes a minute more settles after 61 seconds, and
    succeeds. *)
Lemma download_body_time_is_not_capped : ¬ capsWholeDownload downloadVideo.
Proof.
  intros Hcap.
  specialize (Hcap Scenario.slowBody "https://cdn.example/1.mp4" "Instagram"
                Scenario.initial).
  assert (Hlate : (abortAfterMs <
            clock (downloadVideo Scenario.slowBody "https://cdn.example/1.mp4"
                     "Instagram" Scenario.initial).1
            - clock Scenario.initial)%N) by (vm_compute; reflexivity).
  specialize (Hcap Hlate). vm_compute in Hcap. discriminate.
Qed.

(** C6, amended.  [downloadVideo], in either processor, issues exactly one
    request, with the abort timer set to 30000 ms.  The timer caps the wait
    for the response: when neither a response nor a failure has come
    within it, the download fails with 'Video download timeout' at the
    30000th millisecond.  A response that comes in time and is not
    successful fails the download with 'Failed to download video: ' and
    its status.  A path is returned only when a successful response came
    in time, its body was read and the file was written; the time the body
    takes is part of the download and is not capped. *)
Theorem downloadVideo_caps_the_wait_for_the_response
  (v : Variant) (w : World) (url src : string) (s : State) :
  let reply := fetchVideo w (trace s) url in
  let out := downloadOf v w url src s in
  (∃ tail, trace out.1
           = trace s ++ EvFetchVideo url (headersOf v url) 30000 :: tail
           ∧ Forall (fun ev => ¬ isFetch ev) tail)
  ∧ ((30000 <= responseTime reply)%N ->
     out.2 = Throw (newError "Video download timeout")
     ∧ clock out.1 = (clock s + 30000)%N)
  ∧ (∀ ms status body,
       reply = FetchResponds ms false status body -> (ms < 30000)%N ->
       out.2 = Throw (newError ("Failed to download video: " ++ Str.ofN status)))
  ∧ (∀ path, out.2 = Ok path ->
       ∃ ms status bodyMs,
         reply = FetchResponds ms true status (BodyArrives bodyMs)
         ∧ (ms < 30000)%N
         ∧ clock out.1 = (clock s + ms + bodyMs)%N
         ∧ ∃ tr, writeFile w tr path = None
              ∧ path = ("/tmp/video_" ++ Str.ofN (now w tr) ++ ".mp4")%string).
Proof.
  intros reply out. subst out. rewrite downloadOf_unfold.
  unfold downloadWith, fetchWithTimer, readBody. run. fold reply.
  change abortAfterMs with 30000%N.
  destruct reply as [ms e|ms ok status body]; simpl;
    destruct (N.ltb_spec ms 30000) as [Hms|Hms]; simpl.
  - (* the request fails by itself, in time *)
    repeat split.
    + exists []. split; [|constructor].
      destruct (String.eqb (name e) "AbortError"); reflexivity.
    + intros; lia.
    + intros; lia.
    + intros; discriminate.
    + intros path H. destruct (String.eqb (name e) "AbortError"); discriminate.
  - (* nothing within the cap *)
    repeat split; try (intros; discriminate).
    exists []. split; [reflexivity|constructor].
  - (* a response in time *)
    destruct ok; simpl.
    + destruct body as [e|bodyMs]; simpl.
      * repeat split; try (intros; lia); try (intros; discriminate).
        -- exists []. split; [|constructor].
           destruct (String.eqb (name e) "AbortError"); reflexivity.
        -- intros path H.
           destruct (String.eqb (name e) "AbortError"); discriminate.
      * destruct (writeFile w _ _) as [e|] eqn:Hw; simpl.
        -- repeat split; try (intros; lia); try (intros; discriminate).
           ++ eexists [_]. split.
              { destruct (String.eqb (name e) "AbortError"); simpl;
                  rewrite <- app_assoc; reflexivity. }
              repeat constructor; simpl; tauto.
           ++ intros path H.
              destruct (String.eqb (name e) "AbortError"); discriminate.
        -- repeat split; try (intros; lia); try (intros; discriminate).
           ++ eexists [_]. split.
              { simpl. rewrite <- app_assoc. reflexivity. }
              repeat constructor; simpl; tauto.
           ++ intros path H. inversion H; subst path; clear H.
              exists ms, status, bodyMs. repeat split; try done.
              eexists. split; [exact Hw|reflexivity].
    + repeat split; try (intros; lia); try (intros; discriminate).
      * exists []. split; [reflexivity|constructor].
      * intros ms' status' body' H _. by inversion H.
  - (* a response after the cap *)
    repeat split; try (intros; discriminate).
    + exists []. split; [reflexivity|constructor].
    + intros ms' status' body' H Hlt. inversion H; subst. lia.
Qed.

Lemma downloadVideo_caps_the_wait_for_the_response_witness :
  (30000 <= responseTime (fetchVideo Scenario.unresponsive [] "https://cdn.example/1.mp4"))%N
  ∧ (downloadVideo Scenario.unresponsive "https://cdn.example/1.mp4" "Instagram"
       Scenario.initial).2
    = Throw (newError "Video download timeout")
  ∧ (downloadVideo Scenario.forbidden "https://cdn.example/1.mp4" "Instagram"
       Scenario.initial).2
    = Throw (newError "Failed to download video: 403")
  ∧ (downloadVideo Scenario.slowBody "https://cdn.example/1.mp4" "Instagram"
       Scenario.initial).2
    = Ok "/tmp/video_1700000000000.mp4".
Proof.
  split; [vm_compute; discriminate|].
  split.
  - pose proof (downloadVideo_caps_the_wait_for_the_response Current
                  Scenario.unresponsive "https://cdn.example/1.mp4" "Instagram"
                  Scenario.initial) as H.
    cbv zeta in H. destruct H as (_ & Hlate & _).
    apply Hlate. vm_compute. discriminate.
  - split.
    + pose proof (downloadVideo_caps_the_wait_for_the_response Current
                    Scenario.forbidden "https://cdn.example/1.mp4" "Instagram"
                    Scenario.initial) as H.
      cbv zeta in H. destruct H as (_ & _ & Hbad & _).
      apply (Hbad 300%N 403%N (BodyArrives 10)); reflexivity.
    + vm_compute. reflexivity.
Defined.

(** ** [parseWorkoutWithAI] *)

Lemma prefix_app (n post : string) : String.prefix n (n ++ post) = true.
Proof.
  induction n as [|a n IH]; simpl; [by destruct post|].
  destruct (Ascii.ascii_dec a a); [exact IH|done].
Qed.

Lemma includes_prefix (n s : string) :
  String.prefix n s = true -> Str.includes n s = true.
Proof. intros H. destruct s; simpl in *; rewrite H; reflexivity. Qed.

Lemma includes_app (n pre post : string) :
  Str.includes n (pre ++ n ++ post) = true.
Proof.
  induction pre as [|c pre IH].
  - change (Str.includes n (n ++ post) = true).
    apply includes_prefix, prefix_app.
  - change (Str.includes n (String c (pre ++ n ++ post)) = true).
    simpl. rewrite IH. apply orb_true_r.
Qed.

Lemma lacks_app c (a b : string) : lacks c (a ++ b) ↔ lacks c a ∧ lacks c b.
Proof. induction a as [|x a IH]; simpl; tauto. Qed.

Lemma fromFirstOpen_None s : fromFirstOpen s = None -> lacks openBrace s.
Proof.
  induction s as [|c s IH]; simpl; [done|].
  destruct (Ascii.eqb_spec c openBrace); [discriminate|]. auto.
Qed.

Lemma fromFirstOpen_first (pre rest : string) :
  lacks openBrace pre ->
  fromFirstOpen (pre ++ String openBrace rest) = Some (String openBrace rest).
Proof.
  induction pre as [|c pre IH]; simpl; [reflexivity|].
  intros [Hc Hpre]. destruct (Ascii.eqb_spec c openBrace); [done|]. auto.
Qed.

(** The suffix found starts at or before any opening brace of the text. *)
Lemma fromFirstOpen_covers (pre rest : string) :
  ∃ pre' : string, fromFirstOpen (pre ++ String openBrace rest)
          = Some (pre' ++ String openBrace rest)%string.
Proof.
  induction pre as [|c pre [pre' IH]]; simpl.
  - by exists "".
  - destruct (Ascii.eqb_spec c openBrace).
    + by exists (String c pre).
    + by exists pre'.
Qed.

Lemma upToLastClose_None s : upToLastClose s = None ↔ lacks closeBrace s.
Proof.
  induction s as [|c s IH]; simpl; [done|].
  destruct (upToLastClose s) as [p|].
  - split; [discriminate|]. intros [_ H]. by apply IH in H.
  - destruct (Ascii.eqb_spec c closeBrace); split; try done.
    + intros [Hc _]. done.
    + intros _. split; [done|]. by apply IH.
Qed.

Lemma upToLastClose_last (mid post : string) :
  lacks closeBrace post ->
  upToLastClose (mid ++ String closeBrace post)
  = Some (mid ++ String closeBrace "")%string.
Proof.
  intros Hpost. induction mid as [|c mid IH]; simpl.
  - rewrite (proj2 (upToLastClose_None post) Hpost). reflexivity.
  - rewrite IH. reflexivity.
Qed.

(** The span matched: from the first opening brace to the last closing
    brace. *)
Lemma matchBraces_span (pre mid post : string) :
  lacks openBrace pre -> lacks closeBrace post ->
  matchBraces (pre ++ String openBrace (mid ++ String closeBrace post))
  = Some (String openBrace (mid ++ String closeBrace "")).
Proof.
  intros Hpre Hpost. unfold matchBraces.
  rewrite fromFirstOpen_first by done.
  change (String openBrace (mid ++ String closeBrace post))
    with (String openBrace mid ++ String closeBrace post)%string.
  by rewrite upToLastClose_last.
Qed.

Lemma matchBraces_None content : matchBraces content = None ↔ ¬ hasSpan content.
Proof.
  unfold matchBraces, hasSpan. split.
  - intros H (pre & mid & post & ->).
    destruct (fromFirstOpen_covers pre (mid ++ String closeBrace post))
      as [pre' Hc].
    change (pre ++ String openBrace mid ++ String closeBrace post)%string
      with (pre ++ String openBrace (mid ++ String closeBrace post))%string in H.
    rewrite Hc in H. apply upToLastClose_None in H.
    rewrite lacks_app in H. destruct H as [_ H].
    change (lacks closeBrace (String openBrace mid ++ String closeBrace post)) in H.
    rewrite lacks_app in H. simpl in H. tauto.
  - intros Hno. destruct (fromFirstOpen content) as [t|] eqn:Ht; [|done].
    destruct (upToLastClose t) as [p|] eqn:Hp; [|done].
    exfalso. apply Hno. clear Hno.
    assert (Hsuffix : ∃ pre, content = (pre ++ t)%string).
    { clear Hp. revert t Ht. induction content as [|c s IH]; simpl; [done|].
      intros t. destruct (Ascii.eqb_spec c openBrace).
      - intros [= <-]. by exists "".
      - intros Ht. destruct (IH t Ht) as [pre ->]. by exists (String c pre). }
    assert (Hopen : ∃ rest, t = String openBrace rest).
    { clear Hp Hsuffix. revert t Ht.
      induction content as [|c s IH]; simpl; [done|].
      intros t. destruct (Ascii.eqb_spec c openBrace) as [->|].
      - intros [= <-]. by eexists.
      - apply IH. }
    assert (Hclose : ∀ u q, upToLastClose u = Some q ->
              ∃ mid post, u = (mid ++ String closeBrace post)%string).
    { induction u as [|c u IH]; simpl; [done|].
      intros q. destruct (upToLastClose u) as [p'|].
      - intros _. destruct (IH p' eq_refl) as (mid & post & ->).
        by exists (String c mid), post.
      - destruct (Ascii.eqb_spec c closeBrace) as [->|]; [|done].
        intros _. by exists "", u. }
    destruct Hsuffix as [pre ->]. destruct Hopen as [rest ->].
    simpl in Hp.
    destruct (upToLastClose rest) as [p'|] eqn:Hrest.
    + destruct (Hclose rest p' Hrest) as (mid & post & ->).
      by exists pre, mid, post.
    + discriminate.
Qed.

(** C7, as stated, does not hold: a synthesis call refused with status
    429 is a [SynthesisCallFailed], and the orchestrator classifies it as a
    rate limit. *)
Lemma synthesis_rate_limit_is_not_permanent : ¬ synthesisFailuresPermanent.
Proof.
  intros Hperm.
  specialize (Hperm Scenario.rateLimited "Leg day!" "Squat 3 x 10" "sk-test"
                Scenario.initial).
  assert (Hrun :
    (parseWorkoutWithAI Scenario.rateLimited "Leg day!" "Squat 3 x 10" "sk-test"
       Scenario.initial).2
    = Throw (newError ("OpenAI API error: " ++ Str.ofN 429 ++ " - "
                       ++ "Rate limit reached for gpt-4o-mini")))
    by (vm_compute; reflexivity).
  destruct (parseWorkoutWithAI Scenario.rateLimited "Leg day!" "Squat 3 x 10"
              "sk-test" Scenario.initial) as [s' r] eqn:Hout.
  simpl in Hrun. subst r.
  specialize (Hperm s' _ eq_refl (SynthesisCallFailed 429 _)).
  vm_compute in Hperm. discriminate.
Qed.

Lemma parseContent_run w content s :
  parseContent w content s =
  (s, match Js.or content (JStr "") with
      | JStr text =>
          match matchBraces text with
          | None =>
              Throw (newError "Failed to parse workout data from AI response")
          | Some jsonMatch =>
              match jsonParse w jsonMatch with
              | Throw e => Throw e
              | Ok props =>
                  if Js.isArray (Js.assoc "exercises" props)
                  then Ok (JObj props)
                  else Throw (newError "Invalid workout structure from AI")
              end
          end
      | _ => Throw (mkError "TypeError" "content.match is not a function")
      end).
Proof.
  unfold parseContent.
  destruct (Js.or content (JStr "")); try reflexivity.
  destruct (matchBraces s0); [|reflexivity].
  destruct (jsonParse w s1) as [props|e]; [|reflexivity].
  cbv zeta. cbn [Js.get].
  destruct (Js.assoc "exercises" props); simpl; rewrite ?orb_true_r;
    reflexivity.
Qed.

Lemma parseWorkoutWithAI_run w caption text key s :
  parseWorkoutWithAI w caption text key s =
  (mkState (trace s ++ [EvSynthesize ("Bearer " ++ key) (synthPrompt caption text)])
     (store s) (clock s),
   match languageModel w (trace s) (synthPrompt caption text) with
   | SynthRejects e => Throw e
   | SynthStatus status statusText errorData =>
       match default (JObj []) errorData with
       | JNull => Throw nullBodyError
       | body =>
           let errorMessage := synthErrorMessage body statusText in
           if Js.renders errorMessage
           then Throw (newError ("OpenAI API error: " ++ Str.ofN status ++ " - "
                                 ++ Js.toString errorMessage))
           else Throw primitiveError
       end
   | SynthMalformed e => Throw e
   | SynthContent content => (parseContent w content s).2
   end).
Proof.
  unfold parseWorkoutWithAI. run.
  destruct (languageModel w (trace s) (synthPrompt caption text))
    as [e|status statusText errorData|e|content]; try reflexivity.
  - unfold stringOf.
    destruct errorData as [[]|]; cbn [default id]; try reflexivity;
      cbv zeta;
      match goal with
      | |- context [Js.renders ?m] => destruct (Js.renders m)
      end; reflexivity.
  - rewrite !parseContent_run. reflexivity.
Qed.

Lemma parseWorkoutWithAI_trace w caption text key s :
  trace (parseWorkoutWithAI w caption text key s).1
  = trace s ++ [EvSynthesize ("Bearer " ++ key) (synthPrompt caption text)].
Proof. by rewrite parseWorkoutWithAI_run. Qed.

(** The permanent branch of the handler. *)
Lemma onError_permanent w data e :
  isRateLimitError e = false ->
  onError w data e =
  (updateWorkout w (workoutId data) (failedUpdates e);;
   sendWorkoutProcessingNotification (userId data) (JStr "Workout") false;;
   throw e).
Proof. intros H. unfold onError. rewrite H. reflexivity. Qed.

(** The rate-limit branch of the handler. *)
Lemma onError_rateLimit w data e :
  isRateLimitError e = true ->
  onError w data e =
  (updateWorkout w (workoutId data) rateLimitUpdates;;
   mret (JobSoftFailed "Rate limit - no auto retry")).
Proof. intros H. unfold onError. rewrite H. reflexivity. Qed.

(** ** The acquisition stage *)

Ltac appends_step :=
  first
    [ solve [auto with appends]
    | apply appends_emit; simpl; tauto
    | apply appends_bind; [|intros]
    | apply appends_tryCatch; [|intros]
    | match goal with
      | |- appends _ (match ?x with _ => _ end) => destruct x
      end ].

Lemma downloadWith_appends headers w url :
  appends acquisitionEvent (downloadWith headers w url).
Proof.
  unfold downloadWith, fetchWithTimer, readBody, progress.
  repeat appends_step.
Qed.

Lemma extractFrames_appends w videoPath :
  appends acquisitionEvent (extractFrames w videoPath).
Proof.
  intros s. rewrite extractFrames_run. cbv zeta.
  exists [EvExtract videoPath]. split; [|repeat constructor].
  destruct (extractService w (trace s) videoPath); try reflexivity.
  destruct (pngNames files); reflexivity.
Qed.

Lemma unlinkFile_appends w videoPath :
  appends acquisitionEvent (unlinkFile w videoPath).
Proof. unfold unlinkFile. repeat appends_step. Qed.

Lemma progress_appends (P : Event -> Prop) p :
  P (EvProgress p) -> appends P (progress p).
Proof. apply appends_emit. Qed.

Lemma filesLoop_appends w total files : ∀ i acc,
  appends acquisitionEvent (filesLoop w total i files acc).
Proof.
  induction files as [|videoPath rest IH]; intros i acc; simpl.
  - apply appends_ret.
  - apply appends_bind; [apply extractFrames_appends|]. intros [frames first].
    apply appends_bind; [by apply progress_appends|]. intros _.
    apply appends_bind; [apply unlinkFile_appends|]. intros _. apply IH.
Qed.

Lemma urlsLoop_appends w src total filesLength urls : ∀ i acc,
  appends acquisitionEvent (urlsLoop w src total filesLength i urls acc).
Proof.
  induction urls as [|url rest IH]; intros i acc; simpl.
  - apply appends_ret.
  - apply appends_bind; [apply downloadWith_appends|]. intros videoPath.
    apply appends_bind; [by apply progress_appends|]. intros _.
    apply appends_bind; [apply extractFrames_appends|]. intros [frames first].
    apply appends_bind; [by apply progress_appends|]. intros _.
    apply appends_bind; [apply unlinkFile_appends|]. intros _. apply IH.
Qed.

Lemma acquireOf_appends v w data :
  appends acquisitionEvent (acquireOf v w data).
Proof.
  destruct v; simpl.
  - unfold acquireFrames.
    apply appends_bind; [apply filesLoop_appends|]. intros acc.
    apply urlsLoop_appends.
  - unfold Legacy.acquireFrames.
    apply appends_bind.
    { destruct (videoUrl data); [apply downloadWith_appends|apply appends_throw]. }
    intros videoPath.
    apply appends_bind; [by apply progress_appends|]. intros _.
    apply appends_bind; [apply extractFrames_appends|]. intros [frames first].
    apply appends_bind; [by apply progress_appends|]. intros _.
    apply appends_bind; [apply unlinkFile_appends|]. intros _.
    apply appends_ret.
Qed.

Lemma extractFrames_ok_shape w videoPath s s' frames firstFrame :
  extractFrames w videoPath s = (s', Ok (frames, firstFrame)) ->
  ∃ thumb rest, frames = thumb :: rest ∧ firstFrame = Some thumb
                ∧ frameTruthy (Some thumb) = true.
Proof.
  rewrite extractFrames_run. cbv zeta.
  destruct (extractService w (trace s) videoPath) as [e|st tx|e|z];
    try discriminate.
  destruct (pngNames z) as [|first others]; [discriminate|].
  intros H. inversion H; subst; clear H.
  eexists _, _. repeat split.
Qed.

Lemma filesLoop_thumbnail w total files : ∀ i acc s s' out,
  (i = 0%nat ∧ acc = ([], None)) ∨ (i ≠ 0%nat ∧ headedByThumbnail acc) ->
  filesLoop w total i files acc s = (s', Ok out) ->
  (files = [] ∧ out = acc) ∨ (files ≠ [] ∧ headedByThumbnail out).
Proof.
  induction files as [|videoPath rest IH]; intros i acc s s' out Hpre; simpl.
  - intros [= <- <-]. by left.
  - intros Hrun. right. split; [done|].
    apply bind_inv_ok in Hrun as (s1 & [frames first] & Hext & Hrun).
    apply bind_inv_ok in Hrun as (s2 & [] & _ & Hrun).
    apply bind_inv_ok in Hrun as (s3 & [] & _ & Hrun).
    apply extractFrames_ok_shape in Hext as (thumb & more & -> & -> & Htruthy).
    apply IH in Hrun.
    + destruct Hrun as [[-> ->]|[_ Hout]]; [|exact Hout].
      destruct Hpre as [[-> ->]|[Hi (t & r & -> & Ht)]].
      * rewrite Htruthy. simpl. by exists thumb, more.
      * destruct (Nat.eqb_spec i 0) as [->|_]; [done|]. simpl.
        by exists t, (r ++ thumb :: more).
    + right. split; [lia|].
      destruct Hpre as [[-> ->]|[Hi (t & r & -> & Ht)]].
      * rewrite Htruthy. simpl. by exists thumb, more.
      * destruct (Nat.eqb_spec i 0) as [->|_]; [done|]. simpl.
        by exists t, (r ++ thumb :: more).
Qed.

Lemma urlsLoop_thumbnail w src total filesLength urls : ∀ i acc s s' out,
  (filesLength = 0%nat ∧ i = 0%nat ∧ acc = ([], None))
  ∨ headedByThumbnail acc ∧ (filesLength ≠ 0 ∨ i ≠ 0)%nat ->
  urlsLoop w src total filesLength i urls acc s = (s', Ok out) ->
  (urls = [] ∧ out = acc) ∨ headedByThumbnail out.
Proof.
  induction urls as [|url rest IH]; intros i acc s s' out Hpre; simpl.
  - intros [= <- <-]. by left.
  - intros Hrun. right.
    apply bind_inv_ok in Hrun as (s0 & videoPath & _ & Hrun).
    apply bind_inv_ok in Hrun as (s0' & [] & _ & Hrun).
    apply bind_inv_ok in Hrun as (s1 & [frames first] & Hext & Hrun).
    apply bind_inv_ok in Hrun as (s2 & [] & _ & Hrun).
    apply bind_inv_ok in Hrun as (s3 & [] & _ & Hrun).
    apply extractFrames_ok_shape in Hext as (thumb & more & -> & -> & Htruthy).
    assert (Hnext : headedByThumbnail
              (acc.1 ++ thumb :: more,
               if (filesLength =? 0)%nat && (i =? 0)%nat
                  && frameTruthy (Some thumb)
               then Some thumb else acc.2)).
    { destruct Hpre as [(-> & -> & ->)|[(t & r & -> & Ht) Hne]].
      - rewrite Htruthy. simpl. by exists thumb, more.
      - assert ((filesLength =? 0)%nat && (i =? 0)%nat = false) as ->.
        { destruct (Nat.eqb_spec filesLength 0), (Nat.eqb_spec i 0);
            simpl; try reflexivity. lia. }
        simpl. by exists t, (r ++ thumb :: more). }
    apply IH in Hrun.
    + destruct Hrun as [[_ ->]|Hout]; [exact Hnext|exact Hout].
    + right. split; [exact Hnext|lia].
Qed.

(** Whenever acquisition ends well with frames in the pool, the thumbnail
    is set and is the first pooled frame. *)
Lemma acquireOf_thumbnail v w data s s' frames thumbnailFrame :
  acquireOf v w data s = (s', Ok (frames, thumbnailFrame)) ->
  frames ≠ [] -> headedByThumbnail (frames, thumbnailFrame).
Proof.
  destruct v; simpl.
  - unfold acquireFrames. intros Hrun Hne.
    apply bind_inv_ok in Hrun as (s1 & acc & Hfiles & Hurls).
    apply filesLoop_thumbnail in Hfiles; [|by left].
    apply urlsLoop_thumbnail in Hurls.
    + destruct Hurls as [[_ Hacc]|Hout]; [|exact Hout].
      destruct Hfiles as [[_ ->]|[_ Hacc']]; [by inversion Hacc|].
      by rewrite Hacc.
    + destruct Hfiles as [[Hnil ->]|[Hnn Hacc]].
      * left. by rewrite Hnil.
      * right. split; [exact Hacc|]. left. by destruct (jobFiles data).
  - unfold Legacy.acquireFrames. intros Hrun Hne.
    apply bind_inv_ok in Hrun as (s0 & videoPath & _ & Hrun).
    apply bind_inv_ok in Hrun as (s0' & [] & _ & Hrun).
    apply bind_inv_ok in Hrun as (s1 & [fr first] & Hext & Hrun).
    apply bind_inv_ok in Hrun as (s2 & [] & _ & Hrun).
    apply bind_inv_ok in Hrun as (s3 & [] & _ & Hrun).
    inversion Hrun; subst; clear Hrun.
    apply extractFrames_ok_shape in Hext as (thumb & more & -> & -> & Htruthy).
    by exists thumb, more.
Qed.

(** ** The second half of the [try] *)

Lemma updatesOf_app tr1 tr2 : updatesOf (tr1 ++ tr2) = updatesOf tr1 ++ updatesOf tr2.
Proof. apply omap_app. Qed.

Lemma updatesOf_none evs : Forall (fun ev => ¬ isUpdate ev) evs -> updatesOf evs = [].
Proof.
  induction 1 as [|ev evs Hev _ IH]; [reflexivity|].
  change (ev :: evs) with ([ev] ++ evs). rewrite updatesOf_app, IH.
  destruct ev; simpl in *; try reflexivity. tauto.
Qed.

Lemma acquisitionEvent_not_update ev : acquisitionEvent ev -> ¬ isUpdate ev.
Proof. destruct ev; simpl; tauto. Qed.

Lemma parseWorkoutWithAI_appends (P : Event -> Prop) w caption text key :
  P (EvSynthesize ("Bearer " ++ key) (synthPrompt caption text)) ->
  appends P (parseWorkoutWithAI w caption text key).
Proof.
  intros HP s. rewrite parseWorkoutWithAI_trace.
  eexists. split; [reflexivity|]. by constructor.
Qed.

Lemma legacy_parseWorkoutWithAI_appends (P : Event -> Prop) w caption text key :
  P (EvSynthesize ("Bearer " ++ key) (synthPrompt caption text)) ->
  appends P (Legacy.parseWorkoutWithAI w caption text key).
Proof.
  intros HP s. unfold Legacy.parseWorkoutWithAI. run.
  exists [EvSynthesize ("Bearer " ++ key) (synthPrompt caption text)].
  split; [|by constructor].
  destruct (languageModel w (trace s) (synthPrompt caption text));
    try reflexivity.
  rewrite parseContent_run. reflexivity.
Qed.

Lemma stringOf_run v s :
  stringOf v s
  = (s, if Js.renders v then Ok (Js.toString v) else Throw primitiveError).
Proof. unfold stringOf. by destruct (Js.renders v). Qed.

Lemma completedUpdatesOf_run workoutData display s :
  completedUpdatesOf workoutData display s
  = (s, if Js.renders (Js.get workoutData "notes")
        then Ok (completedUpdates workoutData display)
        else Throw primitiveError).
Proof.
  unfold completedUpdatesOf. rewrite bind_run, stringOf_run.
  by destruct (Js.renders (Js.get workoutData "notes")).
Qed.

Lemma completedUpdatesOf_appends (P : Event -> Prop) workoutData display :
  appends P (completedUpdatesOf workoutData display).
Proof.
  intros s. rewrite completedUpdatesOf_run. exists [].
  by rewrite app_nil_r.
Qed.

Lemma processFramesOf_generic v :
  processFramesOf v =
  match v with
  | Current =>
      processFramesWith "low" parseWorkoutWithAI
        (fun data workoutData =>
           sendWorkoutProcessingNotification (userId data)
             (Js.or (Js.get workoutData "name") (JStr "Your workout")) true)
        "No frames extracted from any video"
  | Earlier =>
      processFramesWith "high" Legacy.parseWorkoutWithAI
        (fun _ _ => mret tt) "No frames extracted from video"
  end.
Proof. destruct v; reflexivity. Qed.

(** A second half that ends well has pooled frames, and has sent exactly
    one update: the completed workout with the resolved display image. *)
Lemma processFramesWith_completed detail parse finish noFrames
  w data frames thumbnailFrame s s' r :
  (∀ caption text key, appends (fun ev => ¬ isUpdate ev) (parse w caption text key)) ->
  (∀ workoutData, appends (fun ev => ¬ isUpdate ev) (finish data workoutData)) ->
  processFramesWith detail parse finish noFrames w data frames thumbnailFrame s
  = (s', Ok r) ->
  frames ≠ []
  ∧ ∃ workoutData before after,
      trace s' = trace s ++ before
                 ++ [EvUpdate (workoutId data)
                       (buildUpdateData
                          (completedUpdates workoutData
                             (finalDisplayUrl (source data) thumbnailFrame
                                (displayUrl data))))]
                 ++ after
      ∧ Forall (fun ev => ¬ isUpdate ev) before
      ∧ Forall (fun ev => ¬ isUpdate ev) after
      ∧ r = JobSucceeded (workoutId data)
              (Js.length (Js.get workoutData "exercises")).
Proof.
  intros Hparse Hfinish. unfold processFramesWith.
  destruct frames as [|frame frames]; [discriminate|].
  cbn [List.length Nat.eqb]. intros Hrun. split; [done|].
  apply bind_inv_ok in Hrun as (s1 & text & Htext & Hrun).
  apply bind_inv_ok in Hrun as (s2 & [] & H75 & Hrun).
  destruct (String.length text =? 0)%nat; [discriminate|].
  apply bind_inv_ok in Hrun as (s3 & workoutData & Hsynth & Hrun).
  apply bind_inv_ok in Hrun as (s4 & [] & H90 & Hrun).
  apply bind_inv_ok in Hrun as (s4' & updates & Hlit & Hrun).
  rewrite completedUpdatesOf_run in Hlit.
  destruct (Js.renders (Js.get workoutData "notes")); [|discriminate].
  injection Hlit as <- <-.
  apply bind_inv_ok in Hrun as (s5 & [] & Hupd & Hrun).
  apply bind_inv_ok in Hrun as (s6 & [] & H100 & Hrun).
  apply bind_inv_ok in Hrun as (s7 & [] & Hfin & Hrun).
  inversion Hrun; subst s' r; clear Hrun.
  eapply appends_run in Htext as (e1 & T1 & F1);
    [|apply (extractTextWith_appends (fun ev => ¬ isUpdate ev));
      intros ?; unfold visionEvent; simpl; tauto].
  inversion H75; subst s2; clear H75.
  eapply appends_run in Hsynth as (e3 & T3 & F3); [|apply Hparse].
  inversion H90; subst s4; clear H90.
  rewrite updateWorkout_run in Hupd. cbv zeta in Hupd.
  destruct (supabaseUpdate w _ _ _); [discriminate|].
  inversion Hupd; subst s5; clear Hupd.
  inversion H100; subst s6; clear H100.
  eapply appends_run in Hfin as (e7 & T7 & F7); [|apply Hfinish].
  exists workoutData, (e1 ++ [EvProgress 75] ++ e3 ++ [EvProgress 90]),
    ([EvProgress 100] ++ e7).
  split; [|split; [|split]].
  - simpl in T3, T7. rewrite T7, T3, T1.
    rewrite <- !app_assoc. reflexivity.
  - rewrite !Forall_app. repeat split; auto; repeat constructor; simpl; tauto.
  - rewrite !Forall_app. repeat split; auto; repeat constructor; simpl; tauto.
  - reflexivity.
Qed.

Lemma processFramesOf_completed v w data frames thumbnailFrame s s' r :
  processFramesOf v w data frames thumbnailFrame s = (s', Ok r) ->
  frames ≠ []
  ∧ ∃ workoutData before after,
      trace s' = trace s ++ before
                 ++ [EvUpdate (workoutId data)
                       (buildUpdateData
                          (completedUpdates workoutData
                             (finalDisplayUrl (source data) thumbnailFrame
                                (displayUrl data))))]
                 ++ after
      ∧ Forall (fun ev => ¬ isUpdate ev) before
      ∧ Forall (fun ev => ¬ isUpdate ev) after
      ∧ r = JobSucceeded (workoutId data)
              (Js.length (Js.get workoutData "exercises")).
Proof.
  rewrite processFramesOf_generic. destruct v.
  - apply processFramesWith_completed.
    + intros. apply parseWorkoutWithAI_appends. simpl. tauto.
    + intros. apply appends_emit. simpl. tauto.
  - apply processFramesWith_completed.
    + intros. apply legacy_parseWorkoutWithAI_appends. simpl. tauto.
    + intros. apply appends_ret.
Qed.

(** ** [processVideoJob] *)

Lemma processVideoJob_run w data s :
  processVideoJob w data s =
  match pipeline w data (entered s) with
  | (s', Ok r) => (s', Ok r)
  | (s1, Throw e) => onError w data e s1
  end.
Proof. reflexivity. Qed.

Lemma legacy_processVideoJob_run w data s :
  Legacy.processVideoJob w data s =
  match Legacy.pipeline w data (entered s) with
  | (s', Ok r) => (s', Ok r)
  | (s1, Throw e) => Legacy.onError w data e s1
  end.
Proof. reflexivity. Qed.

Lemma entered_trace s : trace (entered s) = trace s ++ [EvProgress 10].
Proof. reflexivity. Qed.

(** What the handler does, by the class of the error and the answer of the
    store. *)
Lemma onError_run w data e s :
  onError w data e s =
  let s1 := mkState (trace s ++ [EvUpdate (workoutId data)
                                   (buildUpdateData
                                      (if isRateLimitError e
                                       then rateLimitUpdates
                                       else failedUpdates e))])
              (store s) (clock s) in
  match supabaseUpdate w (trace s) (workoutId data)
          (buildUpdateData (if isRateLimitError e then rateLimitUpdates
                            else failedUpdates e)) with
  | Some msg => (s1, Throw (newError ("Supabase error: " ++ msg)))
  | None =>
      let stored' :=
        alter (applyUpdate
                 (buildUpdateData (if isRateLimitError e then rateLimitUpdates
                                   else failedUpdates e)))
          (workoutId data) (store s) in
      if isRateLimitError e
      then (mkState (trace s1) stored' (clock s),
            Ok (JobSoftFailed "Rate limit - no auto retry"))
      else (mkState (trace s1 ++ [EvNotify (userId data) (JStr "Workout") false])
              stored' (clock s),
            Throw e)
  end.
Proof.
  unfold onError.
  destruct (isRateLimitError e); rewrite bind_run, updateWorkout_run;
    cbv zeta; destruct (supabaseUpdate w _ _ _); reflexivity.
Qed.

Lemma onError_never_succeeds w data e s s' id n :
  onError w data e s ≠ (s', Ok (JobSucceeded id n)).
Proof.
  rewrite onError_run. cbv zeta.
  destruct (supabaseUpdate w _ _ _); [discriminate|].
  destruct (isRateLimitError e); discriminate.
Qed.

Lemma legacy_onError_never_returns w data e s s' r :
  Legacy.onError w data e s ≠ (s', Ok r).
Proof.
  unfold Legacy.onError.
  destruct (isRateLimitError e); [discriminate|].
  rewrite bind_run, updateWorkout_run. cbv zeta.
  destruct (supabaseUpdate w _ _ _); discriminate.
Qed.

(** A processor that reports success went through both halves of the
    [try] without an error. *)
Lemma processorOf_succeeded v w data s s' id n :
  processorOf v w data s = (s', Ok (JobSucceeded id n)) ->
  ∃ s1 frames thumbnailFrame,
    acquireOf v w data (entered s) = (s1, Ok (frames, thumbnailFrame))
    ∧ processFramesOf v w data frames thumbnailFrame s1
      = (s', Ok (JobSucceeded id n)).
Proof.
  destruct v; simpl.
  - rewrite processVideoJob_run.
    destruct (pipeline w data (entered s)) as [s1 [r|e]] eqn:Hpipe.
    + intros [= -> ->]. unfold pipeline in Hpipe.
      apply bind_inv_ok in Hpipe as (s1 & [frames thumb] & Hacq & Hrest).
      by exists s1, frames, thumb.
    + intros H. by apply onError_never_succeeds in H.
  - rewrite legacy_processVideoJob_run.
    destruct (Legacy.pipeline w data (entered s)) as [s1 [r|e]] eqn:Hpipe.
    + intros [= -> ->]. unfold Legacy.pipeline in Hpipe.
      apply bind_inv_ok in Hpipe as (s1 & [frames thumb] & Hacq & Hrest).
      by exists s1, frames, thumb.
    + intros H. by apply legacy_onError_never_returns in H.
Qed.

Lemma completedUpdates_status workoutData display :
  buildUpdateData (completedUpdates workoutData display) !! "status"
  = Some (JStr "completed").
Proof. rewrite buildUpdateData_status. reflexivity. Qed.

Lemma completedUpdates_display workoutData display :
  buildUpdateData (completedUpdates workoutData display) !! "display_url"
  = if Js.truthy display then Some display else None.
Proof.
  rewrite (buildUpdateData_copied _ "displayUrl" "display_url").
  - reflexivity.
  - unfold copiedFields. rewrite !elem_of_cons. tauto.
Qed.

(** C3, as stated, does not hold: a completed job from another platform
    whose display URL is the empty string sends no display image at all. *)
Lemma empty_display_url_is_not_persisted : ¬ displayUrlKeptAsStated.
Proof.
  intros Hkept.
  destruct (processVideoJob Scenario.happy Scenario.noCover Scenario.initial)
    as [s' r] eqn:Hrun.
  assert (Hr : r = Ok (JobSucceeded "w1" 1)).
  { change r with (s', r).2. rewrite <- Hrun. vm_compute. reflexivity. }
  subst r.
  destruct (Hkept _ _ _ _ _ _ Hrun) as (updateData & Hlast & Hdisplay).
  { vm_compute. discriminate. }
  assert (Hs' : s' = (processVideoJob Scenario.happy Scenario.noCover
                        Scenario.initial).1) by (by rewrite Hrun).
  subst s'.
  assert (Hnone :
    (last (updatesOf (trace (processVideoJob Scenario.happy Scenario.noCover
                               Scenario.initial).1)))
    ≫= (fun u => u.2 !! "display_url") = None)
    by (vm_compute; reflexivity).
  rewrite Hlast in Hnone. simpl in Hnone. rewrite Hdisplay in Hnone.
  discriminate.
Qed.

(** C3, amended.  A job that either processor completes has captured a
    thumbnail, the first frame of the pool, and has sent one update, with
    status 'completed'.  The display image of that update is the thumbnail
    when the source tag is 'TikTok'.  In every other case it is the
    caller's display URL, unchanged, when that value is truthy; when it is
    falsy (empty, null, absent) the update carries no display image and
    the stored one stays. *)
Theorem completed_job_display_image
  (v : Variant) (w : World) (data : JobData) (s s' : State) (id : string) (n : nat) :
  processorOf v w data s = (s', Ok (JobSucceeded id n)) ->
  ∃ s1 thumb rest evs updateData,
    acquireOf v w data (entered s) = (s1, Ok (thumb :: rest, Some thumb))
    ∧ trace s' = trace s ++ evs
    ∧ updatesOf evs = [(workoutId data, updateData)]
    ∧ id = workoutId data
    ∧ updateData !! "status" = Some (JStr "completed")
    ∧ updateData !! "display_url"
      = (if String.eqb (source data) "TikTok" then Some (JStr thumb)
         else if Js.truthy (displayUrl data) then Some (displayUrl data)
              else None)
    ∧ (updateData !! "display_url" = None ->
       ∀ row, applyUpdate updateData row !! "display_url" = row !! "display_url").
Proof.
  intros Hrun.
  apply processorOf_succeeded in Hrun as (s1 & frames & thumbOpt & Hacq & Hrest).
  apply processFramesOf_completed in Hrest
    as (Hne & workoutData & before & after & Htrace & Hb & Ha & Hr).
  destruct (acquireOf_thumbnail _ _ _ _ _ _ _ Hacq Hne)
    as (thumb & rest & [= -> ->] & Htruthy).
  destruct (appends_run _ _ _ _ _ (acquireOf_appends v w data) Hacq)
    as (acq & Tacq & Facq).
  inversion Hr; subst id n; clear Hr.
  eexists s1, thumb, rest, _, _.
  split; [exact Hacq|]. split; [|split; [|split; [reflexivity|]]].
  - rewrite Htrace, Tacq, entered_trace, <- !app_assoc. reflexivity.
  - assert (Hacq0 : updatesOf acq = []).
    { apply updatesOf_none. eapply Forall_impl; [exact Facq|].
      apply acquisitionEvent_not_update. }
    rewrite !updatesOf_app, Hacq0, (updatesOf_none before Hb),
      (updatesOf_none after Ha).
    reflexivity.
  - split; [apply completedUpdates_status|].
    split; [|intros Hnone row; by apply applyUpdate_absent].
    rewrite completedUpdates_display. unfold finalDisplayUrl.
    rewrite Htruthy, andb_true_r.
    destruct (String.eqb (source data) "TikTok"); [|reflexivity].
    simpl in Htruthy |- *. by rewrite Htruthy.
Qed.

Lemma completed_job_display_image_witness :
  ∃ s' updateData,
    processVideoJob Scenario.happy Scenario.oneUpload Scenario.initial
    = (s', Ok (JobSucceeded "w1" 1))
    ∧ updatesOf (trace s') = [("w1", updateData)]
    ∧ updateData !! "display_url" = Some (JStr "data:image/png;base64,TWFu").
Proof.
  destruct (processVideoJob Scenario.happy Scenario.oneUpload Scenario.initial)
    as [s' r] eqn:Hrun.
  assert (Hr : r = Ok (JobSucceeded "w1" 1)).
  { change r with (s', r).2. rewrite <- Hrun. vm_compute. reflexivity. }
  subst r.
  destruct (completed_job_display_image Current _ _ _ _ _ _ Hrun)
    as (s1 & thumb & rest & evs & updateData & Hacq & Htrace & Hupd & _ & _
        & Hdisplay & _).
  exists s', updateData. split; [reflexivity|].
  split; [by rewrite Htrace|].
  rewrite Hdisplay.
  assert (Hthumb : (acquireFrames Scenario.happy Scenario.oneUpload
                      (entered Scenario.initial)).2
                   = Ok (thumb :: rest, Some thumb))
    by (unfold acquireOf in Hacq; by rewrite Hacq).
  vm_compute in Hthumb. inversion Hthumb. reflexivity.
Defined.

Lemma next_download_report_is_lower (total v : nat) :
  (1 <= v)%nat -> (v < total)%nat ->
  (10 + num (v + 1) * 15 / num total < 25 + num v * 25 / num total)%Q.
Proof.
  intros Hv Ht. unfold num.
  assert (HT : (0 < inject_Z (Z.of_nat total))%Q).
  { change 0%Q with (inject_Z 0). rewrite <- Zlt_Qlt. lia. }
  apply Qmult_lt_r with (z := inject_Z (Z.of_nat total)); [exact HT|].
  rewrite !Qmult_plus_distr_l.
  unfold Qdiv. rewrite <- !Qmult_assoc.
  rewrite !(Qmult_comm (/ inject_Z (Z.of_nat total))).
  rewrite !Qmult_inv_r by (intros H; rewrite H in HT; by apply Qlt_irrefl in HT).
  rewrite !Qmult_1_r.
  change 10%Q with (inject_Z 10). change 25%Q with (inject_Z 25).
  change 15%Q with (inject_Z 15).
  rewrite <- !inject_Z_mult, <- !inject_Z_plus, <- Zlt_Qlt. lia.
Qed.

(** C2, on the processor's reports.  After the frames of video number [v]
    are extracted the report is [25 + v * 25 / total]; after video number
    [v + 1] is downloaded the report is [10 + (v + 1) * 15 / total], which
    is lower whenever there is such a next video.  A job of two URL videos
    that completes reports 10, 17.5, 37.5, 25, 50, 75, 90, 100: the run
    ends at 75, 90 and 100, and goes back from 37.5 to 25 before. *)
Theorem second_download_report_drops :
  (∀ total v : nat, (1 <= v)%nat -> (v < total)%nat ->
     (10 + num (v + 1) * 15 / num total < 25 + num v * 25 / num total)%Q)
  ∧ (processVideoJob Scenario.happy Scenario.twoUrls Scenario.initial).2
    = Ok (JobSucceeded "w1" 1)
  ∧ Forall2 Qeq
      (progressOf (trace (processVideoJob Scenario.happy Scenario.twoUrls
                            Scenario.initial).1))
      [10; 35 # 2; 75 # 2; 25; 50; 75; 90; 100]%Q
  ∧ ¬ nonDecreasing
        (progressOf (trace (processVideoJob Scenario.happy Scenario.twoUrls
                              Scenario.initial).1)).
Proof.
  split; [exact next_download_report_is_lower|].
  split; [vm_compute; reflexivity|].
  assert (Hreports :
    progressOf (trace (processVideoJob Scenario.happy Scenario.twoUrls
                         Scenario.initial).1)
    = [10; 35 # 2; 75 # 2; 50 # 2; 100 # 2; 75; 90; 100]%Q)
    by (vm_compute; reflexivity).
  rewrite Hreports. split.
  - repeat (constructor; [reflexivity|]). constructor.
  - intros Hmono.
    specialize (Hmono 2%nat (75 # 2)%Q (50 # 2)%Q eq_refl eq_refl).
    vm_compute in Hmono. by apply Hmono.
Qed.

(** ** The handler *)

Lemma rateLimitUpdates_built : buildUpdateData rateLimitUpdates = rateLimitUpdate.
Proof. vm_compute. reflexivity. Qed.

Lemma failedUpdates_built e :
  buildUpdateData (failedUpdates e) = failedUpdate (message e).
Proof.
  unfold buildUpdateData, copyIfTruthy.
  change (field (failedUpdates e) "exercises") with JUndefined.
  change (field (failedUpdates e) "name") with JUndefined.
  change (field (failedUpdates e) "duration") with JUndefined.
  change (field (failedUpdates e) "difficulty") with JUndefined.
  change (field (failedUpdates e) "notes") with JUndefined.
  change (field (failedUpdates e) "displayUrl") with JUndefined.
  change (field (failedUpdates e) "processingError") with (JStr (message e)).
  change (field (failedUpdates e) "status") with (JStr "failed").
  unfold failedUpdate. simpl.
  destruct (String.eqb (message e) ""); simpl; [reflexivity|].
  apply insert_insert_ne. discriminate.
Qed.

Lemma handlerUpdate_built e :
  buildUpdateData (if isRateLimitError e then rateLimitUpdates
                   else failedUpdates e)
  = handlerUpdate e.
Proof.
  unfold handlerUpdate. destruct (isRateLimitError e).
  - apply rateLimitUpdates_built.
  - apply failedUpdates_built.
Qed.

(** ** The stages of a run *)

Lemma progress_run p s :
  progress p s = (mkState (trace s ++ [EvProgress p]) (store s) (clock s), Ok tt).
Proof. reflexivity. Qed.

Lemma frameYield_clean reply t :
  frameYield reply = Some t -> t ≠ "" ∧ Str.trim t = t.
Proof.
  destruct reply as [e|st|e|content]; simpl; try done.
  destruct (Js.or content (JStr "")); try done.
  destruct (0 <? String.length (Str.trim s))%nat eqn:Hlen; [|done].
  intros [= <-]. split; [|apply trim_idem].
  intros Hempty. rewrite Hempty in Hlen. discriminate.
Qed.

(** An answer yields no text exactly when it is fruitless. *)
Lemma frameYield_none reply : frameYield reply = None ↔ fruitless reply.
Proof.
  destruct reply as [e|st|e|content]; simpl; try done.
  destruct (Js.or content (JStr "")); try done.
  rewrite <- trim_empty_iff.
  destruct (Str.trim s); simpl; split; (done || discriminate).
Qed.

Lemma collected_clean detail w key frames : ∀ tr,
  Forall (fun t => t ≠ "" ∧ Str.trim t = t) (collected detail w key frames tr).
Proof.
  induction frames as [|frame rest IH]; intros tr; simpl; [constructor|].
  apply Forall_app. split; [|apply IH].
  destruct (frameYield _) as [t|] eqn:Hy; simpl; [|constructor].
  constructor; [|constructor]. by apply frameYield_clean in Hy.
Qed.

(** The texts collected are what the answers yield. *)
Lemma collected_answers detail w key frames : ∀ tr,
  collected detail w key frames tr
  = omap frameYield (answers detail w key frames tr).
Proof.
  induction frames as [|frame rest IH]; intros tr; simpl; [reflexivity|].
  rewrite IH. by destruct (frameYield _).
Qed.

Lemma collected_nil_iff detail w key frames tr :
  collected detail w key frames tr = []
  ↔ Forall fruitless (answers detail w key frames tr).
Proof.
  rewrite collected_answers.
  induction (answers detail w key frames tr) as [|reply rest IH]; simpl.
  - split; [constructor|done].
  - rewrite Forall_cons, <- IH, <- frameYield_none.
    destruct (frameYield reply); split; (done || intros []; done).
Qed.

Lemma join_empty sep (l : list string) :
  Forall (fun t => t ≠ "") l -> Str.join sep l = "" ↔ l = [].
Proof.
  intros Hl. split; [|by intros ->].
  destruct l as [|x rest]; [done|].
  apply Forall_cons in Hl as [Hx _].
  destruct x as [|c x]; [done|].
  destruct rest; discriminate.
Qed.

(** The text handed on is empty exactly when every answer of the pass is
    fruitless. *)
Lemma joined_empty_iff detail w key frames tr :
  Str.join (Str.newline ++ Str.newline) (collected detail w key frames tr) = ""
  ↔ Forall fruitless (answers detail w key frames tr).
Proof.
  rewrite <- collected_nil_iff. apply join_empty.
  eapply Forall_impl; [apply collected_clean|]. by intros t [Ht _].
Qed.

Lemma length_zero_iff (t : string) : (String.length t =? 0)%nat = true ↔ t = "".
Proof. destruct t; simpl; split; (done || discriminate). Qed.

(** The second half of the [try] on a pool that is not empty: the frames
    are shown to the vision model, 75 is reported, and either the text is
    empty or the synthesizer is asked and the job completed. *)
Lemma processFrames_run w data frames thumbnailFrame s1 :
  frames ≠ [] ->
  processFrames w data frames thumbnailFrame s1 =
  (if (String.length (extractedTextOf w (openAIKey data) frames s1) =? 0)%nat
   then throw (newError "No text extracted from video frames")
   else
     workoutData ←
       parseWorkoutWithAI w (caption data)
         (extractedTextOf w (openAIKey data) frames s1) (openAIKey data);
     progress 90;;
     updates ←
       completedUpdatesOf workoutData
         (finalDisplayUrl (source data) thumbnailFrame (displayUrl data));
     updateWorkout w (workoutId data) updates;;
     progress 100;;
     sendWorkoutProcessingNotification (userId data)
       (Js.or (Js.get workoutData "name") (JStr "Your workout")) true;;
     mret (JobSucceeded (workoutId data)
             (Js.length (Js.get workoutData "exercises"))))
    (askedAt s1 (openAIKey data) frames).
Proof.
  intros Hne. unfold processFrames.
  destruct frames as [|frame frames]; [done|]. cbn [List.length Nat.eqb].
  unfold extractTextFromFrames.
  rewrite bind_run, extractTextWith_run, bind_run, progress_run.
  unfold extractedTextOf, askedAt. cbn [trace store clock].
  by rewrite <- app_assoc.
Qed.

(** What follows a synthesis that succeeded, by the notes and the answer
    of the store. *)
Lemma completion_run w data thumbnailFrame workoutData s3 :
  (progress 90;;
   updates ←
     completedUpdatesOf workoutData
       (finalDisplayUrl (source data) thumbnailFrame (displayUrl data));
   updateWorkout w (workoutId data) updates;;
   progress 100;;
   sendWorkoutProcessingNotification (userId data)
     (Js.or (Js.get workoutData "name") (JStr "Your workout")) true;;
   mret (JobSucceeded (workoutId data)
           (Js.length (Js.get workoutData "exercises")))) s3 =
  let updateData :=
    buildUpdateData
      (completedUpdates workoutData
         (finalDisplayUrl (source data) thumbnailFrame (displayUrl data))) in
  let reported := trace s3 ++ [EvProgress 90] in
  if Js.renders (Js.get workoutData "notes")
  then
    match supabaseUpdate w reported (workoutId data) updateData with
    | Some msg =>
        (mkState (reported ++ [EvUpdate (workoutId data) updateData])
           (store s3) (clock s3),
         Throw (newError ("Supabase error: " ++ msg)))
    | None =>
        (mkState (reported
                  ++ [EvUpdate (workoutId data) updateData; EvProgress 100;
                      EvNotify (userId data)
                        (Js.or (Js.get workoutData "name") (JStr "Your workout"))
                        true])
           (alter (applyUpdate updateData) (workoutId data) (store s3))
           (clock s3),
         Ok (JobSucceeded (workoutId data)
               (Js.length (Js.get workoutData "exercises"))))
    end
  else (mkState reported (store s3) (clock s3), Throw primitiveError).
Proof.
  cbv zeta. rewrite bind_run, progress_run, bind_run, completedUpdatesOf_run.
  destruct (Js.renders (Js.get workoutData "notes")); [|reflexivity].
  rewrite bind_run, updateWorkout_run. cbv zeta. cbn [trace store clock].
  destruct (supabaseUpdate w _ _ _); [reflexivity|].
  unfold sendWorkoutProcessingNotification. run.
  by rewrite <- !app_assoc.
Qed.

(** The run of the job when the [try] raised [e] in state [s1]. *)
Lemma handled_run w data s s1 e :
  pipeline w data (entered s) = (s1, Throw e) ->
  let out := processVideoJob w data s in
  let id := workoutId data in
  match supabaseUpdate w (trace s1) id (handlerUpdate e) with
  | None =>
      store out.1 = alter (applyUpdate (handlerUpdate e)) id (store s1)
      ∧ (if Str.includes "429" (message e)
         then trace out.1 = trace s1 ++ [EvUpdate id rateLimitUpdate]
              ∧ out.2 = Ok (JobSoftFailed "Rate limit - no auto retry")
         else trace out.1
              = trace s1 ++ [EvUpdate id (failedUpdate (message e));
                             EvNotify (userId data) (JStr "Workout") false]
              ∧ out.2 = Throw e)
  | Some msg =>
      trace out.1 = trace s1 ++ [EvUpdate id (handlerUpdate e)]
      ∧ store out.1 = store s1
      ∧ out.2 = Throw (newError ("Supabase error: " ++ msg))
  end.
Proof.
  intros Hpipe out id.
  subst out. rewrite processVideoJob_run, Hpipe, onError_run. cbv zeta.
  rewrite handlerUpdate_built. subst id.
  destruct (supabaseUpdate w (trace s1) (workoutId data) (handlerUpdate e)).
  - repeat split.
  - unfold handlerUpdate, isRateLimitError.
    destruct (Str.includes "429" (message e)); repeat split.
    simpl. rewrite <- app_assoc. reflexivity.
Qed.

Lemma processFramesWith_appends (P : Event -> Prop) detail parse finish noFrames
  w data frames thumbnailFrame :
  (∀ p, P (EvProgress p)) ->
  (∀ frame, P (visionEvent detail (openAIKey data) frame)) ->
  (∀ updateData, P (EvUpdate (workoutId data) updateData)) ->
  (∀ caption text key, appends P (parse w caption text key)) ->
  (∀ workoutData, appends P (finish data workoutData)) ->
  appends P (processFramesWith detail parse finish noFrames w data frames
               thumbnailFrame).
Proof.
  intros Hprog Hvis Hupd Hparse Hfin. unfold processFramesWith.
  destruct (List.length frames =? 0)%nat; [apply appends_throw|].
  apply appends_bind; [by apply extractTextWith_appends|]. intros text.
  apply appends_bind; [by apply progress_appends|]. intros _.
  destruct (String.length text =? 0)%nat; [apply appends_throw|].
  apply appends_bind; [apply Hparse|]. intros workoutData.
  apply appends_bind; [by apply progress_appends|]. intros _.
  apply appends_bind; [apply completedUpdatesOf_appends|]. intros updates.
  apply appends_bind; [by apply updateWorkout_appends|]. intros _.
  apply appends_bind; [by apply progress_appends|]. intros _.
  apply appends_bind; [apply Hfin|]. intros _. apply appends_ret.
Qed.

(** The [try] never sends a failure notice. *)
Lemma pipeline_appends_no_failure_notice w data :
  appends (fun ev => ¬ isFailureNotice ev) (pipeline w data).
Proof.
  unfold pipeline. apply appends_bind.
  - apply appends_weaken with (P := acquisitionEvent).
    + intros ev. destruct ev; simpl; tauto.
    + apply (acquireOf_appends Current).
  - intros [frames thumb].
    change (processFrames w data frames thumb)
      with (processFramesOf Current w data frames thumb).
    rewrite processFramesOf_generic.
    apply processFramesWith_appends; try (intros; simpl; tauto).
    + intros. apply parseWorkoutWithAI_appends. simpl. tauto.
    + intros. apply appends_emit. simpl. tauto.
Qed.

(** The input on which the code departs from C1: the extraction service
    answers 429 and the store refuses the handler's update.  The processor
    then returns no value; it throws the store's error. *)
Lemma rate_limit_with_store_down_throws : ¬ errorHandlingAsStated.
Proof.
  intros Hstated.
  pose proof (Hstated Scenario.throttledStoreDown Scenario.oneUpload
                Scenario.initial) as H.
  destruct (pipeline Scenario.throttledStoreDown Scenario.oneUpload
              (entered Scenario.initial)) as [s1 r] eqn:Hpipe.
  assert (Hr : r = Throw (newError "FFmpeg API error: 429 - Too Many Requests")).
  { change r with (s1, r).2. rewrite <- Hpipe. vm_compute. reflexivity. }
  subst r.
  assert (Hrow : is_Some (store Scenario.initial
                            !! workoutId Scenario.oneUpload))
    by (vm_compute; eauto).
  specialize (H s1 _ Hrow eq_refl). cbv zeta in H.
  change (isRateLimitError
            (newError "FFmpeg API error: 429 - Too Many Requests"))
    with true in H.
  destruct H as (_ & _ & r & Hr). vm_compute in Hr. discriminate.
Qed.

(** C1.  Let the [try] of a job raise an error.  No failure notice was
    sent before.  The handler then sends one update to the store: status
    'processing' with the rate-limit note when the message contains '429',
    and status 'failed' with the message as error detail (an empty message
    is falsy and is not sent) when it does not.  When the store accepts
    the update it is applied to the workout's row, and the processor
    returns the value [{ success: false, error: 'Rate limit - no auto
    retry' }] without any failure notice in the first case, and sends the
    failure notice and rethrows the error in the second: this is what the
    claim says.  The code departs from it when the store refuses the
    update: [updateWorkout] is awaited outside any [try], so nothing is
    stored or notified and the processor throws 'Supabase error: ' with
    the store's message, also from the rate-limit branch, which is meant
    not to throw. *)
Theorem handler_persists_by_error_class
  (w : World) (data : JobData) (s s1 : State) (e : Error) :
  pipeline w data (entered s) = (s1, Throw e) ->
  let out := processVideoJob w data s in
  let id := workoutId data in
  (∃ evs, trace s1 = trace s ++ evs
          ∧ Forall (fun ev => ¬ isFailureNotice ev) evs)
  ∧ handlerUpdate e !! "status"
    = Some (JStr (if Str.includes "429" (message e)
                  then "processing" else "failed"))
  ∧ (Str.includes "429" (message e) = false -> message e ≠ "" ->
     handlerUpdate e !! "processing_error" = Some (JStr (message e)))
  ∧ match supabaseUpdate w (trace s1) id (handlerUpdate e) with
    | None =>
        store out.1 = alter (applyUpdate (handlerUpdate e)) id (store s1)
        ∧ (if Str.includes "429" (message e)
           then trace out.1 = trace s1 ++ [EvUpdate id rateLimitUpdate]
                ∧ out.2 = Ok (JobSoftFailed "Rate limit - no auto retry")
           else trace out.1
                = trace s1 ++ [EvUpdate id (failedUpdate (message e));
                               EvNotify (userId data) (JStr "Workout") false]
                ∧ out.2 = Throw e)
    | Some msg =>
        trace out.1 = trace s1 ++ [EvUpdate id (handlerUpdate e)]
        ∧ store out.1 = store s1
        ∧ out.2 = Throw (newError ("Supabase error: " ++ msg))
    end.
Proof.
  intros Hpipe out id.
  split; [|split; [|split]].
  - destruct (appends_run _ _ _ _ _
                (pipeline_appends_no_failure_notice w data) Hpipe)
      as (evs & Ht & Hf).
    exists ([EvProgress 10] ++ evs). split.
    + rewrite Ht, entered_trace, <- app_assoc. reflexivity.
    + apply Forall_app. split; [repeat constructor; simpl; tauto|exact Hf].
  - unfold handlerUpdate, isRateLimitError.
    destruct (Str.includes "429" (message e)); [reflexivity|].
    unfold failedUpdate. destruct (String.eqb (message e) ""); reflexivity.
  - intros Hclass Hmsg. unfold handlerUpdate, isRateLimitError.
    rewrite Hclass. unfold failedUpdate.
    destruct (String.eqb_spec (message e) ""); [done|reflexivity].
  - by apply handled_run.
Qed.

Lemma handler_persists_by_error_class_witness :
  (∃ s1,
     pipeline Scenario.throttled Scenario.oneUpload (entered Scenario.initial)
     = (s1, Throw (newError "FFmpeg API error: 429 - Too Many Requests"))
     ∧ (processVideoJob Scenario.throttled Scenario.oneUpload Scenario.initial).2
       = Ok (JobSoftFailed "Rate limit - no auto retry")
     ∧ stored (processVideoJob Scenario.throttled Scenario.oneUpload
                 Scenario.initial).1 "w1" "status"
       = Some (JStr "processing"))
  ∧ (∃ s1,
       pipeline Scenario.throttledStoreDown Scenario.oneUpload
         (entered Scenario.initial)
       = (s1, Throw (newError "FFmpeg API error: 429 - Too Many Requests"))
       ∧ (processVideoJob Scenario.throttledStoreDown Scenario.oneUpload
            Scenario.initial).2
         = Throw (newError "Supabase error: connection refused")).
Proof.
  split.
  - destruct (pipeline Scenario.throttled Scenario.oneUpload
                (entered Scenario.initial)) as [s1 r] eqn:Hpipe.
    assert (Hr : r = Throw (newError "FFmpeg API error: 429 - Too Many Requests")).
    { change r with (s1, r).2. rewrite <- Hpipe. vm_compute. reflexivity. }
    subst r. exists s1. split; [reflexivity|].
    pose proof (handler_persists_by_error_class Scenario.throttled
                  Scenario.oneUpload Scenario.initial s1 _ Hpipe) as H.
    cbv zeta in H. destruct H as (_ & _ & _ & H).
    change (supabaseUpdate Scenario.throttled (trace s1)
              (workoutId Scenario.oneUpload)
              (handlerUpdate
                 (newError "FFmpeg API error: 429 - Too Many Requests")))
      with (@None string) in H.
    destruct H as (_ & H).
    change (Str.includes "429"
              (message (newError "FFmpeg API error: 429 - Too Many Requests")))
      with true in H.
    destruct H as (_ & Hout).
    split; [exact Hout|]. vm_compute. reflexivity.
  - destruct (pipeline Scenario.throttledStoreDown Scenario.oneUpload
                (entered Scenario.initial)) as [s1 r] eqn:Hpipe.
    assert (Hr : r = Throw (newError "FFmpeg API error: 429 - Too Many Requests")).
    { change r with (s1, r).2. rewrite <- Hpipe. vm_compute. reflexivity. }
    subst r. exists s1. split; [reflexivity|].
    pose proof (handler_persists_by_error_class Scenario.throttledStoreDown
                  Scenario.oneUpload Scenario.initial s1 _ Hpipe) as H.
    cbv zeta in H. destruct H as (_ & _ & _ & H).
    change (supabaseUpdate Scenario.throttledStoreDown (trace s1)
              (workoutId Scenario.oneUpload)
              (handlerUpdate
                 (newError "FFmpeg API error: 429 - Too Many Requests")))
      with (Some "connection refused") in H.
    destruct H as (_ & _ & Hout). exact Hout.
Defined.

(** ** Frames without text *)

Lemma onError_appends (P : Event -> Prop) w data e :
  (∀ updateData, P (EvUpdate (workoutId data) updateData)) ->
  (∀ name success, P (EvNotify (userId data) name success)) ->
  appends P (onError w data e).
Proof.
  intros Hupd Hnot. unfold onError, sendWorkoutProcessingNotification.
  destruct (isRateLimitError e).
  - apply appends_bind; [by apply updateWorkout_appends|]. intros _.
    apply appends_ret.
  - apply appends_bind; [by apply updateWorkout_appends|]. intros _.
    apply appends_bind; [by apply appends_emit|]. intros _.
    apply appends_throw.
Qed.

(** C4.  A pass of [extractTextFromFrames] over a frame sequence never
    raises, and it returns the empty string exactly when every answer that
    the vision model gives in that pass is a failure (rejected request,
    non-success status, unreadable body, content that is not text) or
    white space only, the white space being what [trim] strips.  When the
    job's acquisition has pooled the sequence, it is not empty, and every
    answer of the pass that follows is of this kind, the [try] ends right
    after the progress report 75 by raising 'No text extracted from video
    frames', and in the whole run of the job, handler included, no request
    is made to the synthesizer. *)
Theorem fruitless_frames_abort_before_synthesis
  (w : World) (data : JobData) (s s1 : State)
  (frames : list string) (thumbnailFrame : option string) :
  (∀ key s0,
     ∃ text,
       (extractTextFromFrames w frames key s0).2 = Ok text
       ∧ (text = "" ↔ Forall fruitless (answers "low" w key frames (trace s0))))
  ∧ (acquireFrames w data (entered s) = (s1, Ok (frames, thumbnailFrame)) ->
     frames ≠ [] ->
     Forall fruitless (answers "low" w (openAIKey data) frames (trace s1)) ->
     ∃ s2,
       pipeline w data (entered s)
       = (s2, Throw (newError "No text extracted from video frames"))
       ∧ trace s2 = trace s1
                    ++ (visionEvent "low" (openAIKey data) <$> frames)
                    ++ [EvProgress 75]
       ∧ ∃ evs, trace (processVideoJob w data s).1 = trace s ++ evs
                ∧ Forall (fun ev => ¬ isSynthesize ev) evs).
Proof.
  split.
  - intros key s0. unfold extractTextFromFrames. rewrite extractTextWith_run.
    eexists. split; [reflexivity|]. apply joined_empty_iff.
  - intros Hacq Hne Hall.
    assert (Hpipe : pipeline w data (entered s)
                    = (askedAt s1 (openAIKey data) frames,
                       Throw (newError "No text extracted from video frames"))).
    { unfold pipeline. rewrite (bind_ok _ _ _ _ _ Hacq).
      rewrite processFrames_run by done.
      apply joined_empty_iff in Hall. unfold extractedTextOf.
      by rewrite Hall. }
    eexists. split; [exact Hpipe|]. split; [reflexivity|].
    destruct (appends_run _ _ _ _ _ (acquireOf_appends Current w data) Hacq)
      as (acq & Tacq & Facq).
    rewrite processVideoJob_run, Hpipe.
    match goal with
    | |- context [onError w data ?e ?st] =>
        destruct (onError_appends (fun ev => ¬ isSynthesize ev) w data e
                    ltac:(intros; simpl; tauto) ltac:(intros; simpl; tauto) st)
          as (hev & Thev & Fhev)
    end.
    eexists. split.
    + rewrite Thev. cbn [trace askedAt]. rewrite Tacq, entered_trace, <- !app_assoc.
      reflexivity.
    + rewrite !Forall_app. repeat split.
      * repeat constructor. simpl. tauto.
      * eapply Forall_impl; [exact Facq|]. intros ev. destruct ev; simpl; tauto.
      * apply Forall_fmap, Forall_forall. intros; simpl; tauto.
      * repeat constructor. simpl. tauto.
      * exact Fhev.
Qed.

Lemma blind_is_fruitless h request :
  fruitless (visionModel Scenario.blind h request).
Proof.
  change (visionModel Scenario.blind h request)
    with (Scenario.visionBlind h request).
  unfold Scenario.visionBlind.
  destruct (String.eqb (vr_url request) "data:image/png;base64,TWFu");
    [exact I|].
  destruct (String.eqb (vr_url request) "data:image/png;base64,ZA==");
    [reflexivity|exact I].
Qed.

Lemma fruitless_frames_abort_before_synthesis_witness :
  (extractTextFromFrames Scenario.blind
     [ "data:image/png;base64,TWFu"; "data:image/png;base64,ZA==";
       "data:image/png;base64,Zw==" ] "sk-test" Scenario.initial).2 = Ok ""
  ∧ (∃ s2, pipeline Scenario.blind Scenario.oneUpload (entered Scenario.initial)
           = (s2, Throw (newError "No text extracted from video frames")))
  ∧ (processVideoJob Scenario.blind Scenario.oneUpload Scenario.initial).2
    = Throw (newError "No text extracted from video frames").
Proof.
  destruct (acquireFrames Scenario.blind Scenario.oneUpload
              (entered Scenario.initial)) as [s1 r] eqn:Hacq.
  assert (Hr : r = Ok ([ "data:image/png;base64,TWFu";
                         "data:image/png;base64,ZA==";
                         "data:image/png;base64,Zw==" ],
                       Some "data:image/png;base64,TWFu")).
  { change r with (s1, r).2. rewrite <- Hacq. vm_compute. reflexivity. }
  subst r.
  destruct (fruitless_frames_abort_before_synthesis Scenario.blind
              Scenario.oneUpload Scenario.initial s1
              [ "data:image/png;base64,TWFu"; "data:image/png;base64,ZA==";
                "data:image/png;base64,Zw==" ]
              (Some "data:image/png;base64,TWFu"))
    as (Htext & Habort).
  split; [|split; [|vm_compute; reflexivity]].
  - destruct (Htext "sk-test" Scenario.initial) as (text & Hout & Hempty).
    rewrite Hout. f_equal. apply Hempty.
    repeat constructor; apply blind_is_fruitless.
  - destruct (Habort Hacq) as (s2 & Hpipe & _); [discriminate| |by exists s2].
    repeat constructor; apply blind_is_fruitless.
Defined.

(** ** The synthesizer's failures *)

(** A failure of the synthesizer is what the [try] raises. *)
Lemma synthesis_failure_ends_try w data s0 s1 frames thumbnailFrame s3 e :
  acquireFrames w data (entered s0) = (s1, Ok (frames, thumbnailFrame)) ->
  frames ≠ [] ->
  extractedTextOf w (openAIKey data) frames s1 ≠ "" ->
  parseWorkoutWithAI w (caption data)
    (extractedTextOf w (openAIKey data) frames s1) (openAIKey data)
    (askedAt s1 (openAIKey data) frames) = (s3, Throw e) ->
  pipeline w data (entered s0) = (s3, Throw e).
Proof.
  intros Hacq Hne Htext Hparse.
  unfold pipeline. rewrite (bind_ok _ _ _ _ _ Hacq).
  rewrite processFrames_run by done.
  destruct (String.length _ =? 0)%nat eqn:Hlen.
  - by apply length_zero_iff in Hlen.
  - by rewrite (bind_throw _ _ _ _ _ Hparse).
Qed.

(** C7, amended.  A non-success response makes [parseWorkoutWithAI] fail:
    with a TypeError when its body is the JSON value [null]; otherwise
    with 'OpenAI API error: ', the status and the message found in the
    body (or the status text), and with a TypeError when that message has
    no conversion to a string.  A success response whose content holds no
    opening brace with a closing brace after it fails with 'Failed to parse
    workout data from AI response'.  Otherwise the text from the first
    opening brace to the last closing brace is parsed; a parse error is
    passed on, and when the text parses, the object is returned if its
    [exercises] is an array, and the call fails with 'Invalid workout
    structure from AI' if not.  The two TypeErrors and the last two
    failures are never classified as rate limits; the 'OpenAI API error'
    is one exactly when its message contains '429', which it does whenever
    the status is 429.  In a run of the job, when the synthesizer is asked
    and fails with an error, the [try] ends with that error and the
    handler treats it by its class: for a rate limit it sends the
    rate-limit update and, the store accepting, returns the soft outcome
    without any failure notice; for any other error it sends status
    'failed' with the message and, the store accepting, sends the failure
    notice and rethrows the error. *)
Theorem parseWorkoutWithAI_failures_and_their_class
  (w : World) (captionText extractedText apiKey : string) (s : State) :
  let reply := languageModel w (trace s) (synthPrompt captionText extractedText) in
  let out := (parseWorkoutWithAI w captionText extractedText apiKey s).2 in
  (∀ status statusText errorData,
     reply = SynthStatus status statusText errorData ->
     match errorData with
     | Some JNull => out = Throw nullBodyError
     | _ =>
         let errorMessage :=
           synthErrorMessage (default (JObj []) errorData) statusText in
         if Js.renders errorMessage
         then
           let e := newError ("OpenAI API error: " ++ Str.ofN status ++ " - "
                              ++ Js.toString errorMessage) in
           out = Throw e ∧ SynthesisFailure e
           ∧ (status = 429%N -> isRateLimitError e = true)
         else out = Throw primitiveError
     end)
  ∧ (∀ content text,
       reply = SynthContent content -> Js.or content (JStr "") = JStr text ->
       ¬ hasSpan text ->
       out = Throw (newError "Failed to parse workout data from AI response"))
  ∧ (∀ content (pre mid post : string),
       reply = SynthContent content ->
       Js.or content (JStr "")
       = JStr (pre ++ String openBrace (mid ++ String closeBrace post)) ->
       lacks openBrace pre -> lacks closeBrace post ->
       out = match jsonParse w (String openBrace (mid ++ String closeBrace "")) with
             | Throw e => Throw e
             | Ok props =>
                 if Js.isArray (Js.get (JObj props) "exercises")
                 then Ok (JObj props)
                 else Throw (newError "Invalid workout structure from AI")
             end)
  ∧ (∀ e, e = newError "Failed to parse workout data from AI response"
          ∨ e = newError "Invalid workout structure from AI"
          ∨ e = nullBodyError ∨ e = primitiveError ->
       isRateLimitError e = false)
  ∧ (∀ data s0 s1 frames thumbnailFrame s3 e,
       acquireFrames w data (entered s0) = (s1, Ok (frames, thumbnailFrame)) ->
       frames ≠ [] ->
       let key := openAIKey data in
       let text := extractedTextOf w key frames s1 in
       text ≠ "" ->
       parseWorkoutWithAI w (caption data) text key (askedAt s1 key frames)
       = (s3, Throw e) ->
       let run := processVideoJob w data s0 in
       let id := workoutId data in
       pipeline w data (entered s0) = (s3, Throw e)
       ∧ match supabaseUpdate w (trace s3) id (handlerUpdate e) with
         | None =>
             store run.1 = alter (applyUpdate (handlerUpdate e)) id (store s3)
             ∧ (if isRateLimitError e
                then trace run.1 = trace s3 ++ [EvUpdate id rateLimitUpdate]
                     ∧ run.2 = Ok (JobSoftFailed "Rate limit - no auto retry")
                else trace run.1
                     = trace s3 ++ [EvUpdate id (failedUpdate (message e));
                                    EvNotify (userId data) (JStr "Workout") false]
                     ∧ run.2 = Throw e)
         | Some msg =>
             trace run.1 = trace s3 ++ [EvUpdate id (handlerUpdate e)]
             ∧ store run.1 = store s3
             ∧ run.2 = Throw (newError ("Supabase error: " ++ msg))
         end).
Proof.
  intros reply out.
  assert (Hout : out = (parseWorkoutWithAI w captionText extractedText apiKey s).2)
    by reflexivity.
  rewrite parseWorkoutWithAI_run in Hout. cbn [snd] in Hout. fold reply in Hout.
  split; [|split; [|split; [|split]]].
  - intros status statusText errorData Hreply.
    rewrite Hreply in Hout.
    destruct errorData as [[]|]; cbn [default id] in *; cbv zeta in *;
      try exact Hout;
      match goal with
      | |- context [Js.renders ?m] => destruct (Js.renders m)
      end;
      try exact Hout;
      (split; [exact Hout|]; split; [constructor|];
       intros ->; unfold isRateLimitError; simpl message;
       change (Str.ofN 429) with "429";
       apply (includes_app "429" "OpenAI API error: ")).
  - intros content text Hreply Htext Hspan.
    rewrite Hout, Hreply, parseContent_run, Htext. simpl.
    by rewrite (proj2 (matchBraces_None text) Hspan).
  - intros content pre mid post Hreply Htext Hpre Hpost.
    rewrite Hout, Hreply, parseContent_run, Htext. simpl.
    by rewrite matchBraces_span.
  - intros e [->|[->|[->| ->]]]; vm_compute; reflexivity.
  - intros data s0 s1 frames thumbnailFrame s3 e Hacq Hne key text Htext
      Hparse run id.
    assert (Hpipe : pipeline w data (entered s0) = (s3, Throw e))
      by (by eapply synthesis_failure_ends_try).
    split; [exact Hpipe|]. exact (handled_run w data s0 s3 e Hpipe).
Qed.

Lemma parseWorkoutWithAI_failures_and_their_class_witness :
  (parseWorkoutWithAI Scenario.rateLimited "Leg day!" "Squat 3 x 10" "sk-test"
     Scenario.initial).2
  = Throw (newError "OpenAI API error: 429 - Rate limit reached for gpt-4o-mini")
  ∧ isRateLimitError
      (newError "OpenAI API error: 429 - Rate limit reached for gpt-4o-mini")
    = true
  ∧ (parseWorkoutWithAI Scenario.nullBody "Leg day!" "Squat 3 x 10" "sk-test"
       Scenario.initial).2
    = Throw nullBodyError
  ∧ (parseWorkoutWithAI Scenario.happy "Leg day!" "Squat 3 x 10" "sk-test"
       Scenario.initial).2
    = Ok Scenario.legDay
  ∧ (processVideoJob Scenario.rateLimited Scenario.oneUpload Scenario.initial).2
    = Ok (JobSoftFailed "Rate limit - no auto retry")
  ∧ (processVideoJob Scenario.nullBody Scenario.oneUpload Scenario.initial).2
    = Throw nullBodyError.
Proof.
  pose proof (parseWorkoutWithAI_failures_and_their_class Scenario.rateLimited
                "Leg day!" "Squat 3 x 10" "sk-test" Scenario.initial) as H.
  cbv zeta in H. destruct H as (Hcall & _ & _ & _ & Hrun).
  specialize (Hcall 429%N "Too Many Requests" _ eq_refl).
  cbv beta iota zeta in Hcall.
  change (Js.renders _) with true in Hcall.
  destruct Hcall as (Hout & _ & Hrate).
  split; [exact Hout|]. split; [exact (Hrate eq_refl)|].
  pose proof (parseWorkoutWithAI_failures_and_their_class Scenario.nullBody
                "Leg day!" "Squat 3 x 10" "sk-test" Scenario.initial) as H.
  cbv zeta in H. destruct H as (Hnull & _ & _ & _ & Hrun').
  split; [exact (Hnull 429%N "Too Many Requests" _ eq_refl)|].
  pose proof (parseWorkoutWithAI_failures_and_their_class Scenario.happy
                "Leg day!" "Squat 3 x 10" "sk-test" Scenario.initial) as H.
  cbv zeta in H. destruct H as (_ & _ & Hparsed & _).
  split.
  { rewrite (Hparsed _ "Here you go: "
               "'name':'Leg Day','exercises':[{'name':'Squat','reps':'10','sets':'3','notes':''}],'duration':'30 min','difficulty':'Intermediate','notes':'great session'"
               " enjoy" eq_refl).
    - reflexivity.
    - reflexivity.
    - vm_compute. repeat split; discriminate.
    - vm_compute. repeat split; discriminate. }
  split.
  - destruct (acquireFrames Scenario.rateLimited Scenario.oneUpload
                (entered Scenario.initial)) as [s1 r] eqn:Hacq.
    assert (Hr : r = Ok ([ "data:image/png;base64,TWFu";
                           "data:image/png;base64,ZA==";
                           "data:image/png;base64,Zw==" ],
                         Some "data:image/png;base64,TWFu")).
    { change r with (s1, r).2. rewrite <- Hacq. vm_compute. reflexivity. }
    subst r.
    destruct (parseWorkoutWithAI Scenario.rateLimited
                (caption Scenario.oneUpload)
                (extractedTextOf Scenario.rateLimited
                   (openAIKey Scenario.oneUpload)
                   [ "data:image/png;base64,TWFu"; "data:image/png;base64,ZA==";
                     "data:image/png;base64,Zw==" ] s1)
                (openAIKey Scenario.oneUpload)
                (askedAt s1 (openAIKey Scenario.oneUpload)
                   [ "data:image/png;base64,TWFu"; "data:image/png;base64,ZA==";
                     "data:image/png;base64,Zw==" ])) as [s3 r3] eqn:Hparse.
    assert (Hr3 : r3 = Throw (newError
              "OpenAI API error: 429 - Rate limit reached for gpt-4o-mini")).
    { change r3 with (s3, r3).2. rewrite <- Hparse. vm_compute. reflexivity. }
    subst r3.
    destruct (Hrun Scenario.oneUpload Scenario.initial s1 _ _ s3
                (newError
                   "OpenAI API error: 429 - Rate limit reached for gpt-4o-mini")
                Hacq)
      as (_ & Hhandled); [discriminate|vm_compute; discriminate|exact Hparse|].
    change (supabaseUpdate Scenario.rateLimited (trace s3)
              (workoutId Scenario.oneUpload)
              (handlerUpdate (newError
                 "OpenAI API error: 429 - Rate limit reached for gpt-4o-mini")))
      with (@None string) in Hhandled.
    destruct Hhandled as (_ & Hhandled).
    change (isRateLimitError (newError
              "OpenAI API error: 429 - Rate limit reached for gpt-4o-mini"))
      with true in Hhandled.
    exact (proj2 Hhandled).
  - destruct (acquireFrames Scenario.nullBody Scenario.oneUpload
                (entered Scenario.initial)) as [s1 r] eqn:Hacq.
    assert (Hr : r = Ok ([ "data:image/png;base64,TWFu";
                           "data:image/png;base64,ZA==";
                           "data:image/png;base64,Zw==" ],
                         Some "data:image/png;base64,TWFu")).
    { change r with (s1, r).2. rewrite <- Hacq. vm_compute. reflexivity. }
    subst r.
    destruct (parseWorkoutWithAI Scenario.nullBody
                (caption Scenario.oneUpload)
                (extractedTextOf Scenario.nullBody
                   (openAIKey Scenario.oneUpload)
                   [ "data:image/png;base64,TWFu"; "data:image/png;base64,ZA==";
                     "data:image/png;base64,Zw==" ] s1)
                (openAIKey Scenario.oneUpload)
                (askedAt s1 (openAIKey Scenario.oneUpload)
                   [ "data:image/png;base64,TWFu"; "data:image/png;base64,ZA==";
                     "data:image/png;base64,Zw==" ])) as [s3 r3] eqn:Hparse.
    assert (Hr3 : r3 = Throw nullBodyError).
    { change r3 with (s3, r3).2. rewrite <- Hparse. vm_compute. reflexivity. }
    subst r3.
    destruct (Hrun' Scenario.oneUpload Scenario.initial s1 _ _ s3
                nullBodyError Hacq)
      as (_ & Hhandled); [discriminate|vm_compute; discriminate|exact Hparse|].
    change (supabaseUpdate Scenario.nullBody (trace s3)
              (workoutId Scenario.oneUpload) (handlerUpdate nullBodyError))
      with (@None string) in Hhandled.
    destruct Hhandled as (_ & Hhandled).
    change (isRateLimitError nullBodyError) with false in Hhandled.
    exact (proj2 Hhandled).
Defined.

(** * Further properties of the processor *)

(** ** Sequences picked out of the trace *)

Section Follows.

Context {X : Type} (pick : Event -> option X).

Lemma picked_none evs :
  Forall (fun ev => pick ev = None) evs -> omap pick evs = [].
Proof.
  induction 1 as [|ev evs Hev _ IH]; [reflexivity|].
  simpl. by rewrite Hev.
Qed.

Lemma follows_ret {A : Type} (a : A) : follows pick [] (mret a).
Proof.
  intros s. exists []. simpl. rewrite app_nil_r. by repeat split.
Qed.

Lemma follows_throw {A : Type} l e : follows pick l (@throw A e).
Proof.
  intros s. exists []. simpl. rewrite app_nil_r.
  repeat split; [apply prefix_nil | discriminate].
Qed.

Lemma follows_emit ev x : pick ev = Some x -> follows pick [x] (emit ev).
Proof.
  intros H s. exists [ev]. simpl. rewrite H. by repeat split.
Qed.

(** A computation that adds nothing [pick] sees. *)
Lemma follows_silent {A : Type} (m : M A) :
  appends (fun ev => pick ev = None) m -> follows pick [] m.
Proof.
  intros Hm s. destruct (Hm s) as (evs & Ht & Hnone).
  exists evs. rewrite (picked_none _ Hnone). by repeat split.
Qed.

Lemma follows_bind {A B : Type} l1 l2 (m : M A) (f : A -> M B) :
  follows pick l1 m -> (∀ a, follows pick l2 (f a)) ->
  follows pick (l1 ++ l2) (m ≫= f).
Proof.
  intros Hm Hf s. rewrite bind_run.
  destruct (Hm s) as (evs1 & Ht1 & Hpre1 & Hok1).
  destruct (m s) as [s1 [a|e]]; simpl in *.
  - destruct (Hf a s1) as (evs2 & Ht2 & Hpre2 & Hok2).
    exists (evs1 ++ evs2). rewrite Ht2, Ht1, <- app_assoc, omap_app.
    rewrite (Hok1 a eq_refl).
    repeat split.
    + destruct Hpre2 as [k ->]. exists k. by rewrite <- app_assoc.
    + intros b Hb. f_equal. by apply (Hok2 b).
  - exists evs1. repeat split; [done| |discriminate].
    by apply prefix_app_r.
Qed.

Lemma follows_then {A B : Type} l (m : M A) (f : A -> M B) :
  follows pick [] m -> (∀ a, follows pick l (f a)) -> follows pick l (m ≫= f).
Proof. intros Hm Hf. by apply (follows_bind [] l). Qed.

(** A handler that never ends well and adds nothing [pick] sees. *)
Lemma follows_tryCatch {A : Type} l (body : M A) (handler : Error -> M A) :
  follows pick l body ->
  (∀ e, appends (fun ev => pick ev = None) (handler e)) ->
  (∀ e s s' a, handler e s ≠ (s', Ok a)) ->
  follows pick l (tryCatch body handler).
Proof.
  intros Hm Hh Hnever s. unfold tryCatch.
  destruct (Hm s) as (evs1 & Ht1 & Hpre1 & Hok1).
  destruct (body s) as [s1 [a|e]]; simpl in *.
  - exists evs1. by repeat split.
  - destruct (Hh e s1) as (evs2 & Ht2 & Hnone).
    exists (evs1 ++ evs2).
    rewrite Ht2, Ht1, <- app_assoc, omap_app, (picked_none _ Hnone), app_nil_r.
    repeat split; [done|].
    intros a Ha. destruct (handler e s1) as [s2 r] eqn:Hrun.
    simpl in Ha. subst r. by destruct (Hnever e s1 s2 a).
Qed.

End Follows.

(** What the stages add to the trace, for any property of events. *)

Lemma extractFrames_emits (P : Event -> Prop) w videoPath :
  P (EvExtract videoPath) -> appends P (extractFrames w videoPath).
Proof.
  intros HP s. rewrite extractFrames_run. cbv zeta.
  exists [EvExtract videoPath]. split; [|by repeat constructor].
  destruct (extractService w (trace s) videoPath); try reflexivity.
  destruct (pngNames files); reflexivity.
Qed.

Lemma unlinkFile_emits (P : Event -> Prop) w videoPath :
  P (EvUnlink videoPath) -> appends P (unlinkFile w videoPath).
Proof.
  intros HP. unfold unlinkFile.
  apply appends_bind; [apply appends_history|]. intros h.
  apply appends_bind; [by apply appends_emit|]. intros _.
  destruct (unlink w h videoPath); auto with appends.
Qed.

Lemma downloadWith_emits (P : Event -> Prop) headers w url :
  (∀ h ms, P (EvFetchVideo url h ms)) -> (∀ path, P (EvWriteFile path)) ->
  appends P (downloadWith headers w url).
Proof.
  intros Hfetch Hwrite. unfold downloadWith, fetchWithTimer, readBody.
  apply appends_tryCatch.
  - apply appends_bind.
    + apply appends_bind; [apply appends_history|]. intros h.
      apply appends_bind; [by apply appends_emit|]. intros _.
      destruct (fetchVideo w h url) as [ms e|ms ok status body];
        destruct (ms <? abortAfterMs)%N;
        (apply appends_bind; [apply appends_wait|]; intros _;
         auto with appends).
    + intros [[ok status] body].
      destruct (negb ok); [apply appends_throw|].
      apply appends_bind.
      { destruct body; auto with appends. }
      intros _. apply appends_bind; [apply appends_history|]. intros h.
      apply appends_bind; [by apply appends_emit|]. intros _.
      destruct (writeFile w h _); auto with appends.
  - intros e. destruct (String.eqb (name e) "AbortError"); auto with appends.
Qed.

(** ** The progress reports of a run *)

Lemma filesLoop_reports w total files : ∀ i acc,
  follows pickProgress (extractedMark total <$> seq (i + 1) (List.length files))
    (filesLoop w total i files acc).
Proof.
  induction files as [|videoPath rest IH]; intros i acc; simpl.
  - apply follows_ret.
  - apply follows_then.
    { apply follows_silent. by apply extractFrames_emits. }
    intros [frames first].
    apply (follows_bind _ [extractedMark total (i + 1)]).
    { by apply follows_emit. }
    intros _. apply follows_then.
    { apply follows_silent. by apply unlinkFile_emits. }
    intros _. replace (S (i + 1)) with (i + 1 + 1)%nat by lia. apply IH.
Qed.

Lemma urlsLoop_reports w src total filesLength urls : ∀ i acc,
  follows pickProgress
    (List.flat_map (fun v => [downloadedMark total v; extractedMark total v])
       (seq (filesLength + i + 1) (List.length urls)))
    (urlsLoop w src total filesLength i urls acc).
Proof.
  induction urls as [|url rest IH]; intros i acc; simpl.
  - apply follows_ret.
  - apply follows_then.
    { apply follows_silent. unfold downloadVideo. by apply downloadWith_emits. }
    intros videoPath.
    apply (follows_bind _ [downloadedMark total (filesLength + i + 1)]).
    { by apply follows_emit. }
    intros _. apply follows_then.
    { apply follows_silent. by apply extractFrames_emits. }
    intros [frames first].
    apply (follows_bind _ [extractedMark total (filesLength + i + 1)]).
    { by apply follows_emit. }
    intros _. apply follows_then.
    { apply follows_silent. by apply unlinkFile_emits. }
    intros _.
    replace (S (filesLength + i + 1)) with (filesLength + (i + 1) + 1)%nat by lia.
    apply IH.
Qed.

Lemma acquireFrames_reports w data :
  let files := List.length (jobFiles data) in
  let urls := List.length (jobUrls data) in
  follows pickProgress
    ((extractedMark (files + urls) <$> seq 1 files)
     ++ List.flat_map (fun v => [downloadedMark (files + urls) v;
                                 extractedMark (files + urls) v])
          (seq (files + 1) urls))
    (acquireFrames w data).
Proof.
  cbv zeta. unfold acquireFrames. apply follows_bind.
  - apply (filesLoop_reports w _ (jobFiles data) 0).
  - intros acc.
    replace (List.length (jobFiles data) + 1)%nat
      with (List.length (jobFiles data) + 0 + 1)%nat by lia.
    apply urlsLoop_reports.
Qed.

Lemma processFramesWith_reports detail parse finish noFrames
  w data frames thumbnailFrame :
  (∀ caption text key,
     appends (fun ev => pickProgress ev = None) (parse w caption text key)) ->
  (∀ workoutData,
     appends (fun ev => pickProgress ev = None) (finish data workoutData)) ->
  follows pickProgress [75; 90; 100]%Q
    (processFramesWith detail parse finish noFrames w data frames thumbnailFrame).
Proof.
  intros Hparse Hfinish. unfold processFramesWith.
  destruct (List.length frames =? 0)%nat; [apply follows_throw|].
  apply follows_then.
  { apply follows_silent. by apply extractTextWith_appends. }
  intros text. apply (follows_bind _ [75%Q] [90; 100]%Q).
  { by apply follows_emit. }
  intros _. destruct (String.length text =? 0)%nat; [apply follows_throw|].
  apply follows_then; [by apply follows_silent|]. intros workoutData.
  apply (follows_bind _ [90%Q] [100%Q]).
  { by apply follows_emit. }
  intros _. apply follows_then.
  { apply follows_silent. apply completedUpdatesOf_appends. }
  intros updates. apply follows_then.
  { apply follows_silent. by apply updateWorkout_appends. }
  intros _. apply (follows_bind _ [100%Q] []).
  { by apply follows_emit. }
  intros _. apply follows_then; [by apply follows_silent|].
  intros _. apply follows_ret.
Qed.

Lemma processFramesOf_reports v w data frames thumbnailFrame :
  follows pickProgress [75; 90; 100]%Q
    (processFramesOf v w data frames thumbnailFrame).
Proof.
  rewrite processFramesOf_generic. destruct v.
  - apply processFramesWith_reports.
    + intros. by apply parseWorkoutWithAI_appends.
    + intros. by apply appends_emit.
  - apply processFramesWith_reports.
    + intros. by apply legacy_parseWorkoutWithAI_appends.
    + intros. apply appends_ret.
Qed.

Lemma pipeline_reports w data :
  follows pickProgress (tail (schedule data)) (pipeline w data).
Proof.
  unfold schedule, pipeline. cbv zeta. simpl tail. rewrite app_assoc.
  apply follows_bind; [apply acquireFrames_reports|].
  intros [frames thumb]. apply (processFramesOf_reports Current).
Qed.

Lemma legacy_pipeline_reports w data :
  follows pickProgress [25; 50; 75; 90; 100]%Q (Legacy.pipeline w data).
Proof.
  unfold Legacy.pipeline, Legacy.acquireFrames.
  apply (follows_bind _ [25; 50]%Q [75; 90; 100]%Q).
  - apply follows_then.
    { apply follows_silent. destruct (videoUrl data).
      - unfold Legacy.downloadVideo. by apply downloadWith_emits.
      - apply appends_throw. }
    intros videoPath. apply (follows_bind _ [25%Q] [50%Q]).
    { by apply follows_emit. }
    intros _. apply follows_then.
    { apply follows_silent. by apply extractFrames_emits. }
    intros [frames first]. apply (follows_bind _ [50%Q] []).
    { by apply follows_emit. }
    intros _. apply follows_then.
    { apply follows_silent. by apply unlinkFile_emits. }
    intros _. apply follows_ret.
  - intros [frames first]. apply (processFramesOf_reports Earlier).
Qed.

Lemma legacy_onError_appends (P : Event -> Prop) w data e :
  (∀ updateData, P (EvUpdate (workoutId data) updateData)) ->
  appends P (Legacy.onError w data e).
Proof.
  intros Hupd. unfold Legacy.onError.
  destruct (isRateLimitError e); [apply appends_throw|].
  apply appends_bind; [by apply updateWorkout_appends|]. intros _.
  apply appends_throw.
Qed.

(** *** The marks *)

Ltac clear_denominator HT :=
  unfold extractedMark, downloadedMark, num in *;
  match type of HT with
  | (0 < ?d)%Q =>
      first [ apply Qmult_le_r with (z := d); [exact HT|]
            | apply Qmult_lt_r with (z := d); [exact HT|] ]
  end;
  rewrite ?Qmult_plus_distr_l;
  unfold Qdiv; rewrite <- ?Qmult_assoc;
  rewrite ?(Qmult_comm (/ inject_Z (Z.of_nat _)));
  rewrite ?Qmult_inv_r
    by (let H := fresh in intros H; rewrite H in HT; by apply Qlt_irrefl in HT);
  rewrite ?Qmult_1_r;
  change 10%Q with (inject_Z 10); change 25%Q with (inject_Z 25);
  change 15%Q with (inject_Z 15); change 50%Q with (inject_Z 50);
  rewrite <- ?inject_Z_mult, <- ?inject_Z_plus;
  first [ rewrite <- Zle_Qle | rewrite <- Zlt_Qlt ]; lia.

Lemma num_pos (total : nat) : (0 < total)%nat -> (0 < num total)%Q.
Proof.
  intros H. unfold num. change 0%Q with (inject_Z 0). rewrite <- Zlt_Qlt. lia.
Qed.

Lemma extractedMark_range total v :
  (1 <= v)%nat -> (v <= total)%nat ->
  (25 <= extractedMark total v)%Q ∧ (extractedMark total v <= 50)%Q.
Proof.
  intros Hv Ht. assert (HT := num_pos total ltac:(lia)).
  split; clear_denominator HT.
Qed.

Lemma downloadedMark_range total v :
  (1 <= v)%nat -> (v <= total)%nat ->
  (10 <= downloadedMark total v)%Q ∧ (downloadedMark total v <= 25)%Q.
Proof.
  intros Hv Ht. assert (HT := num_pos total ltac:(lia)).
  split; clear_denominator HT.
Qed.

Lemma extractedMark_mono total v v' :
  (0 < total)%nat -> (v <= v')%nat ->
  (extractedMark total v <= extractedMark total v')%Q.
Proof.
  intros Ht Hv. assert (HT := num_pos total Ht). clear_denominator HT.
Qed.

Lemma downloaded_le_extracted total v :
  (0 < total)%nat ->
  (downloadedMark total v <= extractedMark total v)%Q.
Proof.
  intros Ht. assert (HT := num_pos total Ht). clear_denominator HT.
Qed.

Lemma next_downloadedMark_is_lower total v :
  (1 <= v)%nat -> (v < total)%nat ->
  (downloadedMark total (v + 1) < extractedMark total v)%Q.
Proof. apply next_download_report_is_lower. Qed.

(** *** Lists that climb *)

Lemma climbs_bounds lo l hi : climbs lo l hi -> (lo <= hi)%Q.
Proof.
  revert lo. induction l as [|p l IH]; intros lo; simpl; [done|].
  intros [Hlo Hrest]. apply Qle_trans with p; auto.
Qed.

Lemma climbs_lower lo lo' l hi :
  (lo' <= lo)%Q -> climbs lo l hi -> climbs lo' l hi.
Proof.
  destruct l as [|p l]; simpl.
  - intros. by apply Qle_trans with lo.
  - intros ? [? ?]. split; [|done]. by apply Qle_trans with lo.
Qed.

Lemma climbs_app lo mid hi l1 l2 :
  climbs lo l1 mid -> climbs mid l2 hi -> climbs lo (l1 ++ l2) hi.
Proof.
  revert lo. induction l1 as [|p l1 IH]; intros lo; simpl.
  - intros. by apply climbs_lower with mid.
  - intros [? ?] ?. split; [done|]. by apply IH.
Qed.

Lemma climbs_nonDecreasing lo l hi : climbs lo l hi -> nonDecreasing l.
Proof.
  revert lo. induction l as [|p l IH]; intros lo Hl i x y Hx Hy; [done|].
  destruct Hl as [_ Hl]. destruct i as [|i]; simpl in *.
  - injection Hx as <-. destruct l as [|q l]; [done|].
    injection Hy as <-. by destruct Hl.
  - by apply (IH p Hl i).
Qed.

Lemma climbs_within lo l hi :
  climbs lo l hi -> Forall (fun p => (lo <= p)%Q ∧ (p <= hi)%Q) l.
Proof.
  revert lo. induction l as [|p l IH]; intros lo; simpl; [constructor|].
  intros [Hlo Hl]. constructor.
  - split; [done|]. by apply climbs_bounds with l.
  - eapply Forall_impl; [by apply IH|]. simpl.
    intros q [? ?]. split; [|done]. by apply Qle_trans with p.
Qed.

Lemma nonDecreasing_prefix l1 l2 :
  l1 `prefix_of` l2 -> nonDecreasing l2 -> nonDecreasing l1.
Proof.
  intros [k ->] H i p q Hp Hq.
  apply (H i); by apply lookup_app_l_Some.
Qed.

Lemma nonDecreasing_adjacent (a b : list Q) x y :
  nonDecreasing (a ++ x :: y :: b) -> (x <= y)%Q.
Proof.
  intros H. apply (H (List.length a)).
  - by rewrite list_lookup_middle.
  - rewrite (cons_middle x a), app_assoc.
    rewrite list_lookup_middle; [done|].
    rewrite length_app. simpl. lia.
Qed.

(** *** The schedule *)

Lemma fileMarks_climb total n : ∀ i,
  (i + n <= total)%nat -> (0 < total)%nat ->
  climbs (extractedMark total i) (extractedMark total <$> seq (i + 1) n)
    (extractedMark total (i + n)).
Proof.
  induction n as [|n IH]; intros i Hi Ht; simpl.
  - rewrite Nat.add_0_r. apply Qle_refl.
  - split; [apply extractedMark_mono; lia|].
    replace (i + S n)%nat with (i + 1 + n)%nat by lia.
    replace (S (i + 1)) with (i + 1 + 1)%nat by lia.
    apply IH; lia.
Qed.

Lemma schedule_within data :
  Forall (fun p => (10 <= p)%Q ∧ (p <= 100)%Q) (schedule data).
Proof.
  unfold schedule. cbv zeta.
  set (files := List.length (jobFiles data)).
  set (urls := List.length (jobUrls data)).
  constructor; [by split|].
  rewrite !Forall_app. repeat split.
  - apply Forall_fmap, Forall_forall. intros v Hv.
    apply elem_of_seq in Hv.
    destruct (extractedMark_range (files + urls) v) as [Hlo Hhi]; try lia.
    simpl. split.
    + by apply Qle_trans with 25%Q.
    + by apply Qle_trans with 50%Q.
  - apply Forall_forall. intros p Hp.
    apply list_elem_of_In, in_flat_map in Hp as (v & Hv & Hp).
    apply in_seq in Hv.
    destruct (extractedMark_range (files + urls) v) as [Hlo Hhi]; try lia.
    destruct (downloadedMark_range (files + urls) v) as [Hlo' Hhi']; try lia.
    destruct Hp as [<-|[<-|[]]]; split;
      first [ done | by apply Qle_trans with 25%Q | by apply Qle_trans with 50%Q ].
  - repeat constructor; done.
Qed.

Lemma schedule_climbs data :
  jobUrls data = [] ∨ (jobFiles data = [] ∧ List.length (jobUrls data) = 1%nat) ->
  climbs 10 (schedule data) 100.
Proof.
  unfold schedule. cbv zeta. intros [Hu|[Hf Hu]].
  - rewrite Hu. simpl List.length. simpl List.flat_map. rewrite Nat.add_0_r.
    split; [done|].
    destruct (jobFiles data) as [|file files]; [by vm_compute|].
    set (n := List.length (file :: files)).
    assert (Hn : (0 < n)%nat) by (unfold n; simpl; lia).
    apply climbs_app with (extractedMark n (0 + n)).
    + apply climbs_lower with (extractedMark n 0).
      * destruct (downloadedMark_range n 1) as [_ H]; try lia.
        apply Qle_trans with 25%Q; [done|].
        assert (HT := num_pos n Hn). clear_denominator HT.
      * apply fileMarks_climb; lia.
    + destruct (extractedMark_range n (0 + n)) as [_ H]; try lia.
      simpl. repeat split; try done. by apply Qle_trans with 50%Q.
  - rewrite Hf, Hu. by vm_compute.
Qed.

Lemma schedule_drops data :
  jobUrls data ≠ [] ->
  jobFiles data ≠ [] ∨ List.length (jobUrls data) ≠ 1%nat ->
  ¬ nonDecreasing (schedule data).
Proof.
  unfold schedule. cbv zeta. intros Hu Hor Hmono.
  set (files := List.length (jobFiles data)) in *.
  set (urls := List.length (jobUrls data)) in *.
  assert (Hurls : (1 <= urls)%nat).
  { unfold urls. destruct (jobUrls data); [done|simpl; lia]. }
  destruct (decide (files = 0%nat)) as [Hf|Hf].
  - assert (Hurls2 : ∃ k, urls = S (S k)).
    { destruct Hor as [Hor|Hor].
      - unfold files in Hf. destruct (jobFiles data); [done|discriminate].
      - exists (urls - 2)%nat. lia. }
    destruct Hurls2 as [k Hk]. rewrite Hf, Hk in Hmono. simpl in Hmono.
    apply (nonDecreasing_adjacent [10%Q; downloadedMark (S (S k)) 1]) in Hmono.
    apply Qle_not_lt in Hmono. apply Hmono.
    apply (next_downloadedMark_is_lower (S (S k)) 1); lia.
  - destruct files as [|f] eqn:Hfiles; [done|].
    destruct urls as [|u] eqn:Hurls'; [lia|].
    rewrite seq_S, fmap_app in Hmono. simpl in Hmono.
    rewrite <- app_assoc in Hmono. simpl in Hmono.
    rewrite app_comm_cons in Hmono.
    apply nonDecreasing_adjacent in Hmono.
    apply Qle_not_lt in Hmono. apply Hmono.
    replace (S (f + 1)) with (S f + 1)%nat by lia.
    apply next_downloadedMark_is_lower; lia.
Qed.

(** *** The runs *)

Lemma processVideoJob_schedule w data s :
  ∃ evs, trace (processVideoJob w data s).1 = trace s ++ evs
    ∧ progressOf evs `prefix_of` schedule data
    ∧ (∀ id n, (processVideoJob w data s).2 = Ok (JobSucceeded id n) ->
         progressOf evs = schedule data).
Proof.
  rewrite processVideoJob_run.
  destruct (pipeline_reports w data (entered s)) as (evs1 & Ht1 & Hpre1 & Hok1).
  assert (Hs : schedule data = 10%Q :: tail (schedule data)) by reflexivity.
  destruct (pipeline w data (entered s)) as [s1 [r|e]]; simpl in *.
  - exists (EvProgress 10 :: evs1). rewrite Ht1, <- app_assoc.
    split; [reflexivity|]. rewrite Hs. simpl. split.
    + by apply prefix_cons.
    + intros _ _ _. f_equal. by apply (Hok1 r).
  - destruct (onError_appends (fun ev => pickProgress ev = None) w data e
                ltac:(done) ltac:(done) s1) as (evs2 & Ht2 & Hnone).
    exists (EvProgress 10 :: evs1 ++ evs2).
    rewrite Ht2, Ht1, <- !app_assoc. split; [reflexivity|].
    assert (Hp : progressOf (EvProgress 10 :: evs1 ++ evs2)
                 = 10%Q :: omap pickProgress evs1).
    { simpl. unfold progressOf. f_equal.
      change (omap pickProgress (evs1 ++ evs2) = omap pickProgress evs1).
      by rewrite omap_app, (picked_none _ _ Hnone), app_nil_r. }
    rewrite Hp, Hs. split; [by apply prefix_cons|].
    intros id n Hr. destruct (onError w data e s1) as [s2 r] eqn:Hrun.
    simpl in Hr. subst r. by destruct (onError_never_succeeds w data e s1 s2 id n).
Qed.

(** The reports of a job are laid down by its videos alone.  With [F]
    uploaded files and [U] URL videos, [T = F + U], the schedule is 10,
    then [25 + v * 25 / T] for each file [v = 1..F], then
    [10 + v * 15 / T] and [25 + v * 25 / T] for each URL video
    [v = F + 1..T], then 75, 90 and 100.  Whatever the collaborators do, a
    run reports the first items of the schedule, in order; a run that
    succeeds reports all of it; every report lies between 10 and 100. *)
Theorem progress_follows_the_schedule
  (w : World) (data : JobData) (s : State) :
  let out := processVideoJob w data s in
  ∃ evs, trace out.1 = trace s ++ evs
    ∧ progressOf evs `prefix_of` schedule data
    ∧ (∀ id n, out.2 = Ok (JobSucceeded id n) -> progressOf evs = schedule data)
    ∧ Forall (fun p => (10 <= p)%Q ∧ (p <= 100)%Q) (progressOf evs).
Proof.
  cbv zeta. destruct (processVideoJob_schedule w data s) as (evs & Ht & Hpre & Hok).
  exists evs. repeat split; try done.
  destruct Hpre as [k Hk]. pose proof (schedule_within data) as Hall.
  rewrite Hk, Forall_app in Hall. by destruct Hall.
Qed.

(** The reports of a run never go down when the job has no URL video, or
    has one URL video and no uploaded file; for every other job, a run
    that succeeds has a report lower than the one before it. *)
Theorem progress_drops_exactly_with_a_later_download
  (w : World) (data : JobData) (s : State) (evs : list Event) :
  trace (processVideoJob w data s).1 = trace s ++ evs ->
  let single :=
    jobUrls data = [] ∨ (jobFiles data = [] ∧ List.length (jobUrls data) = 1%nat) in
  (single -> nonDecreasing (progressOf evs))
  ∧ (∀ id n, (processVideoJob w data s).2 = Ok (JobSucceeded id n) ->
       nonDecreasing (progressOf evs) -> single).
Proof.
  intros Ht. cbv zeta.
  destruct (processVideoJob_schedule w data s) as (evs' & Ht' & Hpre & Hok).
  rewrite Ht in Ht'. apply app_inv_head in Ht'. subst evs'. split.
  - intros Hsingle. apply (nonDecreasing_prefix _ _ Hpre).
    by apply (climbs_nonDecreasing 10 _ 100), schedule_climbs.
  - intros id n Hr Hmono. rewrite (Hok id n Hr) in Hmono.
    destruct (decide (jobUrls data = [])) as [Hu|Hu]; [by left|].
    destruct (decide (jobFiles data = [])) as [Hf|Hf];
      [destruct (decide (List.length (jobUrls data) = 1%nat)) as [H1|H1]|].
    + by right.
    + destruct (schedule_drops data Hu (or_intror H1) Hmono).
    + destruct (schedule_drops data Hu (or_introl Hf) Hmono).
Qed.

Lemma progress_drops_exactly_with_a_later_download_witness :
  nonDecreasing
    (progressOf (trace (processVideoJob Scenario.happy Scenario.oneUpload
                          Scenario.initial).1)).
Proof.
  apply (proj1 (progress_drops_exactly_with_a_later_download
                  Scenario.happy Scenario.oneUpload Scenario.initial _
                  (eq_sym (app_nil_l _)))).
  left. reflexivity.
Defined.

(** The earlier processor reports along the fixed ladder 10, 25, 50, 75,
    90, 100: every run reports the first rungs, in order, and a run that
    returns reports all six. *)
Theorem earlier_progress_is_a_fixed_ladder
  (w : World) (data : JobData) (s : State) :
  let out := Legacy.processVideoJob w data s in
  ∃ evs, trace out.1 = trace s ++ evs
    ∧ progressOf evs `prefix_of` [10; 25; 50; 75; 90; 100]%Q
    ∧ (∀ r, out.2 = Ok r -> progressOf evs = [10; 25; 50; 75; 90; 100]%Q).
Proof.
  cbv zeta. unfold Legacy.processVideoJob.
  apply (follows_bind pickProgress [10%Q] [25; 50; 75; 90; 100]%Q).
  - by apply follows_emit.
  - intros _. apply follows_tryCatch.
    + apply legacy_pipeline_reports.
    + intros e. by apply legacy_onError_appends.
    + intros e s0 s' r. apply legacy_onError_never_returns.
Qed.


(** ** What a run leaves behind *)

Lemma keepsStore_ret {A : Type} (a : A) : keepsStore (mret a).
Proof. done. Qed.

Lemma keepsStore_throw {A : Type} e : keepsStore (@throw A e).
Proof. done. Qed.

Lemma keepsStore_history : keepsStore history.
Proof. done. Qed.

Lemma keepsStore_wait ms : keepsStore (wait ms).
Proof. done. Qed.

Lemma keepsStore_emit ev : keepsStore (emit ev).
Proof. done. Qed.

Lemma keepsStore_bind {A B : Type} (m : M A) (f : A -> M B) :
  keepsStore m -> (∀ a, keepsStore (f a)) -> keepsStore (m ≫= f).
Proof.
  intros Hm Hf s. rewrite bind_run. specialize (Hm s).
  destruct (m s) as [s1 [a|e]]; simpl in *; [|done].
  by rewrite Hf.
Qed.

Lemma keepsStore_tryCatch {A : Type} (body : M A) (handler : Error -> M A) :
  keepsStore body -> (∀ e, keepsStore (handler e)) ->
  keepsStore (tryCatch body handler).
Proof.
  intros Hm Hf s. unfold tryCatch. specialize (Hm s).
  destruct (body s) as [s1 [a|e]]; simpl in *; [done|].
  by rewrite Hf.
Qed.

Create HintDb keeps.

#[global] Hint Resolve keepsStore_ret keepsStore_throw keepsStore_history
  keepsStore_wait keepsStore_emit : keeps.

Ltac keeps_step :=
  first
    [ solve [auto with keeps]
    | apply keepsStore_bind; [|intros]
    | apply keepsStore_tryCatch; [|intros]
    | match goal with
      | |- keepsStore (match ?x with _ => _ end) => destruct x
      end ].

Lemma downloadWith_keepsStore headers w url :
  keepsStore (downloadWith headers w url).
Proof. unfold downloadWith, fetchWithTimer, readBody. repeat keeps_step. Qed.

Lemma extractFrames_state w videoPath s :
  (extractFrames w videoPath s).1
  = mkState (trace s ++ [EvExtract videoPath]) (store s) (clock s).
Proof.
  rewrite extractFrames_run. cbv zeta.
  destruct (extractService w (trace s) videoPath); try reflexivity.
  destruct (pngNames files); reflexivity.
Qed.

Lemma extractFrames_keepsStore w videoPath : keepsStore (extractFrames w videoPath).
Proof. intros s. by rewrite extractFrames_state. Qed.

Lemma unlinkFile_run w videoPath s :
  unlinkFile w videoPath s
  = (mkState (trace s ++ [EvUnlink videoPath]) (store s) (clock s),
     match unlink w (trace s) videoPath with
     | Some e => Throw e
     | None => Ok tt
     end).
Proof. unfold unlinkFile. run. by destruct (unlink w (trace s) videoPath). Qed.

Lemma unlinkFile_keepsStore w videoPath : keepsStore (unlinkFile w videoPath).
Proof. intros s. by rewrite unlinkFile_run. Qed.

#[global] Hint Resolve downloadWith_keepsStore extractFrames_keepsStore
  unlinkFile_keepsStore : keeps.

Lemma filesLoop_keepsStore w total files : ∀ i acc,
  keepsStore (filesLoop w total i files acc).
Proof.
  induction files as [|videoPath rest IH]; intros i acc; simpl.
  - apply keepsStore_ret.
  - apply keepsStore_bind; [auto with keeps|]. intros [frames first].
    apply keepsStore_bind; [apply keepsStore_emit|]. intros _.
    apply keepsStore_bind; [auto with keeps|]. intros _. apply IH.
Qed.

Lemma urlsLoop_keepsStore w src total filesLength urls : ∀ i acc,
  keepsStore (urlsLoop w src total filesLength i urls acc).
Proof.
  induction urls as [|url rest IH]; intros i acc; simpl.
  - apply keepsStore_ret.
  - apply keepsStore_bind; [apply downloadWith_keepsStore|]. intros videoPath.
    apply keepsStore_bind; [apply keepsStore_emit|]. intros _.
    apply keepsStore_bind; [auto with keeps|]. intros [frames first].
    apply keepsStore_bind; [apply keepsStore_emit|]. intros _.
    apply keepsStore_bind; [auto with keeps|]. intros _. apply IH.
Qed.

Lemma acquireFrames_keepsStore w data : keepsStore (acquireFrames w data).
Proof.
  unfold acquireFrames. apply keepsStore_bind.
  - apply filesLoop_keepsStore.
  - intros acc. apply urlsLoop_keepsStore.
Qed.

Lemma parseWorkoutWithAI_keepsStore w caption text key :
  keepsStore (parseWorkoutWithAI w caption text key).
Proof.
  intros s. by rewrite parseWorkoutWithAI_run.
Qed.

Lemma noticesOf_acquisition evs :
  Forall acquisitionEvent evs -> noticesOf evs = [].
Proof.
  intros H. apply picked_none. eapply Forall_impl; [exact H|].
  intros ev. by destruct ev.
Qed.

Lemma noticesOf_vision detail key (frames : list string) :
  noticesOf (visionEvent detail key <$> frames) = [].
Proof. apply picked_none, Forall_fmap, Forall_forall. done. Qed.

Lemma legacy_acquireFrames_keepsStore w data :
  keepsStore (Legacy.acquireFrames w data).
Proof.
  unfold Legacy.acquireFrames, Legacy.downloadVideo.
  apply keepsStore_bind; [destruct (videoUrl data); auto with keeps|].
  intros videoPath.
  apply keepsStore_bind; [apply keepsStore_emit|]. intros _.
  apply keepsStore_bind; [auto with keeps|]. intros [frames first].
  apply keepsStore_bind; [apply keepsStore_emit|]. intros _.
  apply keepsStore_bind; [auto with keeps|]. intros _. apply keepsStore_ret.
Qed.

Lemma acquireOf_keepsStore v w data : keepsStore (acquireOf v w data).
Proof.
  destruct v; [apply acquireFrames_keepsStore|apply legacy_acquireFrames_keepsStore].
Qed.

Lemma legacy_parseWorkoutWithAI_keepsStore w caption text key :
  keepsStore (Legacy.parseWorkoutWithAI w caption text key).
Proof.
  unfold Legacy.parseWorkoutWithAI. cbv zeta.
  apply keepsStore_bind; [apply keepsStore_history|]. intros h.
  apply keepsStore_bind; [apply keepsStore_emit|]. intros _.
  destruct (languageModel w h _); auto with keeps.
  intros s. by rewrite parseContent_run.
Qed.

(** The second half, from any state: it ends well with the completed
    update applied and its last step done, or fails with the store as it
    was and nothing notified. *)
Lemma processFramesWith_outcome detail parse finish noFrames
  (finishEvents : JsValue -> list Event) w data frames thumbnailFrame s :
  (∀ caption text key,
     appends (fun ev => pickNotice ev = None) (parse w caption text key)) ->
  (∀ caption text key, keepsStore (parse w caption text key)) ->
  (∀ workoutData st,
     finish data workoutData st
     = (mkState (trace st ++ finishEvents workoutData) (store st) (clock st),
        Ok tt)) ->
  let out := processFramesWith detail parse finish noFrames w data frames
               thumbnailFrame s in
  ∃ evs, trace out.1 = trace s ++ evs
    ∧ match out.2 with
      | Ok r =>
          ∃ workoutData,
            r = JobSucceeded (workoutId data)
                  (Js.length (Js.get workoutData "exercises"))
            ∧ noticesOf evs = noticesOf (finishEvents workoutData)
            ∧ store out.1
              = alter (applyUpdate
                         (buildUpdateData
                            (completedUpdates workoutData
                               (finalDisplayUrl (source data) thumbnailFrame
                                  (displayUrl data)))))
                  (workoutId data) (store s)
      | Throw e => noticesOf evs = [] ∧ store out.1 = store s
      end.
Proof.
  intros Hparse Hkeeps Hfinish. cbv zeta.
  destruct (processFramesWith _ _ _ _ _ _ _ _ s) as [s' r] eqn:Hrun.
  cbn [fst snd]. revert Hrun. unfold processFramesWith.
  destruct (List.length frames =? 0)%nat.
  { intros [= <- <-]. exists []. by rewrite app_nil_r. }
  rewrite bind_run, extractTextWith_run.
  cbv beta iota. rewrite bind_run, progress_run. cbv beta iota.
  set (text := Str.join _ _).
  destruct (String.length text =? 0)%nat.
  { intros [= <- <-]. eexists. cbn [trace store].
    rewrite <- app_assoc. split; [reflexivity|].
    unfold noticesOf. by rewrite omap_app, (noticesOf_vision detail). }
  rewrite bind_run.
  match goal with
  | |- context [parse w ?c ?t ?k ?st] =>
      destruct (Hparse c t k st) as (evs3 & Ht & Hnone);
      pose proof (Hkeeps c t k st) as Hst;
      destruct (parse w c t k st) as [s3 [workoutData|e]]
  end; cbn [fst snd trace store] in Ht, Hst; apply picked_none in Hnone.
  2: { intros [= <- <-]. eexists. rewrite Ht, <- !app_assoc.
       split; [reflexivity|]. split; [|done]. unfold noticesOf.
       by rewrite !omap_app, (noticesOf_vision detail), Hnone. }
  rewrite bind_run, progress_run. cbv beta iota.
  rewrite bind_run, completedUpdatesOf_run.
  destruct (Js.renders (Js.get workoutData "notes")).
  2: { intros [= <- <-]. eexists. cbn [trace store]. rewrite Ht, <- !app_assoc.
       split; [reflexivity|]. split; [|done]. unfold noticesOf.
       by rewrite !omap_app, (noticesOf_vision detail), Hnone. }
  rewrite bind_run, updateWorkout_run. cbv zeta. cbn [trace store clock].
  destruct (supabaseUpdate w _ _ _).
  { intros [= <- <-]. eexists. cbn [trace store]. rewrite Ht, <- !app_assoc.
    split; [reflexivity|]. split; [|done]. unfold noticesOf.
    by rewrite !omap_app, (noticesOf_vision detail), Hnone. }
  rewrite bind_run, progress_run. cbv beta iota.
  rewrite bind_run, Hfinish. cbv beta iota.
  intros [= <- <-]. eexists. cbn [trace store]. rewrite Ht, <- !app_assoc.
  split; [reflexivity|].
  exists workoutData. split; [reflexivity|]. split.
  - unfold noticesOf.
    by rewrite !omap_app, (noticesOf_vision detail), Hnone.
  - by rewrite Hst.
Qed.

Lemma processFramesOf_outcome v w data frames thumbnailFrame s :
  let out := processFramesOf v w data frames thumbnailFrame s in
  ∃ evs, trace out.1 = trace s ++ evs
    ∧ match out.2 with
      | Ok r =>
          ∃ workoutData,
            r = JobSucceeded (workoutId data)
                  (Js.length (Js.get workoutData "exercises"))
            ∧ noticesOf evs
              = match v with
                | Current =>
                    [(userId data,
                      Js.or (Js.get workoutData "name") (JStr "Your workout"),
                      true)]
                | Earlier => []
                end
            ∧ store out.1
              = alter (applyUpdate
                         (buildUpdateData
                            (completedUpdates workoutData
                               (finalDisplayUrl (source data) thumbnailFrame
                                  (displayUrl data)))))
                  (workoutId data) (store s)
      | Throw e => noticesOf evs = [] ∧ store out.1 = store s
      end.
Proof.
  rewrite processFramesOf_generic. destruct v.
  - apply (processFramesWith_outcome _ _ _ _
             (fun workoutData =>
                [EvNotify (userId data)
                   (Js.or (Js.get workoutData "name") (JStr "Your workout"))
                   true])).
    + intros. by apply parseWorkoutWithAI_appends.
    + apply parseWorkoutWithAI_keepsStore.
    + reflexivity.
  - apply (processFramesWith_outcome _ _ _ _ (fun _ => [])).
    + intros. by apply legacy_parseWorkoutWithAI_appends.
    + apply legacy_parseWorkoutWithAI_keepsStore.
    + intros workoutData [tr st ck]. simpl. by rewrite app_nil_r.
Qed.

Lemma pipelineOf_outcome v w data s :
  let out := (acquireOf v w data ≫=
                fun acc => processFramesOf v w data acc.1 acc.2) s in
  ∃ evs, trace out.1 = trace s ++ evs
    ∧ match out.2 with
      | Ok r =>
          ∃ workoutData thumbnailFrame,
            r = JobSucceeded (workoutId data)
                  (Js.length (Js.get workoutData "exercises"))
            ∧ noticesOf evs
              = match v with
                | Current =>
                    [(userId data,
                      Js.or (Js.get workoutData "name") (JStr "Your workout"),
                      true)]
                | Earlier => []
                end
            ∧ store out.1
              = alter (applyUpdate
                         (buildUpdateData
                            (completedUpdates workoutData
                               (finalDisplayUrl (source data) thumbnailFrame
                                  (displayUrl data)))))
                  (workoutId data) (store s)
      | Throw e => noticesOf evs = [] ∧ store out.1 = store s
      end.
Proof.
  cbv zeta. rewrite bind_run.
  destruct (acquireOf_appends v w data s) as (evs1 & Ht1 & Hacq).
  pose proof (acquireOf_keepsStore v w data s) as Hst1.
  apply noticesOf_acquisition in Hacq.
  destruct (acquireOf v w data s) as [s1 [[frames thumb]|e]]; simpl in *.
  - destruct (processFramesOf_outcome v w data frames thumb s1)
      as (evs2 & Ht2 & Hout).
    exists (evs1 ++ evs2). rewrite Ht2, Ht1, <- app_assoc.
    split; [reflexivity|].
    destruct (processFramesOf v w data frames thumb s1) as [s2 [r|e]];
      simpl in *.
    + destruct Hout as (workoutData & -> & Hn & Hs).
      exists workoutData, thumb. split; [reflexivity|].
      unfold noticesOf in *. rewrite omap_app, Hacq, Hn, Hs, Hst1. done.
    + destruct Hout as [Hn Hs]. unfold noticesOf in *.
      rewrite omap_app, Hacq, Hn, Hs, Hst1. done.
  - exists evs1. done.
Qed.

Lemma pipeline_outcome w data s :
  let out := pipeline w data s in
  ∃ evs, trace out.1 = trace s ++ evs
    ∧ match out.2 with
      | Ok r =>
          ∃ workoutData thumbnailFrame,
            r = JobSucceeded (workoutId data)
                  (Js.length (Js.get workoutData "exercises"))
            ∧ noticesOf evs
              = [(userId data,
                  Js.or (Js.get workoutData "name") (JStr "Your workout"),
                  true)]
            ∧ store out.1
              = alter (applyUpdate
                         (buildUpdateData
                            (completedUpdates workoutData
                               (finalDisplayUrl (source data) thumbnailFrame
                                  (displayUrl data)))))
                  (workoutId data) (store s)
      | Throw e => noticesOf evs = [] ∧ store out.1 = store s
      end.
Proof.
  replace (pipeline w data s)
    with ((acquireOf Current w data ≫=
             fun acc => processFramesOf Current w data acc.1 acc.2) s).
  - apply (pipelineOf_outcome Current).
  - unfold pipeline. simpl. rewrite !bind_run.
    by destruct (acquireFrames w data s) as [s1 [[frames thumb]|e]].
Qed.


(** A run, from its start to its outcome. *)
Lemma processVideoJob_outcome w data s :
  let out := processVideoJob w data s in
  let id := workoutId data in
  ∃ evs, trace out.1 = trace s ++ evs
    ∧ match out.2 with
      | Ok (JobSucceeded id' n) =>
          id' = id
          ∧ ∃ workoutData thumbnailFrame,
              n = Js.length (Js.get workoutData "exercises")
              ∧ noticesOf evs
                = [(userId data,
                    Js.or (Js.get workoutData "name") (JStr "Your workout"),
                    true)]
              ∧ store out.1
                = alter (applyUpdate
                           (buildUpdateData
                              (completedUpdates workoutData
                                 (finalDisplayUrl (source data) thumbnailFrame
                                    (displayUrl data)))))
                    id (store s)
      | Ok (JobSoftFailed msg) =>
          msg = "Rate limit - no auto retry"
          ∧ noticesOf evs = []
          ∧ store out.1 = alter (applyUpdate rateLimitUpdate) id (store s)
      | Throw e =>
          (isRateLimitError e = false
           ∧ noticesOf evs = [(userId data, JStr "Workout", false)]
           ∧ store out.1
             = alter (applyUpdate (failedUpdate (message e))) id (store s))
          ∨ ((∃ msg, e = newError ("Supabase error: " ++ msg))
             ∧ noticesOf evs = []
             ∧ store out.1 = store s)
      end.
Proof.
  cbv zeta. rewrite processVideoJob_run.
  destruct (pipeline_outcome w data (entered s)) as (evs1 & Ht1 & Hout).
  destruct (pipeline w data (entered s)) as [s1 [r|e]]; simpl in *.
  - destruct Hout as (workoutData & thumb & -> & Hn & Hs).
    exists (EvProgress 10 :: evs1). rewrite Ht1, <- app_assoc.
    split; [reflexivity|]. split; [reflexivity|].
    exists workoutData, thumb. done.
  - destruct Hout as [Hn Hs]. rewrite onError_run. cbv zeta.
    rewrite handlerUpdate_built.
    destruct (supabaseUpdate w (trace s1) (workoutId data) (handlerUpdate e))
      as [msg|].
    + eexists. simpl. rewrite Ht1, <- !app_assoc. split; [reflexivity|].
      right. split; [by exists msg|]. split; [|done].
      unfold noticesOf in *. simpl. by rewrite omap_app, Hn.
    + unfold handlerUpdate. destruct (isRateLimitError e) eqn:Hrate.
      * eexists. simpl. rewrite Ht1, <- !app_assoc. split; [reflexivity|].
        split; [reflexivity|]. split; [|by rewrite Hs].
        unfold noticesOf in *. simpl. by rewrite omap_app, Hn.
      * eexists. simpl. rewrite Ht1, <- !app_assoc. split; [reflexivity|].
        left. split; [done|]. split; [|by rewrite Hs].
        unfold noticesOf in *. simpl. by rewrite omap_app, Hn.
Qed.



(** The [try] ends well only through a synthesis that succeeded, notes
    that have a text and an update the store accepted. *)
Lemma pipeline_succeeded w data s s' r :
  pipeline w data (entered s) = (s', Ok r) ->
  ∃ thumbnailFrame workoutData s3,
    synthesized w data s thumbnailFrame workoutData s3
    ∧ store s3 = store s
    ∧ Js.renders (Js.get workoutData "notes") = true
    ∧ let updateData :=
        buildUpdateData
          (completedUpdates workoutData
             (finalDisplayUrl (source data) thumbnailFrame (displayUrl data))) in
      supabaseUpdate w (trace s3 ++ [EvProgress 90]) (workoutId data) updateData
      = None
      ∧ r = JobSucceeded (workoutId data)
              (Js.length (Js.get workoutData "exercises"))
      ∧ s' = mkState
               (trace s3
                ++ [EvProgress 90; EvUpdate (workoutId data) updateData;
                    EvProgress 100;
                    EvNotify (userId data)
                      (Js.or (Js.get workoutData "name") (JStr "Your workout"))
                      true])
               (alter (applyUpdate updateData) (workoutId data) (store s))
               (clock s3).
Proof.
  unfold pipeline. intros Hrun.
  apply bind_inv_ok in Hrun as (s1 & [frames thumb] & Hacq & Hrun).
  assert (Hne : frames ≠ []).
  { intros ->. unfold processFrames in Hrun. discriminate. }
  rewrite processFrames_run in Hrun by done.
  destruct (String.length _ =? 0)%nat eqn:Hlen; [discriminate|].
  rewrite bind_run in Hrun.
  destruct (parseWorkoutWithAI w (caption data) _ (openAIKey data) _)
    as [s3 [workoutData|e]] eqn:Hparse; [|discriminate].
  assert (Hs3 : store s3 = store s).
  { pose proof (parseWorkoutWithAI_keepsStore w (caption data)
                  (extractedTextOf w (openAIKey data) frames s1)
                  (openAIKey data) (askedAt s1 (openAIKey data) frames)) as H3.
    rewrite Hparse in H3. cbn [fst askedAt store] in H3.
    pose proof (acquireFrames_keepsStore w data (entered s)) as H1.
    rewrite Hacq in H1. cbn [fst] in H1. by rewrite H3, H1. }
  rewrite completion_run in Hrun. cbv zeta in Hrun.
  destruct (Js.renders (Js.get workoutData "notes")) eqn:Hnotes; [|discriminate].
  destruct (supabaseUpdate w _ _ _) eqn:Hstore; [discriminate|].
  injection Hrun as <- <-.
  exists thumb, workoutData, s3. split.
  { exists s1, frames. repeat split; try done.
    intros Hempty. apply length_zero_iff in Hempty. congruence. }
  split; [exact Hs3|]. split; [exact Hnotes|]. cbv zeta.
  split; [exact Hstore|]. split; [reflexivity|].
  rewrite <- Hs3. f_equal. by rewrite <- app_assoc.
Qed.

(** A [try] that raises leaves the store as it was and has notified
    nobody. *)
Lemma pipeline_failed w data s s1 e :
  pipeline w data (entered s) = (s1, Throw e) ->
  store s1 = store s
  ∧ ∃ evs, trace s1 = trace s ++ evs ∧ noticesOf evs = [].
Proof.
  intros Hpipe.
  destruct (pipeline_outcome w data (entered s)) as (evs & Ht & Hout).
  rewrite Hpipe in Ht, Hout. cbn [fst snd] in Ht, Hout.
  destruct Hout as [Hn Hs]. split; [exact Hs|].
  exists (EvProgress 10 :: evs). rewrite Ht, entered_trace, <- app_assoc.
  split; [reflexivity|]. exact Hn.
Qed.

(** What the synthesizer returned to a run is determined by the run. *)
Lemma synthesized_unique w data s thumb1 thumb2 workout1 workout2 s3 s3' :
  synthesized w data s thumb1 workout1 s3 ->
  synthesized w data s thumb2 workout2 s3' ->
  thumb1 = thumb2 ∧ workout1 = workout2 ∧ s3 = s3'.
Proof.
  intros (s1 & frames & Hacq & _ & _ & Hparse)
    (s1' & frames' & Hacq' & _ & _ & Hparse').
  rewrite Hacq in Hacq'. injection Hacq' as <- <- <-.
  rewrite Hparse in Hparse'. by injection Hparse' as <- <-.
Qed.


(** Up to the answer of the synthesizer, a run notifies nobody. *)
Lemma synthesized_trace w data s thumbnailFrame workoutData s3 :
  synthesized w data s thumbnailFrame workoutData s3 ->
  ∃ evs, trace s3 = trace s ++ evs ∧ noticesOf evs = [].
Proof.
  intros (s1 & frames & Hacq & _ & _ & Hparse).
  destruct (appends_run _ _ _ _ _ (acquireOf_appends Current w data) Hacq)
    as (acq & Tacq & Facq).
  apply noticesOf_acquisition in Facq.
  rewrite parseWorkoutWithAI_run in Hparse. injection Hparse as <- _.
  cbn [trace askedAt]. rewrite Tacq, entered_trace, <- !app_assoc.
  eexists. split; [reflexivity|].
  unfold noticesOf in *. rewrite !omap_app, Facq.
  by rewrite (noticesOf_vision "low").
Qed.

(** A run sends at most one notification, to the user of the job.  A run
    that succeeds sends the success notification, under the name of the
    object the synthesizer returned, or under 'Your workout' when that
    name is falsy; the name sent is truthy.  A run that ends with the soft
    rate-limit outcome sends none.  A run that throws had its [try] raise
    an error: when the store accepted the handler's update, that error is
    the one thrown, it is no rate limit, and the failure notification for
    'Workout' was sent; when the store refused the update, the error
    thrown is the store's and nobody is notified. *)
Theorem run_notifies_at_most_once
  (w : World) (data : JobData) (s : State) :
  let out := processVideoJob w data s in
  ∃ evs, trace out.1 = trace s ++ evs
    ∧ match out.2 with
      | Ok (JobSucceeded _ _) =>
          ∃ thumbnailFrame workoutData s3,
            synthesized w data s thumbnailFrame workoutData s3
            ∧ noticesOf evs
              = [(userId data,
                  Js.or (Js.get workoutData "name") (JStr "Your workout"),
                  true)]
            ∧ Js.truthy (Js.or (Js.get workoutData "name") (JStr "Your workout"))
              = true
      | Ok (JobSoftFailed _) => noticesOf evs = []
      | Throw e =>
          ∃ s1 raised,
            pipeline w data (entered s) = (s1, Throw raised)
            ∧ match supabaseUpdate w (trace s1) (workoutId data)
                      (handlerUpdate raised) with
              | None =>
                  e = raised ∧ isRateLimitError e = false
                  ∧ noticesOf evs = [(userId data, JStr "Workout", false)]
              | Some msg =>
                  e = newError ("Supabase error: " ++ msg)
                  ∧ noticesOf evs = []
              end
      end.
Proof.
  cbv zeta.
  destruct (pipeline w data (entered s)) as [s1 [r|raised]] eqn:Hpipe.
  - rewrite processVideoJob_run, Hpipe. cbn [fst snd].
    destruct (pipeline_succeeded _ _ _ _ _ Hpipe)
      as (thumb & workoutData & s3 & Hsynth & _ & _ & Hdone).
    cbv zeta in Hdone. destruct Hdone as (_ & -> & ->). cbn [trace].
    destruct (synthesized_trace _ _ _ _ _ _ Hsynth) as (evs3 & Ht3 & Hn3).
    eexists. rewrite Ht3, <- app_assoc. split; [reflexivity|].
    exists thumb, workoutData, s3. split; [exact Hsynth|]. split.
    + unfold noticesOf in *. by rewrite omap_app, Hn3.
    + unfold Js.or.
      by destruct (Js.truthy (Js.get workoutData "name")) eqn:Hname.
  - pose proof (handled_run w data s s1 raised Hpipe) as Hhandled.
    destruct (pipeline_failed _ _ _ _ _ Hpipe) as (_ & evs1 & Ht1 & Hn1).
    cbv zeta in Hhandled.
    destruct (supabaseUpdate w (trace s1) (workoutId data)
                (handlerUpdate raised)) as [msg|] eqn:Hstore.
    + destruct Hhandled as (Ht & _ & Hr). rewrite Hr, Ht, Ht1, <- app_assoc.
      eexists. split; [reflexivity|].
      exists s1, raised. split; [reflexivity|]. rewrite Hstore.
      split; [reflexivity|]. unfold noticesOf in *. by rewrite omap_app, Hn1.
    + destruct Hhandled as (_ & Hout).
      change (Str.includes "429" (message raised))
        with (isRateLimitError raised) in Hout.
      destruct (isRateLimitError raised) eqn:Hrate.
      * destruct Hout as (Ht & ->). rewrite Ht, Ht1, <- app_assoc.
        eexists. split; [reflexivity|].
        unfold noticesOf in *. by rewrite omap_app, Hn1.
      * destruct Hout as (Ht & ->). rewrite Ht, Ht1, <- app_assoc.
        eexists. split; [reflexivity|].
        exists s1, raised. split; [reflexivity|]. rewrite Hstore.
        split; [reflexivity|]. split; [exact Hrate|].
        unfold noticesOf in *. by rewrite omap_app, Hn1.
Qed.


Lemma acquireFrames_empty_pool w data s s1 thumbnailFrame :
  acquireFrames w data s = (s1, Ok ([], thumbnailFrame)) ->
  jobFiles data = [] ∧ jobUrls data = [].
Proof.
  intros Hrun. unfold acquireFrames in Hrun.
  apply bind_inv_ok in Hrun as (s0 & acc & Hfiles & Hurls).
  apply filesLoop_thumbnail in Hfiles; [|by left].
  destruct Hfiles as [[Hf ->]|[Hf Hacc]].
  - split; [done|]. rewrite Hf in Hurls.
    apply urlsLoop_thumbnail in Hurls; [|by left].
    destruct Hurls as [[Hu _]|(t & rest & [=] & _)]. done.
  - apply urlsLoop_thumbnail in Hurls.
    + destruct Hurls as [[_ Heq]|(t & rest & [=] & _)].
      subst acc. by destruct Hacc as (t & rest & [=] & _).
    + right. split; [done|]. left.
      destruct (jobFiles data); [done|discriminate].
Qed.

(** The check on the pooled frames fires for the job without videos and
    for no other: the acquisition stage ends well with an empty pool
    exactly when the job names no uploaded file and no URL, and such a job
    fails with 'No frames extracted from any video' before any
    collaborator is asked anything. *)
Theorem empty_pool_is_the_job_without_videos
  (w : World) (data : JobData) (s : State) :
  ((∃ s1 thumbnailFrame,
      acquireFrames w data s = (s1, Ok ([], thumbnailFrame)))
   ↔ jobFiles data = [] ∧ jobUrls data = [])
  ∧ (jobFiles data = [] ∧ jobUrls data = [] ->
     pipeline w data s
     = (s, Throw (newError "No frames extracted from any video"))).
Proof.
  split; [split|].
  - intros (s1 & thumb & Hrun). by apply acquireFrames_empty_pool in Hrun.
  - intros [Hf Hu]. unfold acquireFrames. rewrite Hf, Hu.
    by exists s, None.
  - intros [Hf Hu]. unfold pipeline, acquireFrames. by rewrite Hf, Hu.
Qed.

(** ** The videos of a run, in order *)

Lemma picked_cons {X : Type} (pick : Event -> option X) ev evs :
  omap pick (ev :: evs)
  = match pick ev with
    | Some x => x :: omap pick evs
    | None => omap pick evs
    end.
Proof. reflexivity. Qed.

Lemma downloadWith_shape headers w url s :
  let out := downloadWith headers w url s in
  ∃ evs, trace out.1 = trace s ++ evs
    ∧ fetchesOf evs = [url] ∧ extractsOf evs = [] ∧ unlinksOf evs = []
    ∧ (List.length (writesOf evs) <= 1)%nat
    ∧ (∀ path, out.2 = Ok path -> writesOf evs = [path]).
Proof.
  cbv zeta.
  destruct (downloadWith headers w url s) as [s' r] eqn:Hrun.
  cbn [fst snd]. revert Hrun.
  unfold downloadWith, fetchWithTimer, readBody. run.
  destruct (fetchVideo w (trace s) url) as [ms e|ms ok status body];
    destruct (ms <? abortAfterMs)%N; simpl.
  - destruct (String.eqb (name e) "AbortError"); intros [= <- <-];
      (eexists; split; [reflexivity|]; repeat split; simpl; (lia || done)).
  - intros [= <- <-].
    eexists; split; [reflexivity|]; repeat split; simpl; (lia || done).
  - destruct ok; simpl.
    + destruct body as [e|bodyMs]; simpl.
      * destruct (String.eqb (name e) "AbortError"); intros [= <- <-];
          (eexists; split; [reflexivity|]; repeat split; simpl; (lia || done)).
      * destruct (writeFile w _ _) as [e|]; simpl.
        -- destruct (String.eqb (name e) "AbortError"); intros [= <- <-];
             (eexists; simpl; rewrite <- app_assoc; split; [reflexivity|];
              repeat split; simpl; (lia || done)).
        -- intros [= <- <-]. eexists. simpl. rewrite <- app_assoc.
           split; [reflexivity|]. repeat split; simpl; try (lia || done).
           by intros path [= <-].
    + intros [= <- <-].
      eexists; split; [reflexivity|]; repeat split; simpl; (lia || done).
  - intros [= <- <-].
    eexists; split; [reflexivity|]; repeat split; simpl; (lia || done).
Qed.

Ltac picks :=
  unfold fetchesOf, writesOf, extractsOf, unlinksOf in *;
  rewrite ?omap_app, ?picked_cons;
  cbn [pickFetch pickWrite pickExtract pickUnlink omap].

Lemma prefix_of_app {X : Type} (k l1 l2 : list X) :
  l1 `prefix_of` l2 -> k ++ l1 `prefix_of` k ++ l2.
Proof. intros [t ->]. exists t. by rewrite app_assoc. Qed.

Lemma filesLoop_shape w total files : ∀ i acc s,
  let out := filesLoop w total i files acc s in
  ∃ evs, trace out.1 = trace s ++ evs
    ∧ fetchesOf evs = [] ∧ writesOf evs = []
    ∧ extractsOf evs `prefix_of` files
    ∧ unlinksOf evs `prefix_of` extractsOf evs
    ∧ (List.length (extractsOf evs) <= S (List.length (unlinksOf evs)))%nat
    ∧ (∀ r, out.2 = Ok r -> extractsOf evs = files ∧ unlinksOf evs = files).
Proof.
  induction files as [|videoPath rest IH]; intros i acc s; cbv zeta.
  { exists []. simpl. rewrite app_nil_r. repeat split; (done || lia). }
  destruct (filesLoop w total i (videoPath :: rest) acc s) as [s' r] eqn:Hrun.
  cbn [fst snd]. revert Hrun. cbn [filesLoop]. rewrite bind_run.
  pose proof (extractFrames_state w videoPath s) as Hs1.
  destruct (extractFrames w videoPath s) as [s1 [[frames first]|e]];
    cbn [fst] in Hs1; subst s1.
  2: { intros [= <- <-]. exists [EvExtract videoPath].
       split; [reflexivity|]. picks.
       repeat split; try done; try (simpl; lia).
       - by apply prefix_cons, prefix_nil.
       - apply prefix_nil. }
  rewrite bind_run, progress_run. cbv beta iota.
  rewrite bind_run, unlinkFile_run. cbn [trace store clock].
  destruct (unlink w _ videoPath) as [e|].
  { intros [= <- <-]. eexists. cbn [trace]. rewrite <- !app_assoc.
    split; [reflexivity|]. picks.
    repeat split; try done; try (simpl; lia).
    by apply prefix_cons, prefix_nil. }
  intros Hrun.
  match type of Hrun with
  | filesLoop w total ?j rest ?acc' ?st = _ =>
      destruct (IH j acc' st) as (evs & Ht & Hf & Hw & He & Hu & Hlen & Hok)
  end.
  rewrite Hrun in Ht, Hok. cbn [fst snd trace] in Ht, Hok.
  eexists. rewrite Ht, <- !app_assoc. split; [reflexivity|].
  picks. rewrite Hf, Hw. repeat split; try done.
  - by apply prefix_cons.
  - by apply prefix_cons.
  - simpl. lia.
  - destruct (Hok r0) as [-> _]; done.
  - destruct (Hok r0) as [_ ->]; done.
Qed.

Lemma urlsLoop_shape w src total filesLength urls : ∀ i acc s,
  let out := urlsLoop w src total filesLength i urls acc s in
  ∃ evs, trace out.1 = trace s ++ evs
    ∧ fetchesOf evs `prefix_of` urls
    ∧ extractsOf evs `prefix_of` writesOf evs
    ∧ unlinksOf evs `prefix_of` extractsOf evs
    ∧ (List.length (extractsOf evs) <= S (List.length (unlinksOf evs)))%nat
    ∧ (∀ r, out.2 = Ok r ->
         fetchesOf evs = urls
         ∧ List.length (writesOf evs) = List.length urls
         ∧ extractsOf evs = writesOf evs
         ∧ unlinksOf evs = extractsOf evs).
Proof.
  induction urls as [|url rest IH]; intros i acc s; cbv zeta.
  { exists []. simpl. rewrite app_nil_r. repeat split; (done || lia). }
  destruct (urlsLoop w src total filesLength i (url :: rest) acc s)
    as [s' r] eqn:Hrun.
  cbn [fst snd]. revert Hrun. cbn [urlsLoop]. cbv zeta.
  rewrite bind_run. unfold downloadVideo.
  destruct (downloadWith_shape downloadHeaders w url s)
    as (evs0 & Ht0 & Hf0 & He0 & Hu0 & Hlen0 & Hw0).
  destruct (downloadWith downloadHeaders w url s) as [s0 [videoPath|e]];
    cbn [fst snd] in Ht0, Hw0.
  2: { intros [= <- <-]. exists evs0. split; [exact Ht0|].
       rewrite Hf0, He0, Hu0. repeat split; try done; try (simpl; lia).
       - by apply prefix_cons, prefix_nil.
       - apply prefix_nil. }
  specialize (Hw0 videoPath eq_refl).
  rewrite bind_run, progress_run. cbv beta iota. rewrite bind_run.
  match goal with
  | |- context [extractFrames w videoPath ?st] =>
      pose proof (extractFrames_state w videoPath st) as Hs1;
      destruct (extractFrames w videoPath st) as [s1 [[frames first]|e]]
  end; cbn [fst trace store clock] in Hs1; subst s1.
  2: { intros [= <- <-]. eexists. cbn [trace]. rewrite Ht0, <- !app_assoc.
       split; [reflexivity|]. picks. rewrite Hf0, He0, Hu0, Hw0.
       repeat split; try done; try (simpl; lia).
       - by apply prefix_cons, prefix_nil.
       - apply prefix_nil. }
  rewrite bind_run, progress_run. cbv beta iota.
  rewrite bind_run, unlinkFile_run. cbn [trace store clock].
  destruct (unlink w _ videoPath) as [e|].
  { intros [= <- <-]. eexists. cbn [trace]. rewrite Ht0, <- !app_assoc.
    split; [reflexivity|]. picks. rewrite Hf0, He0, Hu0, Hw0.
    repeat split; try done; try (simpl; lia).
    by apply prefix_cons, prefix_nil. }
  intros Hrun.
  match type of Hrun with
  | urlsLoop w src total filesLength ?j rest ?acc' ?st = _ =>
      destruct (IH j acc' st) as (evs & Ht & Hf & He & Hu & Hlen & Hok)
  end.
  rewrite Hrun in Ht, Hok. cbn [fst snd trace] in Ht, Hok.
  eexists. rewrite Ht, Ht0, <- !app_assoc. split; [reflexivity|].
  picks. rewrite Hf0, He0, Hu0, Hw0. cbn [app].
  repeat split; try done.
  - by apply prefix_cons.
  - by apply prefix_cons.
  - by apply prefix_cons.
  - simpl. lia.
  - destruct (Hok r0) as (-> & _); done.
  - destruct (Hok r0) as (_ & Hl & _); [done|]. simpl. by rewrite Hl.
  - destruct (Hok r0) as (_ & _ & -> & _); done.
  - destruct (Hok r0) as (_ & _ & _ & ->); done.
Qed.

Lemma acquireFrames_shape w data s :
  let out := acquireFrames w data s in
  ∃ evs, trace out.1 = trace s ++ evs
    ∧ inOrder (jobFiles data) (jobUrls data) evs
    ∧ (∀ r, out.2 = Ok r -> allDone (jobFiles data) (jobUrls data) evs).
Proof.
  cbv zeta. unfold acquireFrames. cbv zeta. rewrite bind_run.
  set (total := (List.length (jobFiles data) + List.length (jobUrls data))%nat).
  destruct (filesLoop_shape w total (jobFiles data) 0 ([], None) s)
    as (evs1 & Ht1 & Hf1 & Hw1 & He1 & Hu1 & Hlen1 & Hok1).
  destruct (filesLoop w total 0 (jobFiles data) ([], None) s)
    as [s1 [acc|e]]; cbn [fst snd] in *.
  - destruct (Hok1 acc eq_refl) as [Hex Hun].
    destruct (urlsLoop_shape w (source data) total
                (List.length (jobFiles data)) (jobUrls data) 0 acc s1)
      as (evs2 & Ht2 & Hf2 & He2 & Hu2 & Hlen2 & Hok2).
    exists (evs1 ++ evs2). rewrite Ht2, Ht1, <- app_assoc.
    split; [reflexivity|]. unfold inOrder, allDone. picks.
    rewrite Hf1, Hw1, Hex, Hun. cbn [app].
    split; [repeat split|].
    + done.
    + by apply prefix_of_app.
    + by apply prefix_of_app.
    + rewrite !length_app. lia.
    + intros r Hr. destruct (Hok2 r Hr) as (-> & -> & -> & ->). done.
  - exists evs1. split; [exact Ht1|]. unfold inOrder, allDone.
    rewrite Hf1, Hw1, app_nil_r. repeat split; try done. apply prefix_nil.
Qed.

Lemma besideVideos_frame pre evs post :
  Forall besideVideos pre -> Forall besideVideos post ->
  fetchesOf (pre ++ evs ++ post) = fetchesOf evs
  ∧ writesOf (pre ++ evs ++ post) = writesOf evs
  ∧ extractsOf (pre ++ evs ++ post) = extractsOf evs
  ∧ unlinksOf (pre ++ evs ++ post) = unlinksOf evs.
Proof.
  intros Hpre Hpost.
  unfold fetchesOf, writesOf, extractsOf, unlinksOf. rewrite !omap_app.
  rewrite !(picked_none _ pre), !(picked_none _ post), !app_nil_r;
    try done;
    (eapply Forall_impl; [first [exact Hpre|exact Hpost]|];
     by intros ev (? & ? & ? & ?)).
Qed.

Lemma inOrder_frame files urls pre evs post :
  Forall besideVideos pre -> Forall besideVideos post ->
  inOrder files urls evs -> inOrder files urls (pre ++ evs ++ post).
Proof.
  intros Hpre Hpost. unfold inOrder.
  destruct (besideVideos_frame pre evs post Hpre Hpost) as (-> & -> & -> & ->).
  done.
Qed.

Lemma allDone_frame files urls pre evs post :
  Forall besideVideos pre -> Forall besideVideos post ->
  allDone files urls evs -> allDone files urls (pre ++ evs ++ post).
Proof.
  intros Hpre Hpost. unfold allDone.
  destruct (besideVideos_frame pre evs post Hpre Hpost) as (-> & -> & -> & ->).
  done.
Qed.

Lemma processFrames_besideVideos w data frames thumbnailFrame :
  appends besideVideos (processFrames w data frames thumbnailFrame).
Proof.
  change processFrames with (processFramesOf Current).
  rewrite processFramesOf_generic. apply processFramesWith_appends; try done.
  - intros. by apply parseWorkoutWithAI_appends.
  - intros. by apply appends_emit.
Qed.

(** The videos of a job are acquired in the order of the job: the uploaded
    files first, then the URLs.  In every run the URLs requested are the
    first URLs of the job, the videos sent to the extraction service are
    the first of the uploaded files followed by the files the downloads
    wrote, and the deletions asked for are of those videos, in the same
    order, all of them or all but the last.  Nothing else is asked to be
    deleted: an uploaded file that the run did not send to the extraction
    service is never asked to be deleted.  When the acquisition ends well,
    and so in every run that succeeds, the URLs requested are all the URLs
    of the job, each download was written to a file, and every uploaded
    and every written file was sent to the extraction service and asked to
    be deleted. *)
Theorem videos_are_taken_in_order_and_deleted
  (w : World) (data : JobData) (s : State) :
  let out := processVideoJob w data s in
  ∃ evs, trace out.1 = trace s ++ evs
    ∧ inOrder (jobFiles data) (jobUrls data) evs
    ∧ (∀ path, path ∈ unlinksOf evs -> path ∈ extractsOf evs)
    ∧ (∀ path, path ∈ jobFiles data -> path ∉ extractsOf evs ->
         path ∉ unlinksOf evs)
    ∧ (∀ s1 acc, acquireFrames w data (entered s) = (s1, Ok acc) ->
         allDone (jobFiles data) (jobUrls data) evs)
    ∧ (∀ id n, out.2 = Ok (JobSucceeded id n) ->
         allDone (jobFiles data) (jobUrls data) evs).
Proof.
  cbv zeta.
  assert (Hgoal : ∃ evs,
            trace (processVideoJob w data s).1 = trace s ++ evs
            ∧ inOrder (jobFiles data) (jobUrls data) evs
            ∧ (∀ s1 acc, acquireFrames w data (entered s) = (s1, Ok acc) ->
                 allDone (jobFiles data) (jobUrls data) evs)
            ∧ (∀ id n, (processVideoJob w data s).2 = Ok (JobSucceeded id n) ->
                 allDone (jobFiles data) (jobUrls data) evs)).
  { rewrite processVideoJob_run. unfold pipeline. rewrite bind_run.
    destruct (acquireFrames_shape w data (entered s))
      as (evsA & HtA & Hin & Hdone).
    rewrite entered_trace in HtA.
    assert (Hpre : Forall besideVideos [EvProgress 10])
      by (by repeat constructor).
    assert (Hhandler : ∀ e, appends besideVideos (onError w data e)).
    { intros e. by apply onError_appends. }
    destruct (acquireFrames w data (entered s)) as [s1 [[frames thumb]|e]];
      cbn [fst snd] in *.
    - destruct (processFrames_besideVideos w data frames thumb s1)
        as (evsR & HtR & HR).
      destruct (processFrames w data frames thumb s1) as [s2 [r|e]];
        cbn [fst snd] in *.
      + exists ([EvProgress 10] ++ evsA ++ evsR).
        rewrite HtR, HtA, <- !app_assoc. split; [reflexivity|]. split.
        * by apply inOrder_frame.
        * split; intros; apply allDone_frame; try done;
            by apply (Hdone (frames, thumb)).
      + destruct (Hhandler e s2) as (evsH & HtH & HH).
        exists ([EvProgress 10] ++ evsA ++ evsR ++ evsH).
        rewrite HtH, HtR, HtA, <- !app_assoc. split; [reflexivity|]. split.
        * apply inOrder_frame; try done. by apply Forall_app.
        * split.
          -- intros _ _ _. apply allDone_frame; try done.
             ++ by apply Forall_app.
             ++ by apply (Hdone (frames, thumb)).
          -- intros id n Hr. destruct (onError w data e s2) as [s3 r] eqn:Hrun.
             simpl in Hr. subst r.
             by destruct (onError_never_succeeds w data e s2 s3 id n).
    - destruct (Hhandler e s1) as (evsH & HtH & HH).
      exists ([EvProgress 10] ++ evsA ++ evsH).
      rewrite HtH, HtA, <- !app_assoc. split; [reflexivity|]. split.
      + by apply inOrder_frame.
      + split; [intros ? ? [=]|].
        intros id n Hr. destruct (onError w data e s1) as [s3 r] eqn:Hrun.
        simpl in Hr. subst r.
        by destruct (onError_never_succeeds w data e s1 s3 id n). }
  destruct Hgoal as (evs & Ht & Hin & Hacq & Hok).
  exists evs. split; [exact Ht|]. split; [exact Hin|].
  assert (Hsub : ∀ path, path ∈ unlinksOf evs -> path ∈ extractsOf evs).
  { destruct Hin as (_ & _ & [rest Hrest] & _).
    intros path Hpath. rewrite Hrest. apply elem_of_app. by left. }
  split; [exact Hsub|]. split; [|by split].
  intros path _ Hno Hun. by apply Hno, Hsub.
Qed.

(** ** The text of the frames *)

Lemma collected_length detail w key frames : ∀ tr,
  (List.length (collected detail w key frames tr) <= List.length frames)%nat.
Proof.
  induction frames as [|frame rest IH]; intros tr; simpl; [lia|].
  rewrite length_app. specialize (IH (tr ++ [visionEvent detail key frame])).
  destruct (frameYield _); simpl; lia.
Qed.

Lemma collected_steady detail w key frames answer : ∀ tr,
  (∀ h request, visionModel w h request = answer request) ->
  collected detail w key frames tr
  = omap (fun frame => frameYield (answer (visionRequest detail frame))) frames.
Proof.
  intros tr Hsteady. revert tr.
  induction frames as [|frame rest IH]; intros tr; simpl; [reflexivity|].
  rewrite Hsteady, IH. by destruct (frameYield _).
Qed.

(** Text extraction never fails and asks the vision model once per frame,
    in the order of the frames, whatever the answers are.  It returns the
    texts that the answers of the pass yield, joined by a blank line; each
    of them is trimmed, of the white space and the line terminators that
    [trim] strips, and not empty; there is at most one per frame, and the
    result is the empty string exactly when no frame yields a text, which
    is when every answer is a failure or white space only.  For a model
    whose answers do not depend on what happened before, the texts are
    those of the frames whose answer is a success with a text that is not
    blank. *)
Theorem extracted_text_joins_what_the_frames_yield
  (detail : string) (w : World) (frames : list string) (openAIKey : string)
  (s : State) :
  let texts := collected detail w openAIKey frames (trace s) in
  extractTextWith detail w frames openAIKey s
  = (mkState (trace s ++ (visionEvent detail openAIKey <$> frames))
       (store s) (clock s),
     Ok (Str.join (Str.newline ++ Str.newline) texts))
  ∧ texts = omap frameYield (answers detail w openAIKey frames (trace s))
  ∧ Forall (fun t => t ≠ "" ∧ Str.trim t = t) texts
  ∧ (List.length texts <= List.length frames)%nat
  ∧ (Str.join (Str.newline ++ Str.newline) texts = "" ↔ texts = [])
  ∧ (texts = []
     ↔ Forall fruitless (answers detail w openAIKey frames (trace s)))
  ∧ (∀ answer,
       (∀ h request, visionModel w h request = answer request) ->
       texts
       = omap (fun frame => frameYield (answer (visionRequest detail frame)))
           frames).
Proof.
  cbv zeta. split; [apply extractTextWith_run|].
  split; [apply collected_answers|].
  split; [apply collected_clean|].
  split; [apply collected_length|].
  split.
  - apply join_empty. eapply Forall_impl; [apply collected_clean|].
    by intros t [? _].
  - split; [apply collected_nil_iff|].
    intros answer. apply collected_steady.
Qed.

(** ** The object inside the model's answer *)

Lemma fromFirstOpen_Some s t :
  fromFirstOpen s = Some t ->
  ∃ pre rest : string,
    s = (pre ++ String openBrace rest)%string ∧ t = String openBrace rest
    ∧ lacks openBrace pre.
Proof.
  induction s as [|c s IH]; simpl; [done|].
  destruct (Ascii.eqb_spec c openBrace) as [->|Hc].
  - intros [= <-]. by exists "", s.
  - intros H. destruct (IH H) as (pre & rest & -> & -> & Hpre).
    by exists (String c pre), rest.
Qed.

Lemma upToLastClose_Some s : ∀ p,
  upToLastClose s = Some p ->
  ∃ mid post : string,
    s = (mid ++ String closeBrace post)%string
    ∧ p = (mid ++ String closeBrace "")%string
    ∧ lacks closeBrace post.
Proof.
  induction s as [|c s IH]; intros p; simpl; [done|].
  destruct (upToLastClose s) as [q|] eqn:Hq.
  - intros [= <-]. destruct (IH q eq_refl) as (mid & post & -> & -> & Hpost).
    by exists (String c mid), post.
  - destruct (Ascii.eqb_spec c closeBrace) as [->|Hc]; [|done].
    intros [= <-]. exists "", s. repeat split.
    by apply upToLastClose_None.
Qed.

(** The span taken out of the model's answer runs from the first opening
    brace of the answer to its last closing brace, whatever lies between:
    [matchBraces] finds a span exactly when the answer reads [pre { mid }
    post] with no opening brace in [pre] and no closing brace in [post],
    and the span is then [{ mid }]. *)
Theorem matchBraces_spans_first_open_to_last_close
  (content span : string) :
  matchBraces content = Some span
  ↔ ∃ pre mid post : string,
      content = (pre ++ String openBrace (mid ++ String closeBrace post))%string
      ∧ lacks openBrace pre ∧ lacks closeBrace post
      ∧ span = String openBrace (mid ++ String closeBrace "").
Proof.
  split.
  - unfold matchBraces. destruct (fromFirstOpen content) as [t|] eqn:Ht; [|done].
    apply fromFirstOpen_Some in Ht as (pre & rest & -> & -> & Hpre).
    intros Hspan.
    apply upToLastClose_Some in Hspan as (mid & post & Heq & -> & Hpost).
    destruct mid as [|c mid]; [discriminate|].
    injection Heq as <- ->.
    by exists pre, mid, post.
  - intros (pre & mid & post & -> & Hpre & Hpost & ->).
    by apply matchBraces_span.
Qed.

(** ** The columns of a completed workout *)

Lemma append_nonempty (a : string) c rest :
  String.eqb (a ++ String c rest) "" = false.
Proof. by destruct a. Qed.

Lemma completedUpdates_notes workoutData display :
  buildUpdateData (completedUpdates workoutData display) !! "notes"
  = Some (JStr (Js.toString (Js.get workoutData "notes") ++ enhancedSuffix)).
Proof.
  rewrite (buildUpdateData_copied _ "notes" "notes").
  - change (field (completedUpdates workoutData display) "notes")
      with (JStr (Js.toString (Js.get workoutData "notes") ++ enhancedSuffix)).
    unfold Js.truthy, enhancedSuffix, Str.newline.
    change (String (ascii_of_nat 10) "" ++ ?x)%string
      with (String (ascii_of_nat 10) x).
    by rewrite append_nonempty.
  - unfold copiedFields. rewrite !elem_of_cons. tauto.
Qed.

Lemma completedUpdates_no_detail workoutData display :
  buildUpdateData (completedUpdates workoutData display) !! "processing_error"
  = None.
Proof.
  rewrite (buildUpdateData_copied _ "processingError" "processing_error").
  - reflexivity.
  - unfold copiedFields. rewrite !elem_of_cons. tauto.
Qed.

(** A run that succeeds always rewrites the notes of the workout: it has
    asked the synthesizer, the notes of the object that was returned have
    a conversion to a string (the text 'undefined' when the object has no
    notes), and the notes stored are that string followed by the
    enhancement marker.  It never writes the failure detail: a workout
    that failed before and now succeeds keeps the detail of that failure
    next to its status 'completed'. *)
Theorem completed_run_rewrites_notes_and_keeps_failure_detail
  (w : World) (data : JobData) (s : State) (id : string) (n : nat) :
  (processVideoJob w data s).2 = Ok (JobSucceeded id n) ->
  is_Some (store s !! workoutId data) ->
  let s' := (processVideoJob w data s).1 in
  (∃ thumbnailFrame workoutData s3,
     synthesized w data s thumbnailFrame workoutData s3
     ∧ Js.renders (Js.get workoutData "notes") = true
     ∧ stored s' id "notes"
       = Some (JStr (Js.toString (Js.get workoutData "notes")
                     ++ enhancedSuffix)))
  ∧ stored s' id "processing_error" = stored s id "processing_error".
Proof.
  intros Hr [row Hrow]. cbv zeta. revert Hr. rewrite processVideoJob_run.
  destruct (pipeline w data (entered s)) as [s1 [r|raised]] eqn:Hpipe.
  2: { intros Hr. exfalso.
       destruct (onError w data raised s1) as [s2 r2] eqn:Hrun.
       cbn [snd] in Hr. subst r2.
       by apply onError_never_succeeds in Hrun. }
  cbn [fst snd]. intros [= ->].
  destruct (pipeline_succeeded _ _ _ _ _ Hpipe)
    as (thumb & workoutData & s3 & Hsynth & _ & Hnotes & Hdone).
  cbv zeta in Hdone. destruct Hdone as (_ & [= -> _] & ->).
  unfold stored. cbn [store]. rewrite lookup_alter_eq, Hrow. simpl. split.
  - exists thumb, workoutData, s3. split; [exact Hsynth|].
    split; [exact Hnotes|].
    apply applyUpdate_written; [|done]. apply completedUpdates_notes.
  - apply applyUpdate_absent, completedUpdates_no_detail.
Qed.

Lemma completed_run_rewrites_notes_and_keeps_failure_detail_witness :
  stored (processVideoJob Scenario.happy Scenario.oneUpload Scenario.initial).1
    "w1" "notes"
  = Some (JStr ("great session" ++ enhancedSuffix))
  ∧ stored (processVideoJob Scenario.happy Scenario.oneUpload Scenario.initial).1
      "w1" "processing_error"
    = stored Scenario.initial "w1" "processing_error".
Proof.
  destruct (completed_run_rewrites_notes_and_keeps_failure_detail
              Scenario.happy Scenario.oneUpload Scenario.initial "w1" 1)
    as ((thumb & workoutData & s3 & Hsynth & _ & Hstored) & Hdetail).
  - vm_compute. reflexivity.
  - vm_compute. eauto.
  - split; [|exact Hdetail].
    rewrite Hstored. do 3 f_equal.
    destruct Hsynth as (s1 & frames & Hacq & _ & _ & Hparse).
    assert (Hframes : frames = [ "data:image/png;base64,TWFu";
                                 "data:image/png;base64,ZA==";
                                 "data:image/png;base64,Zw==" ]).
    { apply (f_equal snd) in Hacq. vm_compute in Hacq. congruence. }
    subst frames.
    apply (f_equal snd) in Hparse. vm_compute in Hparse.
    injection Hparse as <-. reflexivity.
Defined.

(** * The notifier *)










(** * The submission routes *)

Lemma mapM_asString_length items (l : list string) :
  mapM Server.asString items = Some l -> List.length l = List.length items.
Proof. intros H. by apply length_mapM in H. Qed.

Lemma mapM_asString_inv items (l : list string) :
  mapM Server.asString items = Some l -> items = JStr <$> l.
Proof.
  intros H. symmetry. apply (mapM_fmap_Some_inv _ _ _ _ H).
  intros v t. destruct v; try done. by intros [= <-].
Qed.

Lemma not_enqueued (log : list Server.Payload) payload :
  log ≠ log ++ [payload].
Proof.
  intros H. apply (f_equal List.length) in H.
  rewrite length_app in H. simpl in H. lia.
Qed.

Lemma enqueue_log queue payload log :
  (Server.enqueue queue payload log).1 = log ++ [payload].
Proof. unfold Server.enqueue. by destruct (queue log payload). Qed.

(** A run on a job that names a video: the pool check cannot fire. *)
Lemma acquireFrames_pool_not_empty w data s s1 thumbnailFrame :
  jobFiles data ≠ [] ∨ jobUrls data ≠ [] ->
  acquireFrames w data s ≠ (s1, Ok ([], thumbnailFrame)).
Proof.
  intros Hsome Hrun. apply acquireFrames_empty_pool in Hrun as [Hf Hu].
  by destruct Hsome.
Qed.

Lemma run_climbs_or_drops w data s evs id n :
  trace (processVideoJob w data s).1 = trace s ++ evs ->
  (jobUrls data = [] ∨ (jobFiles data = [] ∧ List.length (jobUrls data) = 1%nat) ->
   nonDecreasing (progressOf evs))
  ∧ ((processVideoJob w data s).2 = Ok (JobSucceeded id n) ->
     jobUrls data ≠ [] ->
     jobFiles data ≠ [] ∨ List.length (jobUrls data) ≠ 1%nat ->
     ¬ nonDecreasing (progressOf evs)).
Proof.
  intros Ht.
  destruct (processVideoJob_schedule w data s) as (evs' & Ht' & Hpre & Hok).
  rewrite Ht in Ht'. apply app_inv_head in Ht'. subst evs'. split.
  - intros Hsingle. apply (nonDecreasing_prefix _ _ Hpre).
    by apply (climbs_nonDecreasing 10 _ 100), schedule_climbs.
  - intros Hr Hu Hmany. rewrite (Hok id n Hr). by apply schedule_drops.
Qed.

(** A job that the URL route enqueues carries the fields of the request
    and names URLs and no uploaded file.  Its URLs are those of the
    request, in order: the array [videoUrls] when the request has a truthy
    one, and otherwise the one [videoUrl], which is then a string that is
    not empty; there is at least one.  Processing it, the check on the
    pooled frames cannot fire; the reports never go down when there is one
    URL, and a run that succeeds on several URLs has a report lower than
    the one before it.  A request that is refused with 400 leaves the queue
    alone. *)
Theorem url_route_jobs_name_urls_only
  (queue : Server.Queue) (apiKey : JsValue) (body : list (string * JsValue))
  (log : list Server.Payload) (payload : Server.Payload) (data : JobData) :
  (Server.postProcessVideo queue apiKey body log).1 = log ++ [payload] ->
  Server.jobOf payload = Some data ->
  Server.code (Server.postProcessVideo queue apiKey body log).2 ≠ 400%N
  ∧ (∀ body' log',
       Server.code (Server.postProcessVideo queue apiKey body' log').2 = 400%N ->
       (Server.postProcessVideo queue apiKey body' log').1 = log')
  ∧ (Js.assoc "workoutId" body = JStr (workoutId data)
     ∧ Js.assoc "userId" body = JStr (userId data)
     ∧ Js.assoc "caption" body = JStr (caption data)
     ∧ Js.assoc "source" body = JStr (source data)
     ∧ Js.assoc "displayUrl" body = displayUrl data
     ∧ apiKey = JStr (openAIKey data))
  ∧ (if Js.truthy (Js.assoc "videoUrls" body)
     then Js.assoc "videoUrls" body = JArr (JStr <$> jobUrls data)
     else ∃ url, Js.assoc "videoUrl" body = JStr url ∧ url ≠ ""
                 ∧ jobUrls data = [url])
  ∧ jobFiles data = []
  ∧ jobUrls data ≠ []
  ∧ Js.assoc "videoUrls" payload = JArr (JStr <$> jobUrls data)
  ∧ (∀ w s s1 thumbnailFrame,
       acquireFrames w data s ≠ (s1, Ok ([], thumbnailFrame)))
  ∧ (∀ w s evs,
       trace (processVideoJob w data s).1 = trace s ++ evs ->
       (List.length (jobUrls data) = 1%nat -> nonDecreasing (progressOf evs))
       ∧ (∀ id n, (processVideoJob w data s).2 = Ok (JobSucceeded id n) ->
            List.length (jobUrls data) ≠ 1%nat ->
            ¬ nonDecreasing (progressOf evs))).
Proof.
  assert (Hrefused : ∀ body' log',
            Server.code (Server.postProcessVideo queue apiKey body' log').2
            = 400%N ->
            (Server.postProcessVideo queue apiKey body' log').1 = log').
  { intros body' log'. unfold Server.postProcessVideo. cbv zeta.
    destruct (_ || _ || _); [done|].
    unfold Server.enqueue. by destruct (queue log' _). }
  unfold Server.postProcessVideo. cbv zeta.
  remember (Js.or (Js.assoc "videoUrls" body)
              (if Js.truthy (Js.assoc "videoUrl" body)
               then JArr [Js.assoc "videoUrl" body] else JArr []))
    as urls eqn:Hurls.
  destruct (negb (Js.truthy (Js.assoc "workoutId" body)) || Server.lengthIsZero urls
            || negb (Js.truthy (Js.assoc "userId" body))) eqn:Hbad.
  { intros H. by destruct (not_enqueued log payload). }
  rewrite enqueue_log. intros Heq%app_inv_head. injection Heq as <-.
  apply orb_false_iff in Hbad as [Hbad _].
  apply orb_false_iff in Hbad as [_ Hlen].
  unfold Server.jobOf. cbn [Js.assoc String.eqb Ascii.eqb Bool.eqb].
  intros Hjob.
  destruct (Js.assoc "workoutId" body) as [| |?|?|wid|?|?] eqn:Hwid;
    try discriminate Hjob.
  cbn in Hjob.
  assert (Htruthy : Js.truthy urls = true).
  { rewrite Hurls. unfold Js.or.
    destruct (Js.truthy (Js.assoc "videoUrls" body)) eqn:Hv; [done|].
    by destruct (Js.truthy (Js.assoc "videoUrl" body)). }
  destruct urls as [| |b|z|str|items|props]; try discriminate Htruthy;
    cbn in Hjob; try discriminate Hjob.
  destruct (mapM Server.asString items) as [l|] eqn:Hl; [|done].
  cbn in Hjob.
  destruct (Js.assoc "userId" body) as [| |?|?|uid|?|?] eqn:Huid;
    try discriminate Hjob.
  cbn in Hjob.
  destruct (Js.assoc "caption" body) as [| |?|?|cap|?|?] eqn:Hcap;
    try discriminate Hjob.
  cbn in Hjob.
  destruct (Js.assoc "source" body) as [| |?|?|src|?|?] eqn:Hsrc;
    try discriminate Hjob.
  cbn in Hjob.
  destruct apiKey as [| |?|?|key|?|?]; try discriminate Hjob.
  cbn in Hjob. injection Hjob as <-.
  assert (Hfiles : jobFiles
            (mkJobData wid None (Some l) None uid cap src
               (Js.assoc "displayUrl" body) key) = []) by reflexivity.
  assert (Hitems : items = JStr <$> l) by (by apply mapM_asString_inv).
  assert (Hne : l ≠ []).
  { intros ->. apply mapM_asString_length in Hl. simpl in Hlen.
    destruct items; [discriminate|discriminate]. }
  split.
  { unfold Server.enqueue. by destruct (queue log _). }
  split; [exact Hrefused|].
  split; [done|]. split.
  { change (jobUrls _) with l. revert Hurls. unfold Js.or.
    destruct (Js.truthy (Js.assoc "videoUrls" body)).
    - intros <-. by rewrite Hitems.
    - destruct (Js.truthy (Js.assoc "videoUrl" body)) eqn:Hone.
      + rewrite Hitems. intros [= Hl1].
        destruct l as [|url [|? ?]]; try discriminate Hl1.
        injection Hl1 as Hl1. exists url. rewrite <- Hl1 in Hone.
        split; [done|]. split; [|done]. by intros ->.
      + rewrite Hitems. intros [= Hl1]. by destruct l. }
  split; [exact Hfiles|]. split; [exact Hne|]. split.
  { cbn. by f_equal. }
  split.
  { intros w s s1 thumb. apply acquireFrames_pool_not_empty. by right. }
  intros w s evs Ht. split.
  - intros H1. eapply (run_climbs_or_drops w _ s evs "" 0%nat); [exact Ht|].
    right. by split.
  - intros id n Hr Hmany.
    eapply (run_climbs_or_drops w _ s evs id n); [exact Ht|exact Hr|exact Hne|].
    by right.
Qed.

Lemma url_route_jobs_name_urls_only_witness :
  jobFiles Scenario.twoUrls = []
  ∧ jobUrls Scenario.twoUrls
    = ["https://cdn.example/1.mp4"; "https://cdn.example/2.mp4"]
  ∧ Js.assoc "videoUrls" ServerScenario.twoUrlsBody
    = JArr (JStr <$> jobUrls Scenario.twoUrls).
Proof.
  pose proof (url_route_jobs_name_urls_only ServerScenario.counting
                (JStr "sk-test") ServerScenario.twoUrlsBody [] _
                Scenario.twoUrls eq_refl eq_refl) as (_ & _ & _ & Hb & Hf & _).
  split; [exact Hf|]. split; [reflexivity|]. exact Hb.
Defined.

Lemma mapM_asString_paths (l : list string) :
  mapM Server.asString (List.map JStr l) = Some l.
Proof. induction l as [|x l IH]; cbn; [done|]. by rewrite IH. Qed.

(** A job that the upload route enqueues names uploaded files and no URL:
    at least one file, the paths the upload middleware gave, in order.
    Processing it, the check on the pooled frames cannot fire and the
    reports never go down.  A request without a file is refused and
    leaves the queue alone. *)
Theorem upload_route_jobs_name_files_only
  (queue : Server.Queue) (openAIKey : JsValue) (body : list (string * JsValue))
  (files : option (list Server.UploadedFile))
  (log : list Server.Payload) (payload : Server.Payload) (data : JobData) :
  (Server.postProcessVideoUpload queue openAIKey body files log).1
  = log ++ [payload] ->
  Server.jobOf payload = Some data ->
  Server.code (Server.postProcessVideoUpload queue openAIKey body files log).2
  ≠ 400%N
  ∧ jobUrls data = []
  ∧ jobFiles data ≠ []
  ∧ (∃ uploadedFiles,
       files = Some uploadedFiles
       ∧ jobFiles data = List.map Server.path uploadedFiles)
  ∧ (∀ w s s1 thumbnailFrame,
       acquireFrames w data s ≠ (s1, Ok ([], thumbnailFrame)))
  ∧ (∀ w s evs,
       trace (processVideoJob w data s).1 = trace s ++ evs ->
       nonDecreasing (progressOf evs)).
Proof.
  unfold Server.postProcessVideoUpload. cbv zeta.
  destruct files as [uploadedFiles|];
    [|intros H; by destruct (not_enqueued log payload)].
  destruct (negb (Js.truthy (Js.assoc "workoutId" body))
            || (List.length uploadedFiles =? 0)%nat
            || negb (Js.truthy (Js.assoc "userId" body))) eqn:Hbad.
  { intros H. by destruct (not_enqueued log payload). }
  rewrite enqueue_log. intros Heq%app_inv_head. injection Heq as <-.
  apply orb_false_iff in Hbad as [Hbad _].
  apply orb_false_iff in Hbad as [_ Hlen].
  unfold Server.jobOf. cbn [Js.assoc String.eqb Ascii.eqb Bool.eqb].
  intros Hjob.
  destruct (Server.asString (Js.assoc "workoutId" body)) as [wid|]; [|done].
  cbn [mbind option_bind Server.optional] in Hjob.
  unfold Server.asStrings in Hjob. rewrite mapM_asString_paths in Hjob.
  cbn in Hjob.
  destruct (Server.asString (Js.assoc "userId" body)) as [uid|]; [|done].
  cbn in Hjob.
  destruct (Server.asString (Js.assoc "caption" body)) as [cap|]; [|done].
  cbn in Hjob.
  destruct (Server.asString (Js.assoc "source" body)) as [src|]; [|done].
  cbn in Hjob.
  destruct (Server.asString openAIKey) as [key|]; [|done].
  cbn in Hjob. injection Hjob as <-.
  assert (Hfiles : jobFiles
            (mkJobData wid None None
               (Some (List.map Server.path uploadedFiles)) uid cap src
               (Js.assoc "displayUrl" body) key)
            = List.map Server.path uploadedFiles).
  { unfold jobFiles. cbn [videoFiles].
    by destruct uploadedFiles. }
  assert (Hne : List.map Server.path uploadedFiles ≠ []).
  { by destruct uploadedFiles. }
  split.
  { unfold Server.enqueue. by destruct (queue log _). }
  split; [reflexivity|]. split; [by rewrite Hfiles|]. split.
  { by exists uploadedFiles. }
  split.
  { intros w s s1 thumb. apply acquireFrames_pool_not_empty. left.
    by rewrite Hfiles. }
  intros w s evs Ht.
  eapply (run_climbs_or_drops w _ s evs "" 0%nat); [exact Ht|]. by left.
Qed.

Lemma upload_route_jobs_name_files_only_witness :
  jobUrls Scenario.oneUpload = [] ∧ jobFiles Scenario.oneUpload ≠ [].
Proof.
  pose proof (upload_route_jobs_name_files_only ServerScenario.counting
                (JStr "sk-test") ServerScenario.uploadBody
                ServerScenario.oneFile [] _ Scenario.oneUpload eq_refl eq_refl)
    as (_ & Hu & Hf & _).
  by split.
Defined.

(** A job that the route of the earlier server enqueues names one URL,
    which is not empty, and nothing else; the current processor reads it as
    a job of one URL video, and its reports on it never go down. *)
Theorem earlier_route_jobs_name_one_url
  (queue : Server.Queue) (openAIKey : JsValue) (body : list (string * JsValue))
  (log : list Server.Payload) (payload : Server.Payload) (data : JobData) :
  (Server.earlierPostProcessVideo queue openAIKey body log).1
  = log ++ [payload] ->
  Server.jobOf payload = Some data ->
  Server.code (Server.earlierPostProcessVideo queue openAIKey body log).2
  ≠ 400%N
  ∧ (∃ url, url ≠ "" ∧ videoUrl data = Some url
            ∧ Js.assoc "videoUrl" body = JStr url
            ∧ jobUrls data = [url])
  ∧ jobFiles data = []
  ∧ (∀ w s evs,
       trace (processVideoJob w data s).1 = trace s ++ evs ->
       nonDecreasing (progressOf evs)).
Proof.
  unfold Server.earlierPostProcessVideo. cbv zeta.
  destruct (negb (Js.truthy (Js.assoc "workoutId" body))
            || negb (Js.truthy (Js.assoc "videoUrl" body))
            || negb (Js.truthy (Js.assoc "userId" body))) eqn:Hbad.
  { intros H. by destruct (not_enqueued log payload). }
  rewrite enqueue_log. intros Heq%app_inv_head. injection Heq as <-.
  apply orb_false_iff in Hbad as [Hbad _].
  apply orb_false_iff in Hbad as [_ Hurl]. apply negb_false_iff in Hurl.
  unfold Server.jobOf. cbn [Js.assoc String.eqb Ascii.eqb Bool.eqb].
  intros Hjob.
  destruct (Server.asString (Js.assoc "workoutId" body)) as [wid|]; [|done].
  cbn in Hjob.
  destruct (Js.assoc "videoUrl" body) as [| |b|z|url|items|props];
    try discriminate Hurl; cbn in Hjob; try discriminate Hjob.
  destruct (Server.asString (Js.assoc "userId" body)) as [uid|]; [|done].
  cbn in Hjob.
  destruct (Server.asString (Js.assoc "caption" body)) as [cap|]; [|done].
  cbn in Hjob.
  destruct (Server.asString (Js.assoc "source" body)) as [src|]; [|done].
  cbn in Hjob.
  destruct (Server.asString openAIKey) as [key|]; [|done].
  cbn in Hjob. injection Hjob as <-.
  simpl in Hurl. apply negb_true_iff in Hurl.
  assert (Hurls : jobUrls
            (mkJobData wid (Some url) None None uid cap src
               (Js.assoc "displayUrl" body) key) = [url]).
  { unfold jobUrls. cbn [videoUrls videoUrl]. by rewrite Hurl. }
  split.
  { unfold Server.enqueue. by destruct (queue log _). }
  split.
  { exists url. repeat split; try done. intros ->. discriminate. }
  split; [reflexivity|].
  intros w s evs Ht.
  eapply (run_climbs_or_drops w _ s evs "" 0%nat); [exact Ht|].
  right. split; [reflexivity|]. by rewrite Hurls.
Qed.

Lemma earlier_route_jobs_name_one_url_witness :
  jobUrls ServerScenario.oneUrlJob = ["https://cdn.example/1.mp4"]
  ∧ jobFiles ServerScenario.oneUrlJob = [].
Proof.
  pose proof (earlier_route_jobs_name_one_url ServerScenario.counting
                (JStr "sk-test") ServerScenario.oneUrlBody [] _
                ServerScenario.oneUrlJob eq_refl eq_refl)
    as (_ & (url & _ & Hurl & _ & Hurls) & Hf & _).
  injection Hurl as <-. by split.
Defined.

(** * The workout the model returns *)

(** Synthesis ends well exactly when the model answers with a text that
    holds a brace span, the span parses, and the parsed object has an
    array under 'exercises'; the workout is then that object.  Nothing
    else is asked of it: an empty array of exercises passes. *)
Theorem synthesis_succeeds_exactly_on_an_object_with_exercises
  (w : World) (caption extractedText openAIKey : string) (s : State)
  (workoutData : JsValue) :
  (parseWorkoutWithAI w caption extractedText openAIKey s).2 = Ok workoutData
  ↔ ∃ content answer span props,
      languageModel w (trace s) (synthPrompt caption extractedText)
      = SynthContent content
      ∧ Js.or content (JStr "") = JStr answer
      ∧ matchBraces answer = Some span
      ∧ jsonParse w span = Ok props
      ∧ Js.isArray (Js.assoc "exercises" props) = true
      ∧ workoutData = JObj props.
Proof.
  rewrite parseWorkoutWithAI_run. cbn [snd].
  destruct (languageModel w (trace s) (synthPrompt caption extractedText))
    as [e|status statusText errorData|e|content].
  1, 3: (split; [done|]; by intros (? & ? & ? & ? & ? & _)).
  { split; [|by intros (? & ? & ? & ? & ? & _)].
    destruct errorData as [[]|]; cbn [default id]; cbv zeta; try done;
      match goal with
      | |- context [Js.renders ?m] => destruct (Js.renders m)
      end; done. }
  rewrite parseContent_run. cbn [snd].
  destruct (Js.or content (JStr "")) as [| |b|z|answer|items|props0] eqn:Hc;
    try (split; [done|]; intros (? & ? & ? & ? & [= <-] & ? & _); congruence).
  assert (Hinv : ∀ P : Prop,
            (∀ span props,
               matchBraces answer = Some span -> jsonParse w span = Ok props ->
               Js.isArray (Js.assoc "exercises" props) = true ->
               workoutData = JObj props -> P) ->
            (∃ content0 answer0 span props,
               SynthContent content = SynthContent content0
               ∧ Js.or content0 (JStr "") = JStr answer0
               ∧ matchBraces answer0 = Some span
               ∧ jsonParse w span = Ok props
               ∧ Js.isArray (Js.assoc "exercises" props) = true
               ∧ workoutData = JObj props) -> P).
  { intros P HP (c0 & a0 & span & props & [= <-] & Ha & Hm & Hp & Hi & Hw).
    rewrite Hc in Ha. injection Ha as <-. by apply (HP span props). }
  destruct (matchBraces answer) as [span|] eqn:Hspan.
  2: { split; [done|]. apply Hinv. intros; congruence. }
  destruct (jsonParse w span) as [props|e] eqn:Hparse.
  2: { split; [done|]. apply Hinv. intros; congruence. }
  destruct (Js.isArray (Js.assoc "exercises" props)) eqn:Harr.
  - split.
    + intros [= <-]. by exists content, answer, span, props.
    + apply Hinv. intros; congruence.
  - split; [done|]. apply Hinv. intros; congruence.
Qed.

(** * What a run asks of the synthesizer and of the store *)

Section AtMost.

Context {X : Type} (pick : Event -> option X).

Lemma atMost_silent {A : Type} (m : M A) n :
  appends (fun ev => pick ev = None) m -> atMost pick n m.
Proof.
  intros Hm s. destruct (Hm s) as (evs & Ht & Hnone).
  exists evs. split; [exact Ht|]. rewrite (picked_none _ _ Hnone). simpl. lia.
Qed.

Lemma atMost_bind {A B : Type} a b (m : M A) (f : A -> M B) :
  atMost pick a m -> (∀ x, atMost pick b (f x)) -> atMost pick (a + b) (m ≫= f).
Proof.
  intros Hm Hf s. rewrite bind_run.
  destruct (Hm s) as (evs1 & Ht1 & Hn1).
  destruct (m s) as [s1 [x|e]]; simpl in *.
  - destruct (Hf x s1) as (evs2 & Ht2 & Hn2).
    exists (evs1 ++ evs2). rewrite Ht2, Ht1, <- app_assoc.
    split; [reflexivity|]. rewrite omap_app, length_app. lia.
  - exists evs1. split; [exact Ht1|]. lia.
Qed.

Lemma atMost_then {A B : Type} n (m : M A) (f : A -> M B) :
  atMost pick 0 m -> (∀ x, atMost pick n (f x)) -> atMost pick n (m ≫= f).
Proof. intros Hm Hf. by apply (atMost_bind 0 n). Qed.

Lemma atMost_tryCatch {A : Type} a b (body : M A) (handler : Error -> M A) :
  atMost pick a body -> (∀ e, atMost pick b (handler e)) ->
  atMost pick (a + b) (tryCatch body handler).
Proof.
  intros Hm Hh s. unfold tryCatch.
  destruct (Hm s) as (evs1 & Ht1 & Hn1).
  destruct (body s) as [s1 [x|e]]; simpl in *.
  - exists evs1. split; [exact Ht1|]. lia.
  - destruct (Hh e s1) as (evs2 & Ht2 & Hn2).
    exists (evs1 ++ evs2). rewrite Ht2, Ht1, <- app_assoc.
    split; [reflexivity|]. rewrite omap_app, length_app. lia.
Qed.

Lemma atMost_one {A : Type} (m : M A) ev :
  (∀ s, trace (m s).1 = trace s ++ [ev]) -> atMost pick 1 m.
Proof.
  intros Hm s. exists [ev]. split; [apply Hm|].
  simpl. destruct (pick ev); simpl; lia.
Qed.

End AtMost.

Lemma updateWorkout_trace w id updates s :
  trace (updateWorkout w id updates s).1
  = trace s ++ [EvUpdate id (buildUpdateData updates)].
Proof.
  rewrite updateWorkout_run. cbv zeta. by destruct (supabaseUpdate w _ _ _).
Qed.

Lemma atMost_weaken {A X : Type} (pick : Event -> option X) n n' (m : M A) :
  (n <= n')%nat -> atMost pick n m -> atMost pick n' m.
Proof.
  intros Hn Hm s. destruct (Hm s) as (evs & Ht & Hlen).
  exists evs. split; [exact Ht|]. lia.
Qed.

Lemma pickSynthesize_update_free w id updates :
  atMost pickSynthesize 0 (updateWorkout w id updates).
Proof. apply atMost_silent. by apply updateWorkout_appends. Qed.

(** The second half asks for one synthesis at most. *)
Lemma processFramesOf_syntheses v w data frames thumbnailFrame :
  atMost pickSynthesize 1 (processFramesOf v w data frames thumbnailFrame).
Proof.
  assert (Hparse : ∀ parse : World -> string -> string -> string -> M JsValue,
            (∀ caption text key s,
               trace (parse w caption text key s).1
               = trace s ++ [EvSynthesize ("Bearer " ++ key)
                               (synthPrompt caption text)]) ->
            ∀ finish noFrames detail,
              (∀ workoutData,
                 appends (fun ev => pickSynthesize ev = None)
                   (finish data workoutData)) ->
              atMost pickSynthesize 1
                (processFramesWith detail parse finish noFrames w data frames
                   thumbnailFrame)).
  { intros parse Htrace finish noFrames detail Hfinish.
    unfold processFramesWith.
    destruct (List.length frames =? 0)%nat.
    { apply atMost_silent, appends_throw. }
    apply atMost_then.
    { apply atMost_silent. by apply extractTextWith_appends. }
    intros text. apply atMost_then.
    { apply atMost_silent. by apply appends_emit. }
    intros _. destruct (String.length text =? 0)%nat.
    { apply atMost_silent, appends_throw. }
    apply (atMost_bind pickSynthesize 1 0).
    { eapply atMost_one. intros s. apply Htrace. }
    intros workoutData. apply atMost_then.
    { apply atMost_silent. by apply appends_emit. }
    intros _. apply atMost_then.
    { apply atMost_silent, completedUpdatesOf_appends. }
    intros updates. apply atMost_then; [apply pickSynthesize_update_free|].
    intros _. apply atMost_then.
    { apply atMost_silent. by apply appends_emit. }
    intros _. apply atMost_then; [by apply atMost_silent|].
    intros _. apply atMost_silent, appends_ret. }
  rewrite processFramesOf_generic. destruct v.
  - apply Hparse; [apply parseWorkoutWithAI_trace|].
    intros. by apply appends_emit.
  - apply Hparse.
    + intros caption text key s.
      destruct (legacy_parseWorkoutWithAI_appends
                  (fun ev => ev = EvSynthesize ("Bearer " ++ key)
                                    (synthPrompt caption text))
                  w caption text key eq_refl s) as (evs & Ht & Hall).
      unfold Legacy.parseWorkoutWithAI in *. run.
      by destruct (languageModel w (trace s) (synthPrompt caption text));
        try rewrite parseContent_run.
    + intros. apply appends_ret.
Qed.

(** The second half sends one update at most. *)
Lemma processFramesOf_updates v w data frames thumbnailFrame :
  atMost pickUpdate 1 (processFramesOf v w data frames thumbnailFrame).
Proof.
  assert (Hgen : ∀ parse finish noFrames detail,
            (∀ caption text key,
               appends (fun ev => pickUpdate ev = None)
                 (parse w caption text key)) ->
            (∀ workoutData,
               appends (fun ev => pickUpdate ev = None)
                 (finish data workoutData)) ->
            atMost pickUpdate 1
              (processFramesWith detail parse finish noFrames w data frames
                 thumbnailFrame)).
  { intros parse finish noFrames detail Hparse Hfinish.
    unfold processFramesWith.
    destruct (List.length frames =? 0)%nat.
    { apply atMost_silent, appends_throw. }
    apply atMost_then.
    { apply atMost_silent. by apply extractTextWith_appends. }
    intros text. apply atMost_then.
    { apply atMost_silent. by apply appends_emit. }
    intros _. destruct (String.length text =? 0)%nat.
    { apply atMost_silent, appends_throw. }
    apply atMost_then; [by apply atMost_silent|].
    intros workoutData. apply atMost_then.
    { apply atMost_silent. by apply appends_emit. }
    intros _. apply atMost_then.
    { apply atMost_silent, completedUpdatesOf_appends. }
    intros updates. apply (atMost_bind pickUpdate 1 0).
    { eapply atMost_one. intros s. apply updateWorkout_trace. }
    intros _. apply atMost_then.
    { apply atMost_silent. by apply appends_emit. }
    intros _. apply atMost_then; [by apply atMost_silent|].
    intros _. apply atMost_silent, appends_ret. }
  rewrite processFramesOf_generic. destruct v.
  - apply Hgen.
    + intros. by apply parseWorkoutWithAI_appends.
    + intros. by apply appends_emit.
  - apply Hgen.
    + intros. by apply legacy_parseWorkoutWithAI_appends.
    + intros. apply appends_ret.
Qed.

Lemma acquireOf_silent {X : Type} (pick : Event -> option X) v w data :
  (∀ ev, acquisitionEvent ev -> pick ev = None) ->
  atMost pick 0 (acquireOf v w data).
Proof.
  intros Hpick. apply atMost_silent.
  eapply appends_weaken; [exact Hpick|]. apply acquireOf_appends.
Qed.

Lemma processorOf_unfold v w data s :
  processorOf v w data s
  = (progress 10;;
     tryCatch
       (acc ← acquireOf v w data; processFramesOf v w data acc.1 acc.2)
       (match v with
        | Current => onError w data
        | Earlier => Legacy.onError w data
        end)) s.
Proof.
  destruct v; simpl;
    unfold processVideoJob, Legacy.processVideoJob, pipeline, Legacy.pipeline;
    rewrite !(bind_run (progress 10)), progress_run; cbv beta iota;
    unfold tryCatch; rewrite !bind_run.
  - by destruct (acquireFrames w data _) as [s1 [[frames thumb]|e]].
  - by destruct (Legacy.acquireFrames w data _) as [s1 [[frames thumb]|e]].
Qed.

Lemma atMost_ext {A X : Type} (pick : Event -> option X) n (m m' : M A) :
  (∀ s, m s = m' s) -> atMost pick n m' -> atMost pick n m.
Proof. intros Heq Hm s. rewrite Heq. apply Hm. Qed.

Lemma appends_ext {A : Type} (P : Event -> Prop) (m m' : M A) :
  (∀ s, m s = m' s) -> appends P m' -> appends P m.
Proof. intros Heq Hm s. rewrite Heq. apply Hm. Qed.

Lemma onErrorOf_updates v w data e :
  atMost pickUpdate 1
    (match v with
     | Current => onError w data
     | Earlier => Legacy.onError w data
     end e).
Proof.
  destruct v; [unfold onError|unfold Legacy.onError];
    destruct (isRateLimitError e).
  - apply (atMost_bind pickUpdate 1 0).
    { eapply atMost_one. intros s. apply updateWorkout_trace. }
    intros _. apply atMost_silent, appends_ret.
  - apply (atMost_bind pickUpdate 1 0).
    { eapply atMost_one. intros s. apply updateWorkout_trace. }
    intros _. apply atMost_then; [apply atMost_silent; by apply appends_emit|].
    intros _. apply atMost_silent, appends_throw.
  - apply atMost_silent, appends_throw.
  - apply (atMost_bind pickUpdate 1 0).
    { eapply atMost_one. intros s. apply updateWorkout_trace. }
    intros _. apply atMost_silent, appends_throw.
Qed.

Lemma onErrorOf_appends (P : Event -> Prop) v w data e :
  (∀ updateData, P (EvUpdate (workoutId data) updateData)) ->
  (∀ workoutName success, P (EvNotify (userId data) workoutName success)) ->
  appends P
    (match v with
     | Current => onError w data
     | Earlier => Legacy.onError w data
     end e).
Proof.
  intros Hupd Hnot. destruct v.
  - by apply onError_appends.
  - by apply legacy_onError_appends.
Qed.

Lemma processFramesOf_appends (P : Event -> Prop) v w data frames thumbnailFrame :
  (∀ p, P (EvProgress p)) ->
  (∀ request, P (EvVision ("Bearer " ++ openAIKey data) request)) ->
  (∀ caption text,
     P (EvSynthesize ("Bearer " ++ openAIKey data) (synthPrompt caption text))) ->
  (∀ updateData, P (EvUpdate (workoutId data) updateData)) ->
  (∀ workoutName success, P (EvNotify (userId data) workoutName success)) ->
  appends P (processFramesOf v w data frames thumbnailFrame).
Proof.
  intros Hprogress Hvision Hsynth Hupd Hnot.
  rewrite processFramesOf_generic. destruct v.
  - unfold processFramesWith.
    destruct (List.length frames =? 0)%nat; [apply appends_throw|].
    apply appends_bind.
    { apply extractTextWith_appends. intros frame. apply Hvision. }
    intros text. apply appends_bind; [by apply appends_emit|]. intros _.
    destruct (String.length text =? 0)%nat; [apply appends_throw|].
    apply appends_bind; [by apply parseWorkoutWithAI_appends|].
    intros workoutData.
    apply appends_bind; [by apply appends_emit|]. intros _.
    apply appends_bind; [apply completedUpdatesOf_appends|]. intros updates.
    apply appends_bind; [by apply updateWorkout_appends|]. intros _.
    apply appends_bind; [by apply appends_emit|]. intros _.
    apply appends_bind; [by apply appends_emit|]. intros _.
    apply appends_ret.
  - unfold processFramesWith.
    destruct (List.length frames =? 0)%nat; [apply appends_throw|].
    apply appends_bind.
    { apply extractTextWith_appends. intros frame. apply Hvision. }
    intros text. apply appends_bind; [by apply appends_emit|]. intros _.
    destruct (String.length text =? 0)%nat; [apply appends_throw|].
    apply appends_bind; [by apply legacy_parseWorkoutWithAI_appends|].
    intros workoutData.
    apply appends_bind; [by apply appends_emit|]. intros _.
    apply appends_bind; [apply completedUpdatesOf_appends|]. intros updates.
    apply appends_bind; [by apply updateWorkout_appends|]. intros _.
    apply appends_bind; [by apply appends_emit|]. intros _.
    apply appends_bind; [apply appends_ret|]. intros _.
    apply appends_ret.
Qed.

(** The events of a run, by kind: reports, the events of the acquisition,
    requests to the two models under the job's key, updates of the job's
    workout and notifications of the job's user. *)
Lemma processorOf_appends (P : Event -> Prop) v w data :
  (∀ ev, acquisitionEvent ev -> P ev) ->
  (∀ request, P (EvVision ("Bearer " ++ openAIKey data) request)) ->
  (∀ caption text,
     P (EvSynthesize ("Bearer " ++ openAIKey data) (synthPrompt caption text))) ->
  (∀ updateData, P (EvUpdate (workoutId data) updateData)) ->
  (∀ workoutName success, P (EvNotify (userId data) workoutName success)) ->
  appends P (processorOf v w data).
Proof.
  intros Hacq Hvision Hsynth Hupd Hnot.
  eapply appends_ext; [apply processorOf_unfold|].
  assert (Hprogress : ∀ p, P (EvProgress p)) by (intros p; by apply Hacq).
  apply appends_bind; [by apply appends_emit|]. intros _.
  apply appends_tryCatch.
  - apply appends_bind.
    + eapply appends_weaken; [exact Hacq|]. apply acquireOf_appends.
    + intros acc. by apply processFramesOf_appends.
  - intros e. by apply onErrorOf_appends.
Qed.

(** A run of either processor asks for one synthesis at most and sends two
    updates to the store at most -- the completed workout, and the
    handler's update when the run fails -- each of them to the row of the
    job's workout.  Both models are asked under the key of the job, and
    nobody but the job's user is notified. *)
Theorem run_asks_for_one_synthesis_and_two_updates_at_most
  (v : Variant) (w : World) (data : JobData) (s : State) :
  let out := processorOf v w data s in
  ∃ evs, trace out.1 = trace s ++ evs
    ∧ (List.length (synthesesOf evs) <= 1)%nat
    ∧ (List.length (updatesOf evs) <= 2)%nat
    ∧ Forall (fun ev =>
                match ev with
                | EvVision authorization _ | EvSynthesize authorization _ =>
                    authorization = ("Bearer " ++ openAIKey data)%string
                | EvUpdate id _ => id = workoutId data
                | EvNotify user _ _ => user = userId data
                | _ => True
                end) evs.
Proof.
  cbv zeta.
  assert (Hsynth : atMost pickSynthesize 1 (processorOf v w data)).
  { eapply atMost_ext; [apply processorOf_unfold|].
    apply atMost_then; [apply atMost_silent; by apply appends_emit|].
    intros _. apply (atMost_tryCatch pickSynthesize 1 0).
    - apply atMost_then.
      + apply acquireOf_silent. intros ev. by destruct ev.
      + intros acc. apply processFramesOf_syntheses.
    - intros e. apply atMost_silent. by apply onErrorOf_appends. }
  assert (Hupd : atMost pickUpdate 2 (processorOf v w data)).
  { eapply atMost_ext; [apply processorOf_unfold|].
    apply atMost_then; [apply atMost_silent; by apply appends_emit|].
    intros _. apply (atMost_tryCatch pickUpdate 1 1).
    - apply atMost_then.
      + apply acquireOf_silent. intros ev. by destruct ev.
      + intros acc. apply processFramesOf_updates.
    - intros e. apply onErrorOf_updates. }
  destruct (Hsynth s) as (evs & Ht & Hs).
  destruct (Hupd s) as (evs' & Ht' & Hu).
  rewrite Ht in Ht'. apply app_inv_head in Ht'. subst evs'.
  exists evs. split; [exact Ht|]. split; [exact Hs|]. split; [exact Hu|].
  match goal with
  | |- Forall ?P evs =>
      destruct (processorOf_appends P v w data) with (s := s)
        as (evs' & Ht' & Hall)
  end; try done.
  - intros ev. by destruct ev.
  - rewrite Ht in Ht'. apply app_inv_head in Ht'. by subst evs'.
Qed.
